(** * chat-i-rafe: the chat front-end's conversation, attachment and
      streaming logic (src/components/ChatInterface.tsx, src/types)

    A shallow embedding of the TypeScript source.  JavaScript values of
    type [any] are an inductive type of plain data (what a JSON payload
    or a thrown value can be, plus native [Error] objects): a string is
    the sequence of the bytes of its UTF-8 encoding, a number is known
    by its printed form and by whether it is falsy; operations that
    throw in JavaScript return [Throw].  The component's React state
    and refs are one record; message objects live in a store and the
    two logs hold references into it, so that the in-place write of the
    streaming loop is seen through every alias.

    The component is embedded twice.  [sendMessage] and [run] are the
    code run without a break: a send goes from its first line to its
    return with nothing happening while it awaits, and an update of
    the state takes effect where its setter is called, as when React
    renders after every update.  [Page], [occur] and [go] are the code
    as the browser runs it: a send stops at every [await], and the
    user, the timers and other sends act in between; a setter queues
    an update, and React applies the queued updates, running the
    updater functions, when it renders.  What is proved of the first
    is proved of sessions of that kind; what depends on the order in
    which things happen is proved of the second. *)

From Stdlib Require Import String Ascii List ZArith Bool Lia Arith DecimalString.
Import ListNotations.
Local Open Scope string_scope.
Local Open Scope Z_scope.

Local Set Warnings "-register-all".

(** ** Results of code that can throw *)

Module JS.

Definition string_of_Z (n : Z) : string :=
  NilZero.string_of_int (Z.to_int n).

(** A number, by the two things the program does with one: it prints
    it ([String(x)], a template literal, [s += x]) and it tests it for
    truth (zero and NaN are falsy).  Every number of JavaScript is here,
    [1.5], [1e21], [NaN] and [Infinity] included, by its printed form. *)
Record Number := {
  number_text : string;
  number_falsy : bool
}.

(** A dynamically typed value.  A string is the sequence of the bytes
    of its UTF-8 encoding; an object is its list of own properties,
    tagged with whether it is an instance of [Error].  Getters, proxies
    and functions are outside the model. *)
Inductive value : Type :=
| VUndefined
| VNull
| VBool (b : bool)
| VNumber (x : Number)
| VStr (s : string)
| VArr (items : list value)
| VObj (isError : bool) (fields : list (string * value)).

(** The number [n], for an integer of at most 2^53 - 1 in magnitude:
    those are the integers JavaScript holds exactly and prints digit by
    digit. *)
Definition VNum (n : Z) : value :=
  VNumber {| number_text := string_of_Z n; number_falsy := n =? 0 |}.

Inductive result (A : Type) : Type :=
| Ok (a : A)
| Throw (e : value).
Arguments Ok {A} a.
Arguments Throw {A} e.

Definition rbind {A B} (r : result A) (k : A -> result B) : result B :=
  match r with
  | Ok a => k a
  | Throw e => Throw e
  end.

Inductive type_tag := TUndefined | TObject | TBoolean | TNumber | TString.

(** [typeof v] *)
Definition typeof (v : value) : type_tag :=
  match v with
  | VUndefined => TUndefined
  | VNull => TObject
  | VBool _ => TBoolean
  | VNumber _ => TNumber
  | VStr _ => TString
  | VArr _ => TObject
  | VObj _ _ => TObject
  end.

Definition is_string (v : value) : bool :=
  match v with VStr _ => true | _ => false end.

(** ToBoolean: what [if (v)], [!v], [v || w] and [Boolean(v)] test. *)
Definition truthy (v : value) : bool :=
  match v with
  | VUndefined | VNull => false
  | VBool b => b
  | VNumber x => negb (number_falsy x)
  | VStr s => negb (String.eqb s "")
  | VArr _ | VObj _ _ => true
  end.

Definition isArray (v : value) : bool :=
  match v with VArr _ => true | _ => false end.

Definition is_null (v : value) : bool :=
  match v with VNull => true | _ => false end.

Definition type_tag_eqb (a b : type_tag) : bool :=
  match a, b with
  | TUndefined, TUndefined | TObject, TObject | TBoolean, TBoolean
  | TNumber, TNumber | TString, TString => true
  | _, _ => false
  end.

(** [typeof v === t] *)
Definition typeof_is (v : value) (t : type_tag) : bool :=
  type_tag_eqb (typeof v) t.

(** The elements of an array (nothing for any other value). *)
Definition elements (v : value) : list value :=
  match v with VArr items => items | _ => [] end.

Definition instanceofError (v : value) : bool :=
  match v with VObj true _ => true | _ => false end.

Fixpoint lookup_field (k : string) (fields : list (string * value)) : option value :=
  match fields with
  | [] => None
  | (k', v) :: rest => if String.eqb k k' then Some v else lookup_field k rest
  end.

Definition TypeError (msg : string) : value :=
  VObj true [("name", VStr "TypeError"); ("message", VStr msg)].

Definition Error (msg : string) : value :=
  VObj true [("message", VStr msg)].

(** [v.k] for a property name [k] that is not an array index.  Reading
    a property of [undefined] or [null] throws (the message is worded
    as V8 words it); primitives and arrays have none of the properties
    the program reads ([text], [message], [content], [error]); an
    [Error] instance inherits [message] and [name] from its
    prototype. *)
Definition get (v : value) (k : string) : result value :=
  match v with
  | VUndefined | VNull =>
      Throw (TypeError ("Cannot read properties of " ++
                        match v with VUndefined => "undefined" | _ => "null" end ++
                        " (reading '" ++ k ++ "')"))
  | VBool _ | VNumber _ | VStr _ | VArr _ => Ok VUndefined
  | VObj isErr fields =>
      match lookup_field k fields with
      | Some x => Ok x
      | None =>
          if isErr && String.eqb k "message" then Ok (VStr "")
          else if isErr && String.eqb k "name" then Ok (VStr "Error")
          else Ok VUndefined
      end
  end.

(** [v?.k] *)
Definition getOpt (v : value) (k : string) : value :=
  match v with
  | VUndefined | VNull => VUndefined
  | _ => match get v k with Ok x => x | Throw _ => VUndefined end
  end.

(** [a ?? b] *)
Definition nullish (a b : value) : value :=
  match a with
  | VUndefined | VNull => b
  | _ => a
  end.

(** [a || b] *)
Definition or_else (a b : value) : value :=
  if truthy a then a else b.

Definition join (sep : string) (l : list string) : string :=
  String.concat sep l.

(** ToString, as applied by [s += v] on a string [s] and by a template
    literal.  A plain object prints as [[object Object]], an [Error] as
    its name and message (each taken at its default when it is not a
    string), an array as its elements joined by commas. *)
Fixpoint toString (v : value) : string :=
  match v with
  | VUndefined => "undefined"
  | VNull => "null"
  | VBool true => "true"
  | VBool false => "false"
  | VNumber x => number_text x
  | VStr s => s
  | VArr items =>
      join "," (map (fun x => match x with
                              | VUndefined | VNull => ""
                              | _ => toString x
                              end) items)
  | VObj false _ => "[object Object]"
  | VObj true fields =>
      let name := match lookup_field "name" fields with
                  | Some (VStr n) => n
                  | _ => "Error"
                  end in
      let msg := match lookup_field "message" fields with
                 | Some (VStr m) => m
                 | _ => ""
                 end in
      if String.eqb msg "" then name
      else if String.eqb name "" then msg
      else name ++ ": " ++ msg
  end.

(** [k in v] for a name [k] that no built-in prototype defines (the
    program only asks for ['text']).  The operator throws on a
    primitive and on [null]; the message is worded as V8 words it. *)
Definition has_in (k : string) (v : value) : result bool :=
  match v with
  | VObj _ fields =>
      Ok (match lookup_field k fields with Some _ => true | None => false end)
  | VArr _ => Ok false
  | _ => Throw (TypeError ("Cannot use 'in' operator to search for '" ++ k ++ "' in "
                           ++ toString v))
  end.

End JS.

Import JS.

Notation "x <-r c ;; k" := (rbind c (fun x => k))
  (at level 61, c at next level, right associativity).

(** ** Response Normalizer (ChatInterface.tsx, lines 44-74) *)

(** The callback of [message.content.map(...)], lines 56-61. *)
Definition extractItemText (item : value) : result value :=
  if negb (truthy item) then Ok (VStr "")
  else if is_string item then Ok item
  else
    t <-r get item "text" ;;
    if is_string t then Ok t else Ok (VStr "").

Fixpoint mapM_result {A B} (f : A -> result B) (l : list A) : result (list B) :=
  match l with
  | [] => Ok []
  | x :: rest =>
      y <-r f x ;;
      ys <-r mapM_result f rest ;;
      Ok (y :: ys)
  end.

(** [arr.join('')]: [undefined] and [null] elements print as nothing. *)
Definition join_values (sep : string) (l : list value) : string :=
  join sep (map (fun x => match x with
                          | VUndefined | VNull => ""
                          | _ => toString x
                          end) l).

Definition extractResponseText (payload : value) : result value :=
  if negb (truthy payload) then Ok (VStr "")
  else if is_string payload then Ok payload
  else if is_string (getOpt payload "text") then get payload "text"
  else
    pm <-r get payload "message" ;;
    let message := nullish pm payload in
    if is_string message then Ok message
    else if is_string (getOpt message "content") then get message "content"
    else if isArray (getOpt message "content") then
      c <-r get message "content" ;;
      texts <-r mapM_result extractItemText (elements c) ;;
      Ok (VStr (join_values "" texts))
    else
      b <-r (if typeof_is (getOpt message "content") TObject
                && negb (is_null (getOpt message "content"))
             then
               c <-r get message "content" ;;
               has_in "text" c
             else Ok false) ;;
      if b then
        c <-r get message "content" ;;
        t <-r get c "text" ;;
        Ok (nullish t (VStr ""))
      else Ok (VStr "").

(** ** The non-streaming fallback of [sendMessage] (lines 637-651) *)

(** [content[0]?.text] *)
Definition first_text (content : value) : value :=
  getOpt (hd VUndefined (elements content)) "text".

Definition extractContent (response : value) : result value :=
  if negb (truthy (getOpt response "message")) then Ok (VStr "No response.")
  else
    message <-r get response "message" ;;
    if is_string message then Ok message
    else if typeof_is message TObject && negb (is_null message) then
      c <-r get message "content" ;;
      if is_string c then Ok c
      else if isArray c && truthy (first_text c) then
        c0 <-r get (hd VUndefined (elements c)) "text" ;;
        Ok c0
      else
        b <-r (if typeof_is c TObject then has_in "text" c else Ok false) ;;
        if b then get c "text" else Ok (VStr "No response.")
    else Ok (VStr "No response.").

(** ** Strings *)

(** White space as [String.prototype.trim] takes it (the WhiteSpace and
    LineTerminator code points of ECMAScript), by the bytes of the
    UTF-8 encoding: U+0009 to U+000D and U+0020 in one byte, *)
Definition is_space1 (a : ascii) : bool :=
  let n := nat_of_ascii a in
  (((9 <=? n) && (n <=? 13)) || (n =? 32))%nat.

(** U+00A0 in two, *)
Definition is_space2 (a b : ascii) : bool :=
  ((nat_of_ascii a =? 194) && (nat_of_ascii b =? 160))%nat.

(** U+1680, U+2000 to U+200A, U+2028, U+2029, U+202F, U+205F, U+3000
    and U+FEFF in three. *)
Definition is_space3 (a b c : ascii) : bool :=
  let x := nat_of_ascii a in
  let y := nat_of_ascii b in
  let z := nat_of_ascii c in
  (((x =? 225) && (y =? 154) && (z =? 128))
   || ((x =? 226) && (y =? 128)
       && (((128 <=? z) && (z <=? 138)) || (z =? 168) || (z =? 169) || (z =? 175)))
   || ((x =? 226) && (y =? 129) && (z =? 159))
   || ((x =? 227) && (y =? 128) && (z =? 128))
   || ((x =? 239) && (y =? 187) && (z =? 191)))%nat.

(** [s.trimStart()] *)
Fixpoint trimStart (s : string) : string :=
  match s with
  | EmptyString => EmptyString
  | String a rest =>
      if is_space1 a then trimStart rest
      else
        match rest with
        | EmptyString => s
        | String b rest2 =>
            if is_space2 a b then trimStart rest2
            else
              match rest2 with
              | EmptyString => s
              | String c rest3 => if is_space3 a b c then trimStart rest3 else s
              end
        end
  end.

(** Whether [s] is white space throughout. *)
Fixpoint all_space (s : string) : bool :=
  match s with
  | EmptyString => true
  | String a rest =>
      if is_space1 a then all_space rest
      else
        match rest with
        | EmptyString => false
        | String b rest2 =>
            if is_space2 a b then all_space rest2
            else
              match rest2 with
              | EmptyString => false
              | String c rest3 => is_space3 a b c && all_space rest3
              end
        end
  end.

(** [s.trimEnd()]: the text up to the white space it ends with. *)
Fixpoint trimEnd (s : string) : string :=
  match s with
  | EmptyString => EmptyString
  | String a rest => if all_space s then EmptyString else String a (trimEnd rest)
  end.

(** [s.trim()] *)
Definition trim (s : string) : string := trimEnd (trimStart s).

(** A string used as a condition: non-empty. *)
Definition nonempty (s : string) : bool := negb (String.eqb s "").

(** [s.startsWith(p)] *)
Definition startsWith (p s : string) : bool := String.prefix p s.

(** ** Data model (src/types) *)

Record File := {
  file_name : string;
  file_size : Z;
  file_type : string
}.

Record Attachment := {
  att_id : string;
  att_file : option File;
  att_name : string;
  att_size : Z;
  att_type : string;
  att_previewUrl : option string;
  att_isImage : bool;
  att_puterPath : option string;
  att_uploadProgress : option Z;
  att_error : option string
}.

Record AttachmentConfig := {
  maxSize : Z;
  maxCount : Z;
  allowedTypes : list string
}.

Inductive MessagePart :=
| TextPart (text : string)
| FilePart (puter_path : string).

(** [MessageContent = string | MessagePart[]]; [Untyped] holds a value
    that reaches a message through the [any]-typed response without
    being a string. *)
Inductive MessageContent :=
| Text (s : string)
| Parts (parts : list MessagePart)
| Untyped (v : value).

Inductive Role := user | assistant.

Record Message := {
  role : Role;
  content : MessageContent;
  attachments_of : option (list Attachment);
  videoUrl : option string;
  isStreaming : option bool
}.

Inductive StatusType := ready | thinking | error.

(** ** The platform: what the browser supplies *)

Record Platform := {
  (* lines 281-287, floating-point arithmetic: kept abstract *)
  formatFileSize : Z -> string;
  (* [window.crypto.randomUUID()], by the number of values drawn so far *)
  randomUUID : nat -> string;
  (* [URL.createObjectURL(file)] *)
  createObjectURL : nat -> File -> string;
  (* the [Date.now()] and [Math.random()] part of a temporary name *)
  temp_stamp : nat -> string;
  (* [JSON.stringify(v)], which can throw *)
  JSON_stringify : value -> result string
}.

(** ** Attachment Manager: validation and selection (lines 271-356) *)

Definition attachmentConfig : AttachmentConfig := {|
  maxSize := 10 * 1024 * 1024;
  maxCount := 5;
  allowedTypes :=
    ["image/jpeg"; "image/jpg"; "image/png"; "image/gif"; "image/webp"; "image/svg+xml";
     "application/pdf"; "application/msword";
     "application/vnd.openxmlformats-officedocument.wordprocessingml.document";
     "text/plain"; "text/markdown"]
|}.

(** [list.includes(s)] *)
Definition includes (l : list string) (s : string) : bool :=
  existsb (String.eqb s) l.

Section Attachments.

Variable P : Platform.
Variable cfg : AttachmentConfig.

Definition createAttachment (nonce : nat) (file : File) : Attachment :=
  let isImage := startsWith "image/" (file_type file) in
  {| att_id := randomUUID P nonce;
     att_file := Some file;
     att_name := file_name file;
     att_size := file_size file;
     att_type := file_type file;
     att_previewUrl := if isImage then Some (createObjectURL P nonce file) else None;
     att_isImage := isImage;
     att_puterPath := None;
     att_uploadProgress := Some 0;
     att_error := None |}.

Definition validateFile (file : File) (currentCount : nat) : option string :=
  if negb (includes (allowedTypes cfg) (file_type file)) then
    Some ("File type " ++
          (if nonempty (file_type file) then file_type file else "unknown") ++
          " is not supported")
  else if file_size file >? maxSize cfg then
    Some ("File size exceeds " ++ formatFileSize P (maxSize cfg) ++ " limit")
  else if Z.of_nat currentCount >=? maxCount cfg then
    Some ("Maximum " ++ string_of_Z (maxCount cfg) ++ " files allowed")
  else None.

(** The local variables of the updater in [addAttachments]. *)
Record AddLoop := {
  additions : list Attachment;
  errors : list string;
  runningCount : nat
}.

(** One iteration of [for (const file of fileArray)], lines 333-342. *)
Definition addStep (nonce : nat) (st : AddLoop) (file : File) : AddLoop :=
  match validateFile file (runningCount st) with
  | Some err =>
      {| additions := additions st;
         errors := errors st ++ [file_name file ++ ": " ++ err];
         runningCount := runningCount st |}
  | None =>
      {| additions :=
           additions st ++ [createAttachment (nonce + length (additions st)) file];
         errors := errors st;
         runningCount := S (runningCount st) |}
  end.

Definition addLoop (nonce : nat) (files : list File) (st : AddLoop) : AddLoop :=
  fold_left (addStep nonce) files st.

(** The updater passed to [setAttachments], lines 328-353: the new
    collection and the batch of error messages. *)
Definition addAttachments_update (nonce : nat) (files : list File)
    (current : list Attachment) : list Attachment * list string :=
  let st := addLoop nonce files
              {| additions := []; errors := []; runningCount := length current |} in
  (match additions st with
   | [] => current
   | _ => (current ++ additions st)%list
   end, errors st).

End Attachments.

(** ** The SDK (src/types: [PuterSDK], [PuterFS]) *)

Record WebSearchOptions := {
  mode : string;
  max_resources : Z
}.

Record ChatOptions := {
  opt_model : string;
  opt_stream : bool;
  web_search_options : option WebSearchOptions
}.

Record VideoOptions := {
  test_mode : bool;
  input_reference : option File
}.

(** What [puter.ai.chat] resolves to: an async iterable, which yields
    its chunks and then ends or throws, or any other value. *)
Inductive Response :=
| Stream (chunks : list value) (failure : option value)
| Payload (v : value).

Record PuterFS := {
  (* resolves to a handle, of which only [path] is read *)
  fs_write : string -> File -> result string;
  fs_delete : string -> result unit
}.

Record PuterSDK := {
  ai_chat : list Message -> ChatOptions -> result Response;
  (* resolves to a video element, of which only [src] is read *)
  ai_txt2vid : string -> VideoOptions -> result string;
  fs : option PuterFS
}.

(** ** Component state *)

Definition ref := nat.

Record Timer := {
  delay : Z;
  sets_status : StatusType
}.

(** What the component does to the outside, in order. *)
Inductive Obs :=
| ObsStatus (st : StatusType)
| ObsMessages (log : list Message)
| ObsWrite (name : string) (file : File)
| ObsDelete (path : string)
| ObsChat (conversation : list Message) (options : ChatOptions)
| ObsTxt2vid (prompt : string) (options : VideoOptions)
| ObsRevoke (url : string)
| ObsConsole (label : string) (data : value).

Record State := {
  messages : list ref;          (* useState<Message[]>: the display log *)
  input : string;
  status : StatusType;
  conversationRef : list ref;   (* useRef<Message[]>: the API log *)
  attachments : list Attachment;
  sessionFilesRef : list string;  (* Set<string>, in insertion order *)
  store : list Message;         (* the message objects *)
  nonce : nat;                  (* random values drawn so far *)
  timers : list Timer;          (* pending setTimeout callbacks *)
  trace : list Obs
}.

Definition initialState : State := {|
  messages := []; input := ""; status := ready; conversationRef := [];
  attachments := []; sessionFilesRef := []; store := []; nonce := 0%nat;
  timers := []; trace := []
|}.

Definition with_messages (x : list ref) (s : State) : State :=
  {| messages := x; input := input s; status := status s;
     conversationRef := conversationRef s; attachments := attachments s;
     sessionFilesRef := sessionFilesRef s; store := store s; nonce := nonce s;
     timers := timers s; trace := trace s |}.

Definition with_input (x : string) (s : State) : State :=
  {| messages := messages s; input := x; status := status s;
     conversationRef := conversationRef s; attachments := attachments s;
     sessionFilesRef := sessionFilesRef s; store := store s; nonce := nonce s;
     timers := timers s; trace := trace s |}.

Definition with_status (x : StatusType) (s : State) : State :=
  {| messages := messages s; input := input s; status := x;
     conversationRef := conversationRef s; attachments := attachments s;
     sessionFilesRef := sessionFilesRef s; store := store s; nonce := nonce s;
     timers := timers s; trace := trace s |}.

Definition with_conversationRef (x : list ref) (s : State) : State :=
  {| messages := messages s; input := input s; status := status s;
     conversationRef := x; attachments := attachments s;
     sessionFilesRef := sessionFilesRef s; store := store s; nonce := nonce s;
     timers := timers s; trace := trace s |}.

Definition with_attachments (x : list Attachment) (s : State) : State :=
  {| messages := messages s; input := input s; status := status s;
     conversationRef := conversationRef s; attachments := x;
     sessionFilesRef := sessionFilesRef s; store := store s; nonce := nonce s;
     timers := timers s; trace := trace s |}.

Definition with_sessionFilesRef (x : list string) (s : State) : State :=
  {| messages := messages s; input := input s; status := status s;
     conversationRef := conversationRef s; attachments := attachments s;
     sessionFilesRef := x; store := store s; nonce := nonce s;
     timers := timers s; trace := trace s |}.

Definition with_store (x : list Message) (s : State) : State :=
  {| messages := messages s; input := input s; status := status s;
     conversationRef := conversationRef s; attachments := attachments s;
     sessionFilesRef := sessionFilesRef s; store := x; nonce := nonce s;
     timers := timers s; trace := trace s |}.

Definition with_nonce (x : nat) (s : State) : State :=
  {| messages := messages s; input := input s; status := status s;
     conversationRef := conversationRef s; attachments := attachments s;
     sessionFilesRef := sessionFilesRef s; store := store s; nonce := x;
     timers := timers s; trace := trace s |}.

Definition with_timers (x : list Timer) (s : State) : State :=
  {| messages := messages s; input := input s; status := status s;
     conversationRef := conversationRef s; attachments := attachments s;
     sessionFilesRef := sessionFilesRef s; store := store s; nonce := nonce s;
     timers := x; trace := trace s |}.

Definition with_trace (x : list Obs) (s : State) : State :=
  {| messages := messages s; input := input s; status := status s;
     conversationRef := conversationRef s; attachments := attachments s;
     sessionFilesRef := sessionFilesRef s; store := store s; nonce := nonce s;
     timers := timers s; trace := x |}.

(** The message a reference stands for.  A dangling reference (there is
    none in a reachable state) reads as an empty assistant message. *)
Definition blank : Message :=
  {| role := assistant; content := Text ""; attachments_of := None;
     videoUrl := None; isStreaming := None |}.

Definition deref (st : list Message) (r : ref) : Message := nth r st blank.

Definition resolve (st : list Message) (refs : list ref) : list Message :=
  map (deref st) refs.

(** The two logs as the user and the chat API see them. *)
Definition displayLog (s : State) : list Message := resolve (store s) (messages s).
Definition apiLog (s : State) : list Message := resolve (store s) (conversationRef s).

(** [st[r] = m] *)
Fixpoint write (st : list Message) (r : ref) (m : Message) : list Message :=
  match st, r with
  | [], _ => []
  | _ :: rest, O => m :: rest
  | x :: rest, S r' => x :: write rest r' m
  end.

(** ** A monad for code that changes the state and can throw *)

(** Code that runs in a state of type [S]: the component's state here,
    the state of the whole page further down. *)
Definition ST (S A : Type) : Type := S -> result A * S.

Definition M (A : Type) : Type := ST State A.

Definition ret {S A} (a : A) : ST S A := fun s => (Ok a, s).

Definition bind {S A B} (c : ST S A) (k : A -> ST S B) : ST S B :=
  fun s =>
    match c s with
    | (Ok a, s') => k a s'
    | (Throw e, s') => (Throw e, s')
    end.

Definition throw {S A} (e : value) : ST S A := fun s => (Throw e, s).

(** [try { body } catch (e) { handler }]: what [body] did to the state
    before it threw stays done. *)
Definition try_catch {S A} (body : ST S A) (handler : value -> ST S A) : ST S A :=
  fun s =>
    match body s with
    | (Ok a, s') => (Ok a, s')
    | (Throw e, s') => handler e s'
    end.

Definition gets {S A} (f : S -> A) : ST S A := fun s => (Ok (f s), s).
Definition modify {S} (f : S -> S) : ST S unit := fun s => (Ok tt, f s).
Definition lift {S A} (r : result A) : ST S A := fun s => (r, s).

Notation "x <- c ;; k" := (bind c (fun x => k))
  (at level 61, c at next level, right associativity).
Notation "c ;;; k" := (bind c (fun _ => k))
  (at level 61, right associativity).

Definition observe (o : Obs) : M unit :=
  modify (fun s => with_trace (trace s ++ [o]) s).

(** [new] of a message object. *)
Definition alloc (m : Message) : M ref :=
  fun s => (Ok (length (store s)), with_store (store s ++ [m]) s).

Definition setMessages (refs : list ref) : M unit :=
  modify (with_messages refs) ;;;
  log <- gets displayLog ;;
  observe (ObsMessages log).

Definition setStatus (st : StatusType) : M unit :=
  modify (with_status st) ;;;
  observe (ObsStatus st).

Definition setInput (x : string) : M unit := modify (with_input x).

Definition setAttachments (x : list Attachment) : M unit := modify (with_attachments x).

Definition setTimeout (st : StatusType) (ms : Z) : M unit :=
  modify (fun s => with_timers (timers s ++ [{| delay := ms; sets_status := st |}]) s).

(** A fresh index into the platform's random values. *)
Definition draw : M nat :=
  fun s => (Ok (nonce s), with_nonce (S (nonce s)) s).

(** ** Attachment Manager: the stateful operations (lines 79-83, 323-428) *)

Definition is_alnum (c : ascii) : bool :=
  let n := nat_of_ascii c in
  (((48 <=? n) && (n <=? 57)) || ((65 <=? n) && (n <=? 90)) || ((97 <=? n) && (n <=? 122)))%nat.

Fixpoint all_alnum (s : string) : bool :=
  match s with
  | EmptyString => true
  | String c rest => is_alnum c && all_alnum rest
  end.

(** The match of [/(\.[a-zA-Z0-9]+)$/], or nothing. *)
Fixpoint extension (s : string) : string :=
  match s with
  | EmptyString => EmptyString
  | String c rest =>
      if Ascii.eqb c "."%char && nonempty rest && all_alnum rest then s
      else extension rest
  end.

(** [set.add(x)] on a [Set] kept in insertion order. *)
Definition set_add (x : string) (set : list string) : list string :=
  if includes set x then set else (set ++ [x])%list.

Definition sanitizeAttachments (items : list Attachment) : list Attachment :=
  map (fun a =>
         {| att_id := att_id a; att_file := None; att_name := att_name a;
            att_size := att_size a; att_type := att_type a;
            att_previewUrl := att_previewUrl a; att_isImage := att_isImage a;
            att_puterPath := att_puterPath a; att_uploadProgress := None;
            att_error := None |}) items.

(** [Boolean(att.puterPath)] *)
Definition has_puterPath (a : Attachment) : bool :=
  match att_puterPath a with
  | Some p => nonempty p
  | None => false
  end.

Definition puterPath_of (a : Attachment) : string :=
  match att_puterPath a with
  | Some p => p
  | None => ""
  end.

(** [{ ...attachment, file: undefined, puterPath: path }], lines 387-391. *)
Definition uploadedAttachment (attachment : Attachment) (path : string) : Attachment :=
  {| att_id := att_id attachment; att_file := None;
     att_name := att_name attachment; att_size := att_size attachment;
     att_type := att_type attachment;
     att_previewUrl := att_previewUrl attachment;
     att_isImage := att_isImage attachment;
     att_puterPath := Some path;
     att_uploadProgress := att_uploadProgress attachment;
     att_error := att_error attachment |}.

Definition buildUserMessageContent (text : string) (uploaded : list Attachment)
    : MessageContent :=
  match uploaded with
  | [] => Text text
  | _ =>
      let parts := map (fun a => FilePart (puterPath_of a)) (filter has_puterPath uploaded) in
      Parts (if nonempty text then parts ++ [TextPart text] else parts)%list
  end.

Section Component.

Variable P : Platform.
(** [window.puter] *)
Variable puter : option PuterSDK.
(** The [model] prop, of which only the id is read. *)
Variable model_id : string.

Definition puter_fs : option PuterFS :=
  match puter with
  | Some sdk => fs sdk
  | None => None
  end.

Definition generateTempFilename (originalName : string) : M string :=
  n <- draw ;;
  ret ("claude_upload_" ++ temp_stamp P n ++ extension originalName).

Definition addAttachments (files : list File) : M unit :=
  match files with
  | [] => ret tt
  | _ =>
      current <- gets attachments ;;
      n <- gets nonce ;;
      let (next, errs) := addAttachments_update P attachmentConfig n files current in
      modify (with_nonce (n + (length next - length current))) ;;;
      (match errs with
       | [] => ret tt
       | _ => observe (ObsConsole "Attachment errors:" (VArr (map VStr errs)))
       end) ;;;
      setAttachments next
  end.

Definition removeAttachment (id : string) : M unit :=
  prev <- gets attachments ;;
  (match find (fun a => String.eqb (att_id a) id) prev with
   | Some target =>
       match att_previewUrl target with
       | Some url => if nonempty url then observe (ObsRevoke url) else ret tt
       | None => ret tt
       end
   | None => ret tt
   end) ;;;
  setAttachments (filter (fun a => negb (String.eqb (att_id a) id)) prev).

Definition clearAttachments : M unit := setAttachments [].

(** The loop of [uploadAttachments], lines 382-392. *)
Fixpoint uploadLoop (fsys : PuterFS) (files uploaded : list Attachment)
    : M (list Attachment) :=
  match files with
  | [] => ret uploaded
  | attachment :: rest =>
      match att_file attachment with
      | None => uploadLoop fsys rest uploaded
      | Some file =>
          tempName <- generateTempFilename (att_name attachment) ;;
          observe (ObsWrite tempName file) ;;;
          path <- lift (fs_write fsys tempName file) ;;
          modify (fun s => with_sessionFilesRef (set_add path (sessionFilesRef s)) s) ;;;
          uploadLoop fsys rest (uploaded ++ [uploadedAttachment attachment path])%list
      end
  end.

Definition uploadAttachments (files : list Attachment) : M (list Attachment) :=
  match puter_fs with
  | None => throw (Error "File uploads are not supported in this environment.")
  | Some fsys => uploadLoop fsys files []
  end.

(** One deletion of [cleanupSessionFiles], lines 419-425: the failure
    is logged and goes no further. *)
Definition deleteOne (fsys : PuterFS) (path : string) : M unit :=
  observe (ObsDelete path) ;;;
  match fs_delete fsys path with
  | Ok _ => ret tt
  | Throw e => observe (ObsConsole "Failed to delete temp file:" e)
  end.

Fixpoint forEachM {A} (f : A -> M unit) (l : list A) : M unit :=
  match l with
  | [] => ret tt
  | x :: rest => f x ;;; forEachM f rest
  end.

Definition cleanupSessionFiles : M unit :=
  match puter_fs with
  | None => ret tt
  | Some fsys =>
      paths <- gets sessionFilesRef ;;
      forEachM (deleteOne fsys) paths ;;;
      modify (with_sessionFilesRef [])
  end.

(** ** Chat Session Controller: [sendMessage] (lines 500-701) *)

(** The send run without a break: nothing else happens while it awaits
    a promise, and each update of the state is taken where the setter
    is called. *)

(** [l[l.length - 1] = x]: on an empty array the write goes to the
    property [-1] and the array keeps no element. *)
Definition set_last {A} (l : list A) (x : A) : list A :=
  match l with
  | [] => []
  | _ => (removelast l ++ [x])%list
  end.

Definition contentOfValue (v : value) : MessageContent :=
  match v with
  | VStr s => Text s
  | _ => Untyped v
  end.

(** The text of a streamed chunk, line 622. *)
Definition chunkText (part : value) : value :=
  if is_string part then part else or_else (getOpt part "text") (VStr "").

Definition with_content (c : MessageContent) (m : Message) : Message :=
  {| role := role m; content := c; attachments_of := attachments_of m;
     videoUrl := videoUrl m; isStreaming := isStreaming m |}.

Definition is_assistant (m : Message) : bool :=
  match role m with assistant => true | user => false end.

(** The updater of lines 626-633, run where [setMessages] is called,
    when the variable [fullContent] that it reads still has the value
    given here: the last message object of the display log is written
    in place, then a copy of the log is set.  ([streamUpdater] below
    is the updater run when React renders.) *)
Definition showStreamed (fullContent : string) : M unit :=
  prev <- gets messages ;;
  (match rev prev with
   | [] => ret tt
   | r :: _ =>
       st <- gets store ;;
       if is_assistant (deref st r)
       then modify (with_store (write st r (with_content (Text fullContent) (deref st r))))
       else ret tt
   end) ;;;
  setMessages prev.

(** [for await (const part of response)], lines 616-634, with the two
    variables the body updates. *)
Fixpoint streamLoop (chunks : list value) (failure : option value)
    (fullContent : string) (isFirstChunk : bool) : M string :=
  match chunks with
  | [] =>
      match failure with
      | Some e => throw e
      | None => ret fullContent
      end
  | part :: rest =>
      (if isFirstChunk then setStatus ready else ret tt) ;;;
      let fullContent' := fullContent ++ toString (chunkText part) in
      showStreamed fullContent' ;;;
      streamLoop rest failure fullContent' false
  end.

(** The text of the error bubble, lines 675-691. *)
Definition errorText (err : value) : value :=
  if instanceofError err then getOpt err "message"
  else if truthy (getOpt (getOpt err "error") "message")
       then getOpt (getOpt err "error") "message"
  else if truthy (getOpt err "message") then getOpt err "message"
  else if typeof_is err TObject then
    match JSON_stringify P err with
    | Ok j => VStr j
    | Throw _ => VStr "Unknown error object"
    end
  else if typeof_is err TString then err
  else VStr "Failed to get response".

Definition errorMessage (err : value) : Message :=
  {| role := assistant; content := Text ("Error: " ++ toString (errorText err));
     attachments_of := None; videoUrl := None; isStreaming := None |}.

(** The [catch] block, lines 672-700. *)
Definition sendMessage_catch (err : value) : M unit :=
  observe (ObsConsole "Error calling AI:" err) ;;;
  r <- alloc (errorMessage err) ;;
  prev <- gets messages ;;
  setMessages (prev ++ [r]) ;;;
  setStatus error ;;;
  setTimeout ready 3000.

Definition videoPrompt (textToSend : string) (attachmentsToSend : list Attachment) : string :=
  if nonempty textToSend then textToSend
  else match attachmentsToSend with
       | a :: _ =>
           if nonempty (att_name a) then "Video based on " ++ att_name a
           else "Generate a video"
       | [] => "Generate a video"
       end.

Definition videoOptions (attachmentsToSend : list Attachment) : VideoOptions :=
  {| test_mode := true;
     input_reference := match attachmentsToSend with
                        | a :: _ => att_file a
                        | [] => None
                        end |}.

Definition videoMessage (videoUrl : string) : Message :=
  {| role := assistant; content := Text "Here is your generated video:";
     attachments_of := None; videoUrl := Some videoUrl; isStreaming := None |}.

Definition chatOptions : ChatOptions :=
  {| opt_model := model_id;
     opt_stream := true;
     web_search_options :=
       if String.eqb model_id "x-ai/grok-4.1-fast" || startsWith "grok-" model_id
       then Some {| mode := "on"; max_resources := 5 |}
       else None |}.

Definition userMessageForApi (apiContent : MessageContent) : Message :=
  {| role := user; content := apiContent; attachments_of := None;
     videoUrl := None; isStreaming := None |}.

Definition placeholder : Message :=
  {| role := assistant; content := Text ""; attachments_of := None;
     videoUrl := None; isStreaming := Some true |}.

Definition finalMessage (fullContent : value) : Message :=
  {| role := assistant; content := contentOfValue fullContent;
     attachments_of := None; videoUrl := None; isStreaming := None |}.

Definition push_conversation (r : ref) : M unit :=
  modify (fun s => with_conversationRef (conversationRef s ++ [r]) s).

(** Lines 536-562. *)
Definition sendVideo (sdk : PuterSDK) (textToSend : string)
    (attachmentsToSend : list Attachment) : M unit :=
  let prompt := videoPrompt textToSend attachmentsToSend in
  let options := videoOptions attachmentsToSend in
  observe (ObsTxt2vid prompt options) ;;;
  videoUrl <- lift (ai_txt2vid sdk prompt options) ;;
  r <- alloc (videoMessage videoUrl) ;;
  push_conversation r ;;;
  prev <- gets messages ;;
  setMessages (prev ++ [r]) ;;;
  setStatus ready.

(** Lines 611-656: the content the response settles to. *)
Definition consume (response : Response) : M value :=
  match response with
  | Stream chunks failure =>
      fullContent <- streamLoop chunks failure "" true ;;
      ret (VStr fullContent)
  | Payload v =>
      answer <- lift (extractContent v) ;;
      setStatus ready ;;;
      ret answer
  end.

(** Lines 564-570: the upload of the turn's attachments. *)
Definition uploadTurn (attachmentsToSend : list Attachment) : M (list Attachment) :=
  match attachmentsToSend with
  | [] => ret []
  | _ => uploadAttachments attachmentsToSend
  end.

(** Lines 572-597: the API message joins the API log and the chat
    capability is called with the whole log. *)
Definition askModel (sdk : PuterSDK) (textToSend : string)
    (uploadedFiles : list Attachment) : M Response :=
  let apiContent := buildUserMessageContent textToSend uploadedFiles in
  r <- alloc (userMessageForApi apiContent) ;;
  push_conversation r ;;;
  conversation <- gets apiLog ;;
  observe (ObsChat conversation chatOptions) ;;;
  lift (ai_chat sdk conversation chatOptions).

(** Lines 599-609: one empty assistant message object joins both logs. *)
Definition showPlaceholder : M unit :=
  r <- alloc placeholder ;;
  push_conversation r ;;;
  prev <- gets messages ;;
  setMessages (prev ++ [r]) ;;;
  setStatus thinking.

(** Lines 658-670: the settled message replaces the last entry of both
    logs. *)
Definition settle (fullContent : value) : M unit :=
  r <- alloc (finalMessage fullContent) ;;
  modify (fun s => with_conversationRef (set_last (conversationRef s) r) s) ;;;
  prev <- gets messages ;;
  setMessages (set_last prev r).

(** Lines 564-670. *)
Definition sendChat (sdk : PuterSDK) (textToSend : string)
    (attachmentsToSend : list Attachment) : M unit :=
  uploadedFiles <- uploadTurn attachmentsToSend ;;
  response <- askModel sdk textToSend uploadedFiles ;;
  showPlaceholder ;;;
  fullContent <- consume response ;;
  settle fullContent.

(** The [try] block, lines 531-670. *)
Definition sendMessage_try (textToSend : string) (attachmentsToSend : list Attachment)
    : M unit :=
  match puter with
  | None => throw (Error "Puter SDK not loaded")
  | Some sdk =>
      if String.eqb model_id "video-generation"
      then sendVideo sdk textToSend attachmentsToSend
      else sendChat sdk textToSend attachmentsToSend
  end.

(** The guard of line 501: the send is refused. *)
Definition refused (s : State) : bool :=
  match status s with
  | thinking => true
  | _ => negb (nonempty (trim (input s))) && (length (attachments s) =? 0)%nat
  end.

Definition userMessageDisplay (textToSend : string) (displayAttachments : list Attachment)
    : Message :=
  {| role := user;
     content := Text (if nonempty textToSend then textToSend
                      else match displayAttachments with
                           | [] => ""
                           | _ => "[Attachment]"
                           end);
     attachments_of := Some displayAttachments;
     videoUrl := None; isStreaming := None |}.

(** Lines 504-522: the snapshot, the reset of the input area and the
    user's bubble.  [messages] is the log the closure was created with. *)
Definition sendMessage_begin (textToSend : string) (attachmentsToSend : list Attachment)
    : M unit :=
  shown <- gets messages ;;
  setInput "" ;;;
  clearAttachments ;;;
  setStatus thinking ;;;
  r <- alloc (userMessageDisplay textToSend (sanitizeAttachments attachmentsToSend)) ;;
  setMessages (shown ++ [r]).

Definition sendMessage : M unit :=
  fun s =>
    if refused s then (Ok tt, s)
    else
      let textToSend := trim (input s) in
      let attachmentsToSend := attachments s in
      (sendMessage_begin textToSend attachmentsToSend ;;;
       try_catch (sendMessage_try textToSend attachmentsToSend) sendMessage_catch) s.

(** ** Events of a session *)

(** The events of a session in which every send has returned before
    the next event. *)

Inductive Event :=
| Typed (text : string)              (* the input field changes *)
| Selected (files : list File)       (* files are picked, dropped or pasted *)
| Removed (id : string)              (* an attachment is removed *)
| Submitted                          (* Enter or the send button *)
| TimerFired                         (* the oldest pending timer runs *)
| Left.                              (* the back button *)

Definition fireTimer : M unit :=
  pending <- gets timers ;;
  match pending with
  | [] => ret tt
  | t :: rest =>
      modify (with_timers rest) ;;;
      setStatus (sets_status t)
  end.

Definition handle (ev : Event) : M unit :=
  match ev with
  | Typed text => setInput text
  | Selected files => addAttachments files
  | Removed id => removeAttachment id
  | Submitted => sendMessage
  | TimerFired => fireTimer
  | Left => cleanupSessionFiles
  end.

Definition exec {S A} (c : ST S A) (s : S) : S := snd (c s).

Definition run (evs : list Event) (s : State) : State :=
  fold_left (fun s ev => exec (handle ev) s) evs s.

End Component.

(** ** Files of a drag, a drop or a paste (lines 12-27, 430-483) *)

Record DataTransferItem := {
  kind : string;
  getAsFile : option File
}.

(** A [DataTransfer], with the three properties the program reads; each
    can be missing. *)
Record DataTransfer := {
  dt_types : option (list string);
  dt_files : option (list File);
  dt_items : option (list DataTransferItem)
}.

Definition hasFiles (dataTransfer : option DataTransfer) : bool :=
  match dataTransfer with
  | Some dt =>
      match dt_types dt with
      | Some types => includes types "Files"
      | None => false
      end
  | None => false
  end.

Definition filesFromDataTransfer (dataTransfer : option DataTransfer) : list File :=
  match dataTransfer with
  | None => []
  | Some dt =>
      match dt_files dt with
      | Some (f :: files) => f :: files
      | _ =>
          match dt_items dt with
          | Some (i :: items) =>
              flat_map (fun file => match file with Some f => [f] | None => [] end)
                (map getAsFile
                   (filter (fun item => String.eqb (kind item) "file") (i :: items)))
          | _ => []
          end
      end
  end.

(** [isDragging] and [dragCounter], lines 104-105. *)
Record DragState := {
  dragCounter : Z;
  isDragging : bool
}.

Definition handleDragEnter (dataTransfer : option DataTransfer) (d : DragState) : DragState :=
  if negb (hasFiles dataTransfer) then d
  else {| dragCounter := dragCounter d + 1; isDragging := true |}.

(** [dragCounter] in the test of line 443 is the counter the handler was
    created with. *)
Definition handleDragLeave (dataTransfer : option DataTransfer) (d : DragState) : DragState :=
  if negb (hasFiles dataTransfer) then d
  else {| dragCounter := Z.max 0 (dragCounter d - 1);
          isDragging := if dragCounter d <=? 1 then false else isDragging d |}.

Definition handleDragOver (dataTransfer : option DataTransfer) (d : DragState) : DragState := d.

Section Selection.

Variable P : Platform.

(** Lines 455-466: the drag state and the component state after a drop. *)
Definition handleDrop (dataTransfer : option DataTransfer) (d : DragState) (s : State)
    : DragState * State :=
  if negb (hasFiles dataTransfer) then (d, s)
  else
    ({| dragCounter := 0; isDragging := false |},
     match filesFromDataTransfer dataTransfer with
     | [] => s
     | files => exec (addAttachments P files) s
     end).

(** Lines 468-474: whether the default paste was prevented, and the
    state. *)
Definition handlePaste (clipboardData : option DataTransfer) (s : State) : bool * State :=
  match filesFromDataTransfer clipboardData with
  | [] => (false, s)
  | files => (true, exec (addAttachments P files) s)
  end.

(** Lines 476-483, for the files of the input element ([None] when the
    element has no list). *)
Definition handleFileSelect (files : option (list File)) (s : State) : State :=
  match files with
  | Some (f :: rest) => exec (addAttachments P (f :: rest)) s
  | _ => s
  end.

End Selection.

(** ** Text of a message content (lines 29-42) *)

Definition isTextPart (part : MessagePart) : bool :=
  match part with TextPart _ => true | FilePart _ => false end.

Definition part_text (part : MessagePart) : string :=
  match part with TextPart text => text | FilePart _ => "" end.

(** [part.type === 'text'] on an untyped part. *)
Definition isTextValue (part : value) : result bool :=
  t <-r get part "type" ;;
  Ok (match t with VStr "text" => true | _ => false end).

Fixpoint filterM_result {A} (f : A -> result bool) (l : list A) : result (list A) :=
  match l with
  | [] => Ok []
  | x :: rest =>
      b <-r f x ;;
      ys <-r filterM_result f rest ;;
      Ok (if b then x :: ys else ys)
  end.

(** A content that is neither a string nor an array has no [filter]. *)
Definition extractTextFromContent (content : MessageContent) : result string :=
  match content with
  | Text s => Ok s
  | Parts parts =>
      Ok (trim (join (String "010"%char "") (map part_text (filter isTextPart parts))))
  | Untyped (VStr s) => Ok s
  | Untyped (VArr items) =>
      kept <-r filterM_result isTextValue items ;;
      texts <-r mapM_result (fun part => get part "text") kept ;;
      Ok (trim (join_values (String "010"%char "") texts))
  | Untyped _ => Throw (TypeError "content.filter is not a function")
  end.

Definition getMessageText (content : MessageContent) : result string :=
  match content with
  | Text s => Ok s
  | _ => extractTextFromContent content
  end.

(** ** Markdown Renderer (lines 127-161) *)

(** [s.replace(/c/g, rep)] for a one-character pattern. *)
Fixpoint replaceAll (c : ascii) (rep : string) (s : string) : string :=
  match s with
  | EmptyString => EmptyString
  | String x rest =>
      if Ascii.eqb x c then rep ++ replaceAll c rep rest
      else String x (replaceAll c rep rest)
  end.

Definition dquote : ascii := "034"%char.
Definition squote : ascii := "039"%char.
Definition newline : ascii := "010"%char.

(** Lines 134-141. *)
Definition escapeHtml (unsafe : string) : string :=
  replaceAll squote "&#039;"
    (replaceAll dquote "&quot;"
       (replaceAll ">"%char "&gt;"
          (replaceAll "<"%char "&lt;"
             (replaceAll "&"%char "&amp;" unsafe)))).

Definition quoted (s : string) : string :=
  String dquote (s ++ String dquote "").

(** [renderer.code], lines 132-153. *)
Definition renderCode (code language : string) (escaped : bool) : string :=
  let validLanguage := if nonempty language then "language-" ++ language else "" in
  let finalCode := if escaped then code else escapeHtml code in
  String newline
    ("<div class=" ++ quoted "code-block-wrapper relative group" ++ ">" ++ String newline
     ("<div class="
      ++ quoted ("sticky top-0 z-10 flex justify-end px-2 pt-2 h-0 "
                 ++ "overflow-visible pointer-events-none")
      ++ ">" ++ String newline
     ("<button class=" ++ quoted "code-copy-btn pointer-events-auto"
      ++ " type=" ++ quoted "button" ++ ">" ++ String newline
     ("<span class=" ++ quoted "copy-label" ++ ">Copy</span>" ++ String newline
     ("</button>" ++ String newline
     ("</div>" ++ String newline
     ("<pre><code class=" ++ quoted validLanguage ++ ">" ++ finalCode
      ++ "</code></pre>" ++ String newline
      "</div>"))))))).

(** [marked.parse(text, { renderer })], given the code renderer. *)
Definition MarkedParse : Type := (string -> string -> bool -> string) -> string -> string.

(** [DOMPurify.sanitize(html, { ALLOWED_ATTR })], given the attributes. *)
Definition Sanitize : Type := list string -> string -> string.

(** [marked] and [DOMPurify] are [window.marked] and [window.DOMPurify]. *)
Definition renderMarkdown (marked : option MarkedParse) (DOMPurify : option Sanitize)
    (text : string) : string :=
  match marked, DOMPurify with
  | Some parse, Some sanitize =>
      sanitize ["href"; "title"; "target"; "class"] (parse renderCode text)
  | _, _ => replaceAll newline "<br>" text
  end.

(** ** Expanding a long user message (lines 243-269) *)

Inductive ExpandTask :=
| FlipExpanded (index : nat)     (* the callback of line 250, after 50 ms *)
| StopAnimating (index : nat).   (* the callback of line 261, after 400 ms *)

Record ExpandState := {
  expandedMessages : list nat;     (* Set<number>, in insertion order *)
  animatingMessages : list nat;
  expandTimers : list (Z * ExpandTask)
}.

Definition has (set : list nat) (x : nat) : bool := existsb (Nat.eqb x) set.

(** [new Set(prev).add(x)] *)
Definition added (x : nat) (set : list nat) : list nat :=
  if has set x then set else (set ++ [x])%list.

(** [new Set(prev).delete(x)] *)
Definition deleted (x : nat) (set : list nat) : list nat :=
  filter (fun y => negb (Nat.eqb x y)) set.

Definition toggleExpandMessage (index : nat) (e : ExpandState) : ExpandState :=
  {| expandedMessages := expandedMessages e;
     animatingMessages := added index (animatingMessages e);
     expandTimers := (expandTimers e ++ [(50, FlipExpanded index)])%list |}.

Definition runExpandTask (task : ExpandTask) (e : ExpandState) : ExpandState :=
  match task with
  | FlipExpanded index =>
      {| expandedMessages :=
           if has (expandedMessages e) index
           then deleted index (expandedMessages e)
           else added index (expandedMessages e);
         animatingMessages := animatingMessages e;
         expandTimers := (expandTimers e ++ [(400, StopAnimating index)])%list |}
  | StopAnimating index =>
      {| expandedMessages := expandedMessages e;
         animatingMessages := deleted index (animatingMessages e);
         expandTimers := expandTimers e |}
  end.

(** The [i]-th pending timer fires. *)
Definition fireExpandTimer (i : nat) (e : ExpandState) : ExpandState :=
  match nth_error (expandTimers e) i with
  | None => e
  | Some (_, task) =>
      runExpandTask task
        {| expandedMessages := expandedMessages e;
           animatingMessages := animatingMessages e;
           expandTimers := (firstn i (expandTimers e) ++ skipn (S i) (expandTimers e))%list |}
  end.

(** ** Choosing a model (App.tsx) *)

Module App.

Record AIModel := {
  id : string;
  name : string;
  provider : string;
  icon : string;
  description : string;
  category : string
}.

(** The state of [App] and the [model] parameter of the page address. *)
Record AppState := {
  selectedModelId : option string;
  location_model : option string
}.

Inductive View :=
| ShowChat (model : AIModel)
| ShowGrid.

Section Catalog.

(** The catalog of [./models]. *)
Variable models : list AIModel.

Definition findModel (modelId : string) : option AIModel :=
  find (fun m => String.eqb (id m) modelId) models.

(** The effect of lines 9-17, run once when the page opens. *)
Definition openPage (a : AppState) : AppState :=
  match location_model a with
  | Some modelParam =>
      if nonempty modelParam
         && match findModel modelParam with Some _ => true | None => false end
      then {| selectedModelId := Some modelParam; location_model := location_model a |}
      else {| selectedModelId := None; location_model := location_model a |}
  | None => {| selectedModelId := None; location_model := location_model a |}
  end.

Definition handleSelectModel (modelId : string) (a : AppState) : AppState :=
  {| selectedModelId := Some modelId; location_model := Some modelId |}.

Definition handleBack (a : AppState) : AppState :=
  {| selectedModelId := None; location_model := None |}.

(** Lines 31-37. *)
Definition view (a : AppState) : View :=
  match selectedModelId a with
  | Some modelId =>
      match findModel modelId with
      | Some model => ShowChat model
      | None => ShowGrid
      end
  | None => ShowGrid
  end.

End Catalog.

End App.

(** ** The component as React runs it: sends that overlap, updates
       that wait for a render

    [sendMessage] above is a send run from its first line to its
    return, each update of the state applied where it is made: the way
    the code runs when nothing happens while the send awaits and React
    renders after every update.  This part has the other ways.  A send
    stops at each [await] and goes on when the awaited promise settles;
    until then the user, a timer or another send can act.  A call of a
    state setter queues an update; React applies the queued updates, in
    the order in which they were queued, when it renders, and an updater
    function runs then.  React renders at the end of every event of the
    user in which an update was queued, and otherwise when it chooses
    to: after each update made outside an event handler, or after
    several of them (the batching of React 18).  The Back button
    unmounts the component and ends the session. *)

(** An update of the component's state that React has queued. *)
Inductive Update :=
| SetInput (x : string)                 (* lines 508, 938 *)
| SetAttachments (x : list Attachment)  (* line 369 *)
| AddFiles (files : list File)          (* the updater of lines 328-353 *)
| RemoveFile (id : string)              (* the updater of lines 359-365 *)
| SetStatus (st : StatusType)
| SetMessages (refs : list ref)         (* line 522 *)
| AppendMessage (r : ref)               (* lines 559, 608, 697 *)
| StreamInto (cell : nat)               (* the updater of lines 626-633 *)
| ReplaceLast (r : ref).                (* the updater of lines 666-670 *)

(** A send that has stopped at an [await], with the local variables it
    goes on with and what the awaited promise settles to. *)
Inductive Flight :=
| AwaitVideo (settled : result string)                       (* line 548 *)
| AwaitWrite (textToSend : string) (attachment : Attachment)
    (settled : result string) (rest uploaded : list Attachment)   (* line 385 *)
| AwaitUpload (textToSend : string)
    (settled : result (list Attachment))                     (* line 569 *)
| AwaitChat (settled : result Response)                      (* line 597 *)
| AwaitChunk (cell : nat) (chunks : list value)
    (failure : option value) (isFirstChunk : bool).          (* line 616 *)

Record Page := {
  component : State;       (* the state as rendered, the refs, the objects *)
  queue : list Update;     (* the updates React has not applied yet *)
  cells : list value;      (* the variables [fullContent] of the sends so far *)
  flights : list Flight    (* the sends that have stopped at an [await] *)
}.

Definition initialPage : Page :=
  {| component := initialState; queue := []; cells := []; flights := [] |}.

Definition with_component (x : State) (p : Page) : Page :=
  {| component := x; queue := queue p; cells := cells p; flights := flights p |}.

Definition with_queue (x : list Update) (p : Page) : Page :=
  {| component := component p; queue := x; cells := cells p; flights := flights p |}.

Definition with_cells (x : list value) (p : Page) : Page :=
  {| component := component p; queue := queue p; cells := x; flights := flights p |}.

Definition with_flights (x : list Flight) (p : Page) : Page :=
  {| component := component p; queue := queue p; cells := cells p; flights := x |}.

Definition PM (A : Type) : Type := ST Page A.

(** Code of the component that needs neither the queue nor a send's
    variables. *)
Definition inComponent {A} (c : M A) : PM A :=
  fun p => let (r, s) := c (component p) in (r, with_component s p).

Definition enqueue (u : Update) : PM unit :=
  modify (fun p => with_queue (queue p ++ [u]) p).

(** [let fullContent = ...] *)
Definition newCell (v : value) : PM nat :=
  fun p => (Ok (length (cells p)), with_cells (cells p ++ [v]) p).

Definition readCell (cell : nat) : PM value :=
  gets (fun p => nth cell (cells p) VUndefined).

Fixpoint assign {A} (l : list A) (i : nat) (x : A) : list A :=
  match l, i with
  | [], _ => []
  | _ :: rest, O => x :: rest
  | y :: rest, S i' => y :: assign rest i' x
  end.

Definition writeCell (cell : nat) (v : value) : PM unit :=
  modify (fun p => with_cells (assign (cells p) cell v) p).

(** The updater of lines 626-633, run with the value [fullContent] has
    when React runs it: the last message object of the display log is
    written in place if it is an assistant's. *)
Definition streamUpdater (fullContent : value) : M unit :=
  prev <- gets messages ;;
  match rev prev with
  | [] => ret tt
  | r :: _ =>
      st <- gets store ;;
      if is_assistant (deref st r)
      then modify (with_store (write st r (with_content (contentOfValue fullContent)
                                             (deref st r))))
      else ret tt
  end.

Section Page.

Variable P : Platform.
Variable puter : option PuterSDK.
Variable model_id : string.

(** React applies one queued update. *)
Definition applyUpdate (u : Update) : PM unit :=
  match u with
  | SetInput x => inComponent (setInput x)
  | SetAttachments x => inComponent (setAttachments x)
  | AddFiles files => inComponent (addAttachments P files)
  | RemoveFile id => inComponent (removeAttachment id)
  | SetStatus st => inComponent (modify (with_status st))
  | SetMessages refs => inComponent (modify (with_messages refs))
  | AppendMessage r =>
      inComponent (modify (fun s => with_messages (messages s ++ [r]) s))
  | StreamInto cell =>
      fullContent <- readCell cell ;;
      inComponent (streamUpdater fullContent)
  | ReplaceLast r =>
      inComponent (modify (fun s => with_messages (set_last (messages s) r) s))
  end.

Fixpoint applyAll (us : list Update) : PM unit :=
  match us with
  | [] => ret tt
  | u :: rest => applyUpdate u ;;; applyAll rest
  end.

(** React renders: the queued updates are applied in order. *)
Definition render : PM unit :=
  us <- gets queue ;;
  modify (with_queue []) ;;;
  applyAll us.

(** What a send does next: it stops at an [await], or it has
    returned. *)
Definition Next : Type := option Flight.

(** [window.puter], where the code reads a property of it. *)
Definition window_puter (property : string) : PM PuterSDK :=
  match puter with
  | Some sdk => ret sdk
  | None => throw (TypeError ("Cannot read properties of undefined (reading '"
                              ++ property ++ "')"))
  end.

(** Lines 572-597: the API message joins the API log and the chat
    capability is called with the whole log. *)
Definition askChat (textToSend : string) (uploadedFiles : list Attachment) : PM Next :=
  let apiContent := buildUserMessageContent textToSend uploadedFiles in
  r <- inComponent (alloc (userMessageForApi apiContent)) ;;
  inComponent (push_conversation r) ;;;
  sdk <- window_puter "ai" ;;
  conversation <- inComponent (gets apiLog) ;;
  inComponent (observe (ObsChat conversation (chatOptions model_id))) ;;;
  ret (Some (AwaitChat (ai_chat sdk conversation (chatOptions model_id)))).

(** The loop of [uploadAttachments] (lines 382-394) up to its next
    [await], or to its return. *)
Fixpoint uploadFrom (textToSend : string) (files uploaded : list Attachment) : PM Next :=
  match files with
  | [] => ret (Some (AwaitUpload textToSend (Ok uploaded)))
  | attachment :: rest =>
      match att_file attachment with
      | None => uploadFrom textToSend rest uploaded
      | Some file =>
          tempName <- inComponent (generateTempFilename P (att_name attachment)) ;;
          match puter_fs puter with
          | None =>
              ret (Some (AwaitUpload textToSend
                           (Throw (TypeError
                                     "Cannot read properties of undefined (reading 'write')"))))
          | Some fsys =>
              inComponent (observe (ObsWrite tempName file)) ;;;
              ret (Some (AwaitWrite textToSend attachment (fs_write fsys tempName file)
                           rest uploaded))
          end
      end
  end.

(** The call of [uploadAttachments] (lines 375-396): an async function,
    so what it throws is what its promise settles to. *)
Definition callUpload (textToSend : string) (files : list Attachment) : PM Next :=
  match puter_fs puter with
  | None =>
      ret (Some (AwaitUpload textToSend
                   (Throw (Error "File uploads are not supported in this environment."))))
  | Some _ => uploadFrom textToSend files []
  end.

(** Lines 531-597: the [try] block up to its first [await]. *)
Definition start (textToSend : string) (attachmentsToSend : list Attachment) : PM Next :=
  match puter with
  | None => throw (Error "Puter SDK not loaded")
  | Some sdk =>
      if String.eqb model_id "video-generation" then
        let prompt := videoPrompt textToSend attachmentsToSend in
        let options := videoOptions attachmentsToSend in
        inComponent (observe (ObsTxt2vid prompt options)) ;;;
        ret (Some (AwaitVideo (ai_txt2vid sdk prompt options)))
      else
        match attachmentsToSend with
        | [] => askChat textToSend []
        | _ => callUpload textToSend attachmentsToSend
        end
  end.

(** Lines 658-670: the settled message replaces the last entry of the
    API log at once and that of the display log when React renders. *)
Definition finish (cell : nat) : PM Next :=
  fullContent <- readCell cell ;;
  r <- inComponent (alloc (finalMessage fullContent)) ;;
  inComponent (modify (fun s => with_conversationRef (set_last (conversationRef s) r) s)) ;;;
  enqueue (ReplaceLast r) ;;;
  ret None.

(** The send goes on after the [await] it had stopped at. *)
Definition resume (f : Flight) : PM Next :=
  match f with
  | AwaitVideo settled =>                                   (* lines 548-561 *)
      videoUrl <- lift settled ;;
      r <- inComponent (alloc (videoMessage videoUrl)) ;;
      inComponent (push_conversation r) ;;;
      enqueue (AppendMessage r) ;;;
      enqueue (SetStatus ready) ;;;
      ret None
  | AwaitWrite textToSend attachment settled rest uploaded =>   (* lines 385-392 *)
      match settled with
      | Throw e => ret (Some (AwaitUpload textToSend (Throw e)))
      | Ok path =>
          inComponent
            (modify (fun s => with_sessionFilesRef (set_add path (sessionFilesRef s)) s)) ;;;
          uploadFrom textToSend rest (uploaded ++ [uploadedAttachment attachment path])%list
      end
  | AwaitUpload textToSend settled =>                       (* lines 569-597 *)
      uploadedFiles <- lift settled ;;
      askChat textToSend uploadedFiles
  | AwaitChat settled =>                                    (* lines 597-656 *)
      response <- lift settled ;;
      r <- inComponent (alloc placeholder) ;;
      inComponent (push_conversation r) ;;;
      enqueue (AppendMessage r) ;;;
      enqueue (SetStatus thinking) ;;;
      cell <- newCell (VStr "") ;;
      match response with
      | Stream chunks failure => ret (Some (AwaitChunk cell chunks failure true))
      | Payload v =>
          answer <- lift (extractContent v) ;;
          writeCell cell answer ;;;
          enqueue (SetStatus ready) ;;;
          finish cell
      end
  | AwaitChunk cell chunks failure isFirstChunk =>          (* lines 616-634 *)
      match chunks with
      | [] =>
          match failure with
          | Some e => throw e
          | None => finish cell
          end
      | part :: rest =>
          (if isFirstChunk then enqueue (SetStatus ready) else ret tt) ;;;
          fullContent <- readCell cell ;;
          writeCell cell (VStr (toString fullContent ++ toString (chunkText part))) ;;;
          enqueue (StreamInto cell) ;;;
          ret (Some (AwaitChunk cell rest failure false))
      end
  end.

(** The [catch] block, lines 672-700. *)
Definition catchError (err : value) : PM Next :=
  inComponent (observe (ObsConsole "Error calling AI:" err)) ;;;
  r <- inComponent (alloc (errorMessage P err)) ;;
  enqueue (AppendMessage r) ;;;
  enqueue (SetStatus error) ;;;
  inComponent (setTimeout ready 3000) ;;;
  ret None.

(** Lines 500-597: [sendMessage] from the guard to its first [await],
    in the state the handler was rendered with. *)
Definition submit : PM Next :=
  s <- gets component ;;
  let textToSend := trim (input s) in
  let attachmentsToSend := attachments s in
  enqueue (SetInput "") ;;;
  enqueue (SetAttachments []) ;;;
  enqueue (SetStatus thinking) ;;;
  r <- inComponent (alloc (userMessageDisplay textToSend
                             (sanitizeAttachments attachmentsToSend))) ;;
  enqueue (SetMessages (messages s ++ [r])) ;;;
  try_catch (start textToSend attachmentsToSend) catchError.

(** The send joins those in flight if it has stopped. *)
Definition park (next : Next) : PM unit :=
  match next with
  | Some f => modify (fun p => with_flights (flights p ++ [f]) p)
  | None => ret tt
  end.

(** The flight at position [i] is taken up again; it keeps its place
    if the send stops once more. *)
Definition settle_flight (i : nat) (f : Flight) : PM unit :=
  modify (fun p => with_flights (firstn i (flights p) ++ skipn (S i) (flights p)) p) ;;;
  next <- try_catch (resume f) catchError ;;
  match next with
  | Some f' =>
      modify (fun p => with_flights (firstn i (flights p) ++ f' :: skipn i (flights p)) p)
  | None => ret tt
  end.

(** The callback of the oldest pending timer runs (line 699). *)
Definition timerFires : PM unit :=
  pending <- inComponent (gets timers) ;;
  match pending with
  | [] => ret tt
  | t :: rest =>
      inComponent (modify (with_timers rest)) ;;;
      enqueue (SetStatus (sets_status t))
  end.

(** What can happen on the page. *)
Inductive Occurrence :=
| Types (text : string)              (* the input field changes *)
| Selects (files : list File)        (* files are picked, dropped or pasted *)
| Removes (id : string)              (* an attachment is removed *)
| Submits                            (* Enter or the send button *)
| TimerFires                         (* the oldest pending timer runs *)
| Renders                            (* React renders *)
| Settles (i : nat).                 (* the promise the i-th flight awaits settles *)

Definition occur (o : Occurrence) (p : Page) : Page :=
  match o with
  | Types text => exec (enqueue (SetInput text) ;;; render) p
  | Selects files =>
      match files with
      | [] => p
      | _ => exec (enqueue (AddFiles files) ;;; render) p
      end
  | Removes id => exec (enqueue (RemoveFile id) ;;; render) p
  | Submits =>
      if refused (component p) then p
      else exec (next <- submit ;; park next ;;; render) p
  | TimerFires => exec timerFires p
  | Renders => exec render p
  | Settles i =>
      match nth_error (flights p) i with
      | Some f => exec (settle_flight i f) p
      | None => p
      end
  end.

Definition go (occs : list Occurrence) (p : Page) : Page :=
  fold_left (fun p o => occur o p) occs p.

End Page.

(** ** Test doubles *)

Module Fixtures.

Definition platform : Platform := {|
  formatFileSize := fun _ => "10 MB";
  randomUUID := fun n => "att-" ++ string_of_Z (Z.of_nat n);
  createObjectURL := fun n _ => "blob:" ++ string_of_Z (Z.of_nat n);
  temp_stamp := fun n => "1700000000000_r" ++ string_of_Z (Z.of_nat n);
  JSON_stringify := fun _ => Ok "{}"
|}.

(** Storage that keeps every file under [/tmp]. *)
Definition storage : PuterFS := {|
  fs_write := fun name _ => Ok ("/tmp/" ++ name);
  fs_delete := fun _ => Ok tt
|}.

(** Storage whose deletions all fail. *)
Definition stubborn_storage : PuterFS := {|
  fs_write := fun name _ => Ok ("/tmp/" ++ name);
  fs_delete := fun path => Throw (Error ("cannot delete " ++ path))
|}.

(** Storage that answers every write with an empty path. *)
Definition pathless_storage : PuterFS := {|
  fs_write := fun _ _ => Ok "";
  fs_delete := fun _ => Ok tt
|}.

(** An SDK whose chat call always settles the same way. *)
Definition sdk_with (fsys : PuterFS) (answer : result Response) : PuterSDK := {|
  ai_chat := fun _ _ => answer;
  ai_txt2vid := fun _ _ => Ok "blob:video";
  fs := Some fsys
|}.

Definition sdk (answer : result Response) : PuterSDK := sdk_with storage answer.

Definition hello : Response := Stream [VStr "Hel"; VStr "lo, "; VStr "world"] None.

Definition typed (text : string) : State := with_input text initialState.


Definition png : File :=
  {| file_name := "cat.png"; file_size := 2048; file_type := "image/png" |}.

Definition zip : File :=
  {| file_name := "all.zip"; file_size := 2048; file_type := "application/zip" |}.

Definition huge : File :=
  {| file_name := "huge.pdf"; file_size := 11 * 1024 * 1024; file_type := "application/pdf" |}.

Definition two_parts : value :=
  VObj false [("message", VObj false [("content",
    VArr [VObj false [("text", VStr "Hello, ")]; VObj false [("text", VStr "world")]])])].

End Fixtures.

(** * Specification vocabulary *)

(** ** Reading the trace and the logs *)

(** The display logs that were set, in order. *)
Definition shown (tr : list Obs) : list (list Message) :=
  flat_map (fun o => match o with ObsMessages log => [log] | _ => [] end) tr.

(** The statuses that were set, in order. *)
Definition statuses (tr : list Obs) : list StatusType :=
  flat_map (fun o => match o with ObsStatus st => [st] | _ => [] end) tr.

(** The paths whose deletion was attempted, in order. *)
Definition deletions (tr : list Obs) : list string :=
  flat_map (fun o => match o with ObsDelete path => [path] | _ => [] end) tr.

(** The calls of the chat, video and write capabilities. *)
Definition calls (tr : list Obs) : list Obs :=
  filter (fun o => match o with
                   | ObsChat _ _ | ObsTxt2vid _ _ | ObsWrite _ _ => true
                   | _ => false
                   end) tr.

(** The content of the last message of a log. *)
Definition lastContent (log : list Message) : option MessageContent :=
  match rev log with
  | [] => None
  | m :: _ => Some (content m)
  end.

(** The paths of the file-reference parts of a content, in order. *)
Definition file_paths (c : MessageContent) : list string :=
  match c with
  | Parts parts =>
      flat_map (fun p => match p with FilePart path => [path] | TextPart _ => [] end) parts
  | _ => []
  end.

(** ** Values, uploads, the store *)

Definition nullish_value (v : value) : bool :=
  match v with VUndefined | VNull => true | _ => false end.

Definition has_file (a : Attachment) : bool :=
  match att_file a with Some _ => true | None => false end.

(** [u] is [a] after its file was written under some name and the
    storage answered with [u]'s path. *)
Definition uploaded_from (fsys : PuterFS) (a u : Attachment) : Prop :=
  exists file tempName path,
    att_file a = Some file
    /\ fs_write fsys tempName file = Ok path
    /\ u = uploadedAttachment a path.


(** References that point into a store. *)
Definition valid (st : list Message) (refs : list ref) : Prop :=
  Forall (fun r => (r < length st)%nat) refs.

(** Every reference of the two logs points into the store. *)
Definition wf (s : State) : Prop :=
  valid (store s) (messages s) /\ valid (store s) (conversationRef s).

(** Paths are recorded only where the storage capability is there. *)
Definition recorded_with_storage (puter : option PuterSDK) (s : State) : Prop :=
  puter_fs puter = None -> sessionFilesRef s = [].

(** ** Streaming *)

(** The texts of the chunks, one after the other. *)
Definition texts (chunks : list value) : string :=
  String.concat "" (map (fun part => toString (chunkText part)) chunks).

(** The state in which the loop of a stream starts or continues: the
    display log ends with a reference to an assistant message. *)
Definition streaming (s : State) (ms : list ref) (r : ref) : Prop :=
  messages s = (ms ++ [r])%list
  /\ (r < length (store s))%nat
  /\ is_assistant (deref (store s) r) = true.

(** What the loop has done when it leaves [s1] after the chunks, having
    started in [s] with the buffer [full] and the message [r] to fill. *)
Record stream_post (s s1 : State) (r : ref) (full : string) (chunks : list value)
    (first : bool) : Prop := {
  sp_messages : messages s1 = messages s;
  sp_conversation : conversationRef s1 = conversationRef s;
  sp_timers : timers s1 = timers s;
  sp_input : input s1 = input s;
  sp_attachments : attachments s1 = attachments s;
  sp_session : sessionFilesRef s1 = sessionFilesRef s;
  sp_store :
    store s1 = match chunks with
               | [] => store s
               | _ => write (store s) r
                        (with_content (Text (full ++ texts chunks)) (deref (store s) r))
               end;
  sp_status :
    status s1 = match chunks with
                | [] => status s
                | _ => if first then ready else status s
                end;
  sp_shown :
    map lastContent (shown (trace s1))
    = (map lastContent (shown (trace s))
       ++ map (fun k => Some (Text (full ++ texts (firstn k chunks))))
            (seq 1 (length chunks)))%list;
  sp_statuses :
    statuses (trace s1)
    = (statuses (trace s)
       ++ match chunks with
          | [] => []
          | _ => if first then [ready] else []
          end)%list;
  sp_calls : calls (trace s1) = calls (trace s)
}.

(** ** The parts of a turn *)

Definition is_write (o : Obs) : Prop :=
  match o with ObsWrite _ _ => True | _ => False end.

(** What an upload leaves as it is: all but the session file set, the
    random values drawn and the trace, which it extends by writes. *)
Record upload_frame (s s1 : State) : Prop := {
  up_messages : messages s1 = messages s;
  up_input : input s1 = input s;
  up_status : status s1 = status s;
  up_conversation : conversationRef s1 = conversationRef s;
  up_attachments : attachments s1 = attachments s;
  up_store : store s1 = store s;
  up_timers : timers s1 = timers s;
  up_trace : exists ws, trace s1 = (trace s ++ ws)%list /\ Forall is_write ws
}.

Definition began (textToSend : string) (attachmentsToSend : list Attachment) (s : State)
    : State :=
  let st := (store s
             ++ [userMessageDisplay textToSend
                   (sanitizeAttachments attachmentsToSend)])%list in
  let ms := (messages s ++ [length (store s)])%list in
  {| messages := ms; input := ""; status := thinking;
     conversationRef := conversationRef s; attachments := [];
     sessionFilesRef := sessionFilesRef s; store := st; nonce := nonce s;
     timers := timers s;
     trace := ((trace s ++ [ObsStatus thinking]) ++ [ObsMessages (resolve st ms)])%list |}.

Definition asked (model_id : string) (apiContent : MessageContent) (s : State) : State :=
  let st := (store s ++ [userMessageForApi apiContent])%list in
  let conv := (conversationRef s ++ [length (store s)])%list in
  {| messages := messages s; input := input s; status := status s;
     conversationRef := conv; attachments := attachments s;
     sessionFilesRef := sessionFilesRef s; store := st; nonce := nonce s;
     timers := timers s;
     trace := (trace s ++ [ObsChat (resolve st conv) (chatOptions model_id)])%list |}.

Definition placed (s : State) : State :=
  let st := (store s ++ [placeholder])%list in
  let ms := (messages s ++ [length (store s)])%list in
  {| messages := ms; input := input s; status := thinking;
     conversationRef := (conversationRef s ++ [length (store s)])%list;
     attachments := attachments s;
     sessionFilesRef := sessionFilesRef s; store := st; nonce := nonce s;
     timers := timers s;
     trace := ((trace s ++ [ObsMessages (resolve st ms)]) ++ [ObsStatus thinking])%list |}.

Definition settled (fullContent : value) (s : State) : State :=
  let st := (store s ++ [finalMessage fullContent])%list in
  let ms := set_last (messages s) (length (store s)) in
  {| messages := ms; input := input s; status := status s;
     conversationRef := set_last (conversationRef s) (length (store s));
     attachments := attachments s;
     sessionFilesRef := sessionFilesRef s; store := st; nonce := nonce s;
     timers := timers s;
     trace := (trace s ++ [ObsMessages (resolve st ms)])%list |}.

Definition failed (P : Platform) (err : value) (s : State) : State :=
  let st := (store s ++ [errorMessage P err])%list in
  let ms := (messages s ++ [length (store s)])%list in
  {| messages := ms; input := input s; status := error;
     conversationRef := conversationRef s;
     attachments := attachments s;
     sessionFilesRef := sessionFilesRef s; store := st; nonce := nonce s;
     timers := (timers s ++ [{| delay := 3000; sets_status := ready |}])%list;
     trace := (((trace s ++ [ObsConsole "Error calling AI:" err])
                ++ [ObsMessages (resolve st ms)]) ++ [ObsStatus error])%list |}.

Definition videoed (videoUrl : string) (s : State) : State :=
  let st := (store s ++ [videoMessage videoUrl])%list in
  let ms := (messages s ++ [length (store s)])%list in
  {| messages := ms; input := input s; status := ready;
     conversationRef := (conversationRef s ++ [length (store s)])%list;
     attachments := attachments s;
     sessionFilesRef := sessionFilesRef s; store := st; nonce := nonce s;
     timers := timers s;
     trace := ((trace s ++ [ObsMessages (resolve st ms)]) ++ [ObsStatus ready])%list |}.

Section Turn.

Variable P : Platform.
Variable puter : option PuterSDK.
Variable model_id : string.
Variable textToSend : string.
Variable attachmentsToSend : list Attachment.

(** The ways the [try] block of a turn can end, from the state [s0] in
    which it starts. *)
Inductive outcome (s0 : State) : result unit -> State -> Prop :=
| NoSdk :
    puter = None ->
    outcome s0 (Throw (Error "Puter SDK not loaded")) s0
| VideoFailed sdk e :
    puter = Some sdk ->
    String.eqb model_id "video-generation" = true ->
    ai_txt2vid sdk (videoPrompt textToSend attachmentsToSend)
      (videoOptions attachmentsToSend) = Throw e ->
    outcome s0 (Throw e)
      (with_trace (trace s0 ++ [ObsTxt2vid (videoPrompt textToSend attachmentsToSend)
                                  (videoOptions attachmentsToSend)]) s0)
| VideoMade sdk videoUrl :
    puter = Some sdk ->
    String.eqb model_id "video-generation" = true ->
    ai_txt2vid sdk (videoPrompt textToSend attachmentsToSend)
      (videoOptions attachmentsToSend) = Ok videoUrl ->
    outcome s0 (Ok tt)
      (videoed videoUrl
         (with_trace (trace s0 ++ [ObsTxt2vid (videoPrompt textToSend attachmentsToSend)
                                     (videoOptions attachmentsToSend)]) s0))
| UploadFailed sdk e s1 :
    puter = Some sdk ->
    String.eqb model_id "video-generation" = false ->
    uploadTurn P puter attachmentsToSend s0 = (Throw e, s1) ->
    outcome s0 (Throw e) s1
| ChatFailed sdk uploaded s1 e :
    puter = Some sdk ->
    String.eqb model_id "video-generation" = false ->
    uploadTurn P puter attachmentsToSend s0 = (Ok uploaded, s1) ->
    let s2 := asked model_id (buildUserMessageContent textToSend uploaded) s1 in
    ai_chat sdk (apiLog s2) (chatOptions model_id) = Throw e ->
    outcome s0 (Throw e) s2
| StreamFailed sdk uploaded s1 chunks e s4 :
    puter = Some sdk ->
    String.eqb model_id "video-generation" = false ->
    uploadTurn P puter attachmentsToSend s0 = (Ok uploaded, s1) ->
    let s2 := asked model_id (buildUserMessageContent textToSend uploaded) s1 in
    ai_chat sdk (apiLog s2) (chatOptions model_id) = Ok (Stream chunks (Some e)) ->
    streamLoop chunks (Some e) "" true (placed s2) = (Throw e, s4) ->
    outcome s0 (Throw e) s4
| FallbackFailed sdk uploaded s1 v e :
    puter = Some sdk ->
    String.eqb model_id "video-generation" = false ->
    uploadTurn P puter attachmentsToSend s0 = (Ok uploaded, s1) ->
    let s2 := asked model_id (buildUserMessageContent textToSend uploaded) s1 in
    ai_chat sdk (apiLog s2) (chatOptions model_id) = Ok (Payload v) ->
    extractContent v = Throw e ->
    outcome s0 (Throw e) (placed s2)
| Streamed sdk uploaded s1 chunks fullContent s4 :
    puter = Some sdk ->
    String.eqb model_id "video-generation" = false ->
    uploadTurn P puter attachmentsToSend s0 = (Ok uploaded, s1) ->
    let s2 := asked model_id (buildUserMessageContent textToSend uploaded) s1 in
    ai_chat sdk (apiLog s2) (chatOptions model_id) = Ok (Stream chunks None) ->
    streamLoop chunks None "" true (placed s2) = (Ok fullContent, s4) ->
    outcome s0 (Ok tt) (settled (VStr fullContent) s4)
| Answered sdk uploaded s1 v answer :
    puter = Some sdk ->
    String.eqb model_id "video-generation" = false ->
    uploadTurn P puter attachmentsToSend s0 = (Ok uploaded, s1) ->
    let s2 := asked model_id (buildUserMessageContent textToSend uploaded) s1 in
    ai_chat sdk (apiLog s2) (chatOptions model_id) = Ok (Payload v) ->
    extractContent v = Ok answer ->
    outcome s0 (Ok tt)
      (settled answer
         (with_trace (trace (placed s2) ++ [ObsStatus ready])
            (with_status ready (placed s2)))).

End Turn.

(** How far the two logs had grown when a turn failed: by the user's
    bubble only, by the user message of the API log as well, or by the
    placeholder in both logs on top of that. *)
Inductive stopped (s s1 : State) (shownUser : Message) : Prop :=
| BeforeAsking :
    apiLog s1 = apiLog s ->
    displayLog s1 = (displayLog s ++ [shownUser])%list ->
    stopped s s1 shownUser
| WhileAsking apiContent :
    apiLog s1 = (apiLog s ++ [userMessageForApi apiContent])%list ->
    displayLog s1 = (displayLog s ++ [shownUser])%list ->
    stopped s s1 shownUser
| WhileAnswering apiContent partial :
    apiLog s1 = (apiLog s ++ [userMessageForApi apiContent;
                              with_content (Text partial) placeholder])%list ->
    displayLog s1 = (displayLog s ++ [shownUser;
                                      with_content (Text partial) placeholder])%list ->
    stopped s s1 shownUser.

(** What a completed turn adds to the two logs. *)
Inductive completed (model : string) (s s' : State) (shownUser : Message) : Prop :=
| VideoTurn videoUrl :
    String.eqb model "video-generation" = true ->
    displayLog s' = (displayLog s ++ [shownUser; videoMessage videoUrl])%list ->
    apiLog s' = (apiLog s ++ [videoMessage videoUrl])%list ->
    completed model s s' shownUser
| ChatTurn apiContent fullContent :
    String.eqb model "video-generation" = false ->
    displayLog s' = (displayLog s ++ [shownUser; finalMessage fullContent])%list ->
    apiLog s' = (apiLog s ++ [userMessageForApi apiContent; finalMessage fullContent])%list ->
    completed model s s' shownUser.

(** ** Sessions *)

(** [s'] differs from [s] in the trace at most. *)
Definition same_but_trace (s s' : State) : Prop :=
  with_trace (trace s) s' = s.

(** What an event other than a send or a timer leaves as it is. *)
Record quiet (s s' : State) : Prop := {
  q_messages : messages s' = messages s;
  q_conversation : conversationRef s' = conversationRef s;
  q_store : store s' = store s;
  q_status : status s' = status s;
  q_timers : timers s' = timers s;
  q_session : sessionFilesRef s' = sessionFilesRef s \/ sessionFilesRef s' = []
}.

(** ** More vocabulary *)

(** The number of bytes of the white-space character [s] starts with,
    0 if it starts with none. *)
Definition spaceLen (s : string) : nat :=
  match s with
  | EmptyString => 0
  | String a rest =>
      if is_space1 a then 1
      else
        match rest with
        | EmptyString => 0
        | String b rest2 =>
            if is_space2 a b then 2
            else
              match rest2 with
              | EmptyString => 0
              | String c _ => if is_space3 a b c then 3 else 0
              end
        end
  end%nat.

Fixpoint drop (n : nat) (s : string) : string :=
  match n, s with
  | O, _ => s
  | S n', String _ rest => drop n' rest
  | S _, EmptyString => EmptyString
  end.

(** What one item of an array content contributes to the normalized
    text: the item if it is a string, its [text] if that is a string. *)
Definition itemText (item : value) : string :=
  match item with
  | VStr s => s
  | _ => match getOpt item "text" with
         | VStr t => t
         | _ => ""
         end
  end.

(** The message the normalizer looks into: [payload.message ?? payload]. *)
Definition messageOf (payload : value) : value :=
  nullish (getOpt payload "message") payload.

Fixpoint occurs (c : ascii) (s : string) : bool :=
  match s with
  | EmptyString => false
  | String x rest => Ascii.eqb x c || occurs c rest
  end.

(** The entity that stands for a character of markup. *)
Definition escapeChar (c : ascii) : string :=
  if Ascii.eqb c "&"%char then "&amp;"
  else if Ascii.eqb c "<"%char then "&lt;"
  else if Ascii.eqb c ">"%char then "&gt;"
  else if Ascii.eqb c dquote then "&quot;"
  else if Ascii.eqb c squote then "&#039;"
  else String c "".

(** The characters that open a tag or close an attribute value. *)
Definition is_markup (c : ascii) : bool :=
  Ascii.eqb c "<"%char || Ascii.eqb c ">"%char || Ascii.eqb c dquote || Ascii.eqb c squote.

(** ** The input area *)

(** A pending attachment as selection leaves it: of an allowed type,
    within the size limit, with its file and not uploaded yet. *)
Definition pending (a : Attachment) : Prop :=
  includes (allowedTypes attachmentConfig) (att_type a) = true
  /\ att_size a <= maxSize attachmentConfig
  /\ att_file a <> None
  /\ att_puterPath a = None.

Definition input_area_ok (s : State) : Prop :=
  Z.of_nat (length (attachments s)) <= maxCount attachmentConfig
  /\ Forall pending (attachments s).

(** The preview addresses that were revoked, in order. *)
Definition revocations (tr : list Obs) : list string :=
  flat_map (fun o => match o with ObsRevoke url => [url] | _ => [] end) tr.


(** What a turn leaves of the state in which its [try] block starts. *)
Record turn_frame (s0 s1 : State) : Prop := {
  tf_input : input s1 = input s0;
  tf_attachments : attachments s1 = attachments s0;
  tf_timers : timers s1 = timers s0;
  tf_session : NoDup (sessionFilesRef s0) -> NoDup (sessionFilesRef s1)
}.

(** A message whose attachments went through [sanitizeAttachments]. *)
Definition sanitized (m : Message) : Prop :=
  match attachments_of m with
  | Some items =>
      Forall (fun a => att_file a = None /\ att_uploadProgress a = None /\ att_error a = None)
        items
  | None => True
  end.

(** Every pending timer sets the status to [ready], and the status
    [error] has one pending. *)
Definition recovers (s : State) : Prop :=
  Forall (fun t => sets_status t = ready) (timers s)
  /\ (status s = error -> timers s <> []).

(** ** Dragging *)

Inductive DragEvent :=
| DragEnter (dataTransfer : option DataTransfer)
| DragLeave (dataTransfer : option DataTransfer)
| DragOver (dataTransfer : option DataTransfer)
| Drop (dataTransfer : option DataTransfer).

Definition initialDrag : DragState := {| dragCounter := 0; isDragging := false |}.

(** One event on the drop zone.  The component renders between two
    events, so each handler reads the counter its predecessor left. *)
Definition dragStep (P : Platform) (ds : DragState * State) (ev : DragEvent)
    : DragState * State :=
  match ev with
  | DragEnter dt => (handleDragEnter dt (fst ds), snd ds)
  | DragLeave dt => (handleDragLeave dt (fst ds), snd ds)
  | DragOver dt => (handleDragOver dt (fst ds), snd ds)
  | Drop dt => handleDrop P dt (fst ds) (snd ds)
  end.

Definition dragRun (P : Platform) (evs : list DragEvent) (ds : DragState * State)
    : DragState * State :=
  fold_left (dragStep P) evs ds.

(** ** The page *)

(** An update that leaves the messages and their objects alone. *)
Definition inert (u : Update) : Prop :=
  match u with
  | SetInput _ | SetAttachments _ | AddFiles _ | RemoveFile _ | SetStatus _ => True
  | SetMessages _ | AppendMessage _ | StreamInto _ | ReplaceLast _ => False
  end.

(** An update of the stream of the send whose buffer is [cell], or an
    inert one. *)
Definition of_stream (cell : nat) (u : Update) : Prop :=
  u = StreamInto cell \/ inert u.

(** The references an update holds point into a store of [n] objects. *)
Definition update_ok (n : nat) (u : Update) : Prop :=
  match u with
  | SetMessages refs => Forall (fun r => (r < n)%nat) refs
  | AppendMessage r | ReplaceLast r => (r < n)%nat
  | _ => True
  end.

(** Every reference of the logs and of the queue points into the
    store. *)
Definition page_wf (p : Page) : Prop :=
  wf (component p)
  /\ Forall (update_ok (length (store (component p)))) (queue p).

(** Anything but a send. *)
Definition bystander (o : Occurrence) : Prop :=
  match o with Submits => False | _ => True end.

(** How often the first flight was taken up again. *)
Fixpoint settles (occs : list Occurrence) : nat :=
  match occs with
  | [] => 0
  | Settles O :: rest => S (settles rest)
  | _ :: rest => settles rest
  end.

(** The last status a queue sets, if it sets one. *)
Fixpoint last_status (q : list Update) (st : StatusType) : StatusType :=
  match q with
  | [] => st
  | SetStatus st' :: rest => last_status rest st'
  | _ :: rest => last_status rest st
  end.

(** What an inert update leaves as it is. *)
Record kept (s s' : State) : Prop := {
  k_messages : messages s' = messages s;
  k_conversation : conversationRef s' = conversationRef s;
  k_store : store s' = store s;
  k_timers : timers s' = timers s;
  k_session : sessionFilesRef s' = sessionFilesRef s;
  k_calls : calls (trace s') = calls (trace s)
}.

(** What a step of an upload leaves of the page: all but the set of
    session files, the random values drawn and the trace. *)
Record upload_step (p p' : Page) : Prop := {
  us_queue : queue p' = queue p;
  us_cells : cells p' = cells p;
  us_flights : flights p' = flights p;
  us_messages : messages (component p') = messages (component p);
  us_conversation : conversationRef (component p') = conversationRef (component p);
  us_store : store (component p') = store (component p);
  us_status : status (component p') = status (component p);
  us_timers : timers (component p') = timers (component p);
  us_input : input (component p') = input (component p);
  us_attachments : attachments (component p') = attachments (component p)
}.

(** The page after the parts of a send that run without a stop. *)

(** Lines 599-610: the placeholder joins the API log at once, the
    display log when React renders; the buffer is created. *)
Definition holding (p : Page) : Page :=
  let s := component p in
  {| component := with_conversationRef (conversationRef s ++ [length (store s)])
                    (with_store (store s ++ [placeholder]) s);
     queue := (queue p ++ [AppendMessage (length (store s)); SetStatus thinking])%list;
     cells := (cells p ++ [VStr ""])%list;
     flights := flights p |}.

(** Lines 617-633: one chunk. *)
Definition taken (cell : nat) (part : value) (isFirstChunk : bool) (p : Page) : Page :=
  {| component := component p;
     queue := ((queue p ++ if isFirstChunk then [SetStatus ready] else [])
               ++ [StreamInto cell])%list;
     cells := assign (cells p) cell
                (VStr (toString (nth cell (cells p) VUndefined)
                       ++ toString (chunkText part)));
     flights := flights p |}.

(** Lines 658-670. *)
Definition finished (cell : nat) (p : Page) : Page :=
  let s := component p in
  {| component := with_conversationRef (set_last (conversationRef s) (length (store s)))
                    (with_store (store s ++ [finalMessage (nth cell (cells p) VUndefined)]) s);
     queue := (queue p ++ [ReplaceLast (length (store s))])%list;
     cells := cells p;
     flights := flights p |}.

(** Lines 672-700. *)
Definition caught (P : Platform) (err : value) (p : Page) : Page :=
  let s := component p in
  {| component :=
       with_timers (timers s ++ [{| delay := 3000; sets_status := ready |}])
         (with_store (store s ++ [errorMessage P err])
            (with_trace (trace s ++ [ObsConsole "Error calling AI:" err]) s));
     queue := (queue p ++ [AppendMessage (length (store s)); SetStatus error])%list;
     cells := cells p;
     flights := flights p |}.

(** Lines 552-561. *)
Definition screened (videoUrl : string) (p : Page) : Page :=
  let s := component p in
  {| component := with_conversationRef (conversationRef s ++ [length (store s)])
                    (with_store (store s ++ [videoMessage videoUrl]) s);
     queue := (queue p ++ [AppendMessage (length (store s)); SetStatus ready])%list;
     cells := cells p;
     flights := flights p |}.

(** Every reference is one of the first [n] objects. *)
Definition below (n : nat) (refs : list ref) : Prop :=
  Forall (fun r => (r < n)%nat) refs.

(** The page with one more update queued. *)
Definition queued (u : Update) (p : Page) : Page :=
  with_queue (queue p ++ [u]) p.

(** The page without the flight at position [i]. *)
Definition landed (i : nat) (p : Page) : Page :=
  with_flights (firstn i (flights p) ++ skipn (S i) (flights p)) p.

(** The display log will end with the message [r] of the stream whose
    buffer is [cell] and show [full] in it at the next render: the
    message is queued to join the log, or it is the last of the log;
    what is queued after that is of the stream; the message holds
    [full] already or the stream's updater is queued. *)
Definition stream_view (r cell : nat) (full : string) (p : Page) : Prop :=
  let s := component p in
  (r < length (store s))%nat
  /\ is_assistant (deref (store s) r) = true
  /\ ((exists q0 q2,
         queue p = (q0 ++ AppendMessage r :: q2)%list
         /\ Forall (update_ok r) q0 /\ below r (messages s)
         /\ Forall (of_stream cell) q2
         /\ (content (deref (store s) r) = Text full \/ In (StreamInto cell) q2))
      \/ (exists ms,
            messages s = (ms ++ [r])%list
            /\ Forall (of_stream cell) (queue p)
            /\ (content (deref (store s) r) = Text full \/ In (StreamInto cell) (queue p)))).

(** The display log will end with the settled message [rf] at the next
    render. *)
Definition final_view (rf cell : nat) (full : string) (p : Page) : Prop :=
  let s := component p in
  (rf < length (store s))%nat
  /\ deref (store s) rf = finalMessage (VStr full)
  /\ ((exists q0 q3 r,
         queue p = (q0 ++ ReplaceLast rf :: q3)%list
         /\ stream_view r cell full (with_queue q0 p)
         /\ Forall (update_ok rf) q0 /\ below rf (messages s)
         /\ Forall inert q3)
      \/ (exists ms,
            messages s = (ms ++ [rf])%list /\ Forall inert (queue p))).

(** Where a send stands that is alone on the page from its chat call
    on, after the promise it awaits has settled [n] times: it awaits
    the chat capability, whose answer is the stream of [chunks]; it has
    taken [n - 1] chunks; or it has returned. *)
Definition phase (chunks : list value) (cell n : nat) (p : Page) : Prop :=
  page_wf p
  /\ match n with
     | O => flights p = [AwaitChat (Ok (Stream chunks None))] /\ length (cells p) = cell
     | S j =>
         nth cell (cells p) VUndefined = VStr (texts (firstn j chunks))
         /\ if (j <=? length chunks)%nat
            then flights p = [AwaitChunk cell (skipn j chunks) None (j =? 0)%nat]
                 /\ exists conv r,
                      conversationRef (component p) = (conv ++ [r])%list
                      /\ stream_view r cell (texts (firstn j chunks)) p
            else flights p = []
                 /\ exists conv rf,
                      conversationRef (component p) = (conv ++ [rf])%list
                      /\ final_view rf cell (texts chunks) p
     end.

(** An update that sets no status but [thinking]. *)
Definition calm (u : Update) : Prop :=
  match u with SetStatus st => st = thinking | _ => True end.

(** The status is [thinking] and nothing pending will change it. *)
Definition stays_thinking (p : Page) : Prop :=
  status (component p) = thinking
  /\ timers (component p) = []
  /\ Forall calm (queue p).

(** Lines 504-522: the page when the [try] block of an accepted send
    begins.  The input area is reset and the user's bubble joins the
    display log when React renders. *)
Definition started (p : Page) : Page :=
  let s := component p in
  {| component :=
       with_store (store s ++ [userMessageDisplay (trim (input s))
                                 (sanitizeAttachments (attachments s))]) s;
     queue := (queue p ++ [SetInput ""; SetAttachments []; SetStatus thinking;
                           SetMessages (messages s ++ [length (store s)])])%list;
     cells := cells p;
     flights := flights p |}.

(** The statuses that the pending timers set when they fire. *)
Definition timer_updates (ts : list Timer) : list Update :=
  map (fun t => SetStatus (sets_status t)) ts.

(** What the [catch] block does when the [try] block of a send has
    thrown [e] on the page [p1], leaving the page [p']: at the next
    render the display log is what it would have been, followed by the
    error bubble, and the status is [error]; the API log holds the same
    message objects, with the same contents at the next render; one
    timer of 3000 ms that sets [ready] is added to the pending ones;
    no capability is called and no send is added to those in flight;
    and once the pending timers have fired and React has rendered the
    status is [ready]. *)
Definition failure_shown (P : Platform) (puter : option PuterSDK) (model : string)
    (e : value) (p1 p' : Page) : Prop :=
  displayLog (component (occur P puter model Renders p'))
  = (displayLog (component (occur P puter model Renders p1)) ++ [errorMessage P e])%list
  /\ status (component (occur P puter model Renders p')) = error
  /\ conversationRef (component p') = conversationRef (component p1)
  /\ apiLog (component (occur P puter model Renders p'))
     = apiLog (component (occur P puter model Renders p1))
  /\ timers (component p')
     = (timers (component p1) ++ [{| delay := 3000; sets_status := ready |}])%list
  /\ calls (trace (component p')) = calls (trace (component p1))
  /\ flights p' = flights p1
  /\ status (component
               (go P puter model
                  (repeat TimerFires (length (timers (component p'))) ++ [Renders]) p'))
     = ready.

(** The log [b] has every entry of the log [a] but perhaps its last
    one, each in its place. *)
Definition keeps_all_but_last (a b : list ref) : Prop :=
  (length a <= length b)%nat
  /\ firstn (length a - 1) b = firstn (length a - 1) a.

(** * Properties *)

(** ** The Response Normalizer *)

Example extractResponseText_parts :
  extractResponseText
    (VObj false [("message", VObj false [("content",
       VArr [VObj false [("text", VStr "a")]; VStr "b"; VNull; VObj false [("text", VNum 3)]])])])
  = Ok (VStr "ab").
Proof. reflexivity. Qed.

Example extractContent_null_content_throws :
  exists e, extractContent (VObj false [("message", VObj false [("content", VNull)])]) = Throw e.
Proof. eexists. reflexivity. Qed.

Lemma get_defined v :
  nullish_value v = false -> forall k, get v k = Ok (getOpt v k).
Proof.
  destruct v; simpl; try discriminate; try reflexivity.
  intros _ k. destruct (lookup_field k fields); [reflexivity|].
  destruct (isError && String.eqb k "message"); [reflexivity|].
  destruct (isError && String.eqb k "name"); reflexivity.
Qed.

Lemma truthy_defined v : truthy v = true -> nullish_value v = false.
Proof. destruct v; simpl; congruence. Qed.

Lemma nullish_defined a b : nullish_value b = false -> nullish_value (nullish a b) = false.
Proof. destruct a; simpl; auto. Qed.

Lemma has_in_object k c :
  typeof_is c TObject = true -> is_null c = false -> exists b, has_in k c = Ok b.
Proof. destruct c; simpl; try discriminate; eauto. Qed.

Lemma extractItemText_ok item : exists v, extractItemText item = Ok v.
Proof.
  unfold extractItemText.
  destruct (negb (truthy item)) eqn:T; [eauto|].
  destruct (is_string item); [eauto|].
  apply negb_false_iff, truthy_defined in T.
  rewrite (get_defined _ T). simpl.
  destruct (is_string _); eauto.
Qed.

Lemma mapM_extractItemText_ok items :
  exists vs, mapM_result extractItemText items = Ok vs.
Proof.
  induction items as [|x xs [vs IH]]; simpl; [eauto|].
  destruct (extractItemText_ok x) as [v ->]. simpl. rewrite IH. simpl. eauto.
Qed.

(** Whatever the payload, [extractResponseText] returns. *)
Lemma extractResponseText_never_throws payload :
  exists v, extractResponseText payload = Ok v.
Proof.
  unfold extractResponseText.
  destruct (negb (truthy payload)) eqn:T; [eauto|].
  apply negb_false_iff, truthy_defined in T.
  destruct (is_string payload); [eauto|].
  rewrite !(get_defined _ T).
  destruct (is_string (getOpt payload "text")); [eauto|].
  simpl rbind.
  set (message := nullish (getOpt payload "message") payload).
  assert (D : nullish_value message = false) by (apply nullish_defined; exact T).
  destruct (is_string message); [eauto|].
  rewrite !(get_defined _ D).
  destruct (is_string (getOpt message "content")); [eauto|].
  destruct (isArray (getOpt message "content")).
  - simpl rbind.
    destruct (mapM_extractItemText_ok (elements (getOpt message "content"))) as [vs ->].
    simpl. eauto.
  - destruct (typeof_is (getOpt message "content") TObject) eqn:O; simpl andb; [|simpl; eauto].
    destruct (is_null (getOpt message "content")) eqn:N; simpl; [eauto|].
    destruct (has_in_object "text" _ O N) as [b ->]. simpl.
    destruct b; [|eauto].
    rewrite get_defined; [simpl; eauto|].
    revert O N. destruct (getOpt message "content"); cbv; congruence.
Qed.

(** C6 (code bug): the Response Normalizer is to return a string for
    every payload.  It never throws, but for a payload whose message
    content is an object with a [text] field that is not a string, the
    last branch (lines 65-71) returns that field as it is: here the
    number 42. *)
Theorem C6_normalizer_returns_non_string :
  extractResponseText
    (VObj false [("message", VObj false [("content", VObj false [("text", VNum 42)])])])
  = Ok (VNum 42)
  /\ is_string (VNum 42) = false.
Proof. split; reflexivity. Qed.

(** C5 (code bug): the non-streaming fallback is to settle on what the
    Response Normalizer returns.  For a message whose content is the
    parts "Hello, " and "world" the normalizer returns "Hello, world",
    the fallback's own [extractContent] only the first part, and that is
    what the turn shows and records. *)
Theorem C5_fallback_keeps_first_part_only :
  let s := exec (sendMessage Fixtures.platform
                   (Some (Fixtures.sdk (Ok (Payload Fixtures.two_parts)))) "gpt-4o")
                (Fixtures.typed "hi") in
  extractResponseText Fixtures.two_parts = Ok (VStr "Hello, world")
  /\ extractContent Fixtures.two_parts = Ok (VStr "Hello, ")
  /\ lastContent (displayLog s) = Some (Text "Hello, ")
  /\ lastContent (apiLog s) = Some (Text "Hello, ").
Proof. repeat split; reflexivity. Qed.

(** ** Attachment validation *)

Section AttachmentProperties.

Variable P : Platform.
Variable cfg : AttachmentConfig.

Lemma validateFile_accepts file count :
  validateFile P cfg file count = None ->
  includes (allowedTypes cfg) (file_type file) = true
  /\ file_size file <= maxSize cfg
  /\ Z.of_nat count < maxCount cfg.
Proof.
  unfold validateFile.
  destruct (includes (allowedTypes cfg) (file_type file)); simpl; [|discriminate].
  destruct (Z.gtb_spec (file_size file) (maxSize cfg)); [discriminate|].
  destruct (Z.geb_spec (Z.of_nat count) (maxCount cfg)); [discriminate|].
  intros _. repeat split; lia.
Qed.

Lemma addStep_full nonce st file :
  maxCount cfg <= Z.of_nat (runningCount st) ->
  additions (addStep P cfg nonce st file) = additions st
  /\ runningCount (addStep P cfg nonce st file) = runningCount st
  /\ length (errors (addStep P cfg nonce st file)) = S (length (errors st)).
Proof.
  intros Hfull. unfold addStep.
  destruct (validateFile P cfg file (runningCount st)) eqn:V.
  - simpl. rewrite length_app. simpl. repeat split; lia.
  - apply validateFile_accepts in V. lia.
Qed.

Lemma addLoop_full nonce files : forall st,
  maxCount cfg <= Z.of_nat (runningCount st) ->
  additions (addLoop P cfg nonce files st) = additions st
  /\ runningCount (addLoop P cfg nonce files st) = runningCount st
  /\ length (errors (addLoop P cfg nonce files st)) = (length (errors st) + length files)%nat.
Proof.
  unfold addLoop.
  induction files as [|f files IH]; intros st Hfull; simpl.
  - repeat split; lia.
  - destruct (addStep_full nonce st f Hfull) as (Ha & Hc & He).
    destruct (IH (addStep P cfg nonce st f)) as (Ha' & Hc' & He'); [rewrite Hc; exact Hfull|].
    rewrite Ha', Hc', He', Ha, Hc, He. repeat split; lia.
Qed.

Lemma addLoop_count nonce files : forall st base,
  runningCount st = (base + length (additions st))%nat ->
  runningCount (addLoop P cfg nonce files st)
  = (base + length (additions (addLoop P cfg nonce files st)))%nat.
Proof.
  unfold addLoop.
  induction files as [|f files IH]; intros st base Hst; simpl; [exact Hst|].
  apply IH. unfold addStep.
  destruct (validateFile P cfg f (runningCount st)); simpl; [exact Hst|].
  rewrite length_app. simpl. lia.
Qed.

Lemma addLoop_additions nonce files : forall st a,
  In a (additions (addLoop P cfg nonce files st)) ->
  In a (additions st)
  \/ exists f k n, In f files /\ validateFile P cfg f k = None /\ a = createAttachment P n f.
Proof.
  unfold addLoop.
  induction files as [|f files IH]; intros st a Ha; simpl in *; [left; exact Ha|].
  apply IH in Ha. destruct Ha as [Ha | (f' & k & n & Hin & Hv & Heq)].
  - unfold addStep in Ha.
    destruct (validateFile P cfg f (runningCount st)) eqn:V; simpl in Ha; [left; exact Ha|].
    apply in_app_or in Ha. destruct Ha as [Ha | [Ha | []]]; [left; exact Ha|].
    right. exists f, (runningCount st), (nonce + length (additions st))%nat. auto.
  - right. exists f', k, n. auto.
Qed.

End AttachmentProperties.

(** C7: attachment validation.  A file whose MIME type is outside the
    allow-list is rejected whatever its size and the count; a file of an
    allowed type above the size ceiling is rejected; once the running
    count of a batch has reached the maximum, every later candidate of
    the batch is rejected (nothing is added, each one adds an error);
    the running count is the number of attachments held before the
    batch plus the number accepted; and every attachment of the new
    collection was there before or was made from a file of the batch
    that validation accepted. *)
Theorem C7_attachment_validation (P : Platform) (cfg : AttachmentConfig) :
  (forall file count,
      includes (allowedTypes cfg) (file_type file) = false ->
      validateFile P cfg file count <> None)
  /\ (forall file count,
      includes (allowedTypes cfg) (file_type file) = true ->
      file_size file > maxSize cfg ->
      validateFile P cfg file count <> None)
  /\ (forall nonce (current : list Attachment) (earlier later : list File),
      let start := {| additions := []; errors := []; runningCount := length current |} in
      let reached := addLoop P cfg nonce earlier start in
      maxCount cfg <= Z.of_nat (runningCount reached) ->
      additions (addLoop P cfg nonce (earlier ++ later) start) = additions reached
      /\ length (errors (addLoop P cfg nonce (earlier ++ later) start))
         = (length (errors reached) + length later)%nat)
  /\ (forall nonce (current : list Attachment) (files : list File),
      let done := addLoop P cfg nonce files
                    {| additions := []; errors := []; runningCount := length current |} in
      runningCount done = (length current + length (additions done))%nat)
  /\ (forall nonce current files a,
      In a (fst (addAttachments_update P cfg nonce files current)) ->
      In a current
      \/ exists f k n, In f files /\ validateFile P cfg f k = None
                       /\ a = createAttachment P n f).
Proof.
  split; [|split; [|split; [|split]]].
  - intros file count H V. apply validateFile_accepts in V. destruct V as [V _]. congruence.
  - intros file count _ H V. apply validateFile_accepts in V. lia.
  - intros nonce current earlier later start reached Hfull.
    unfold addLoop in *. rewrite fold_left_app. fold reached.
    destruct (addLoop_full P cfg nonce later reached Hfull) as (Ha & _ & He).
    unfold addLoop in *. auto.
  - intros nonce current files done. apply addLoop_count. simpl. lia.
  - intros nonce current files a. unfold addAttachments_update. simpl.
    set (st := addLoop P cfg nonce files _).
    destruct (additions st) eqn:E; [auto|].
    intros Ha. apply in_app_or in Ha. destruct Ha as [Ha|Ha]; [auto|].
    rewrite <- E in Ha. subst st. apply addLoop_additions in Ha.
    destruct Ha as [[]|Ha]. right. exact Ha.
Qed.

Lemma C7_attachment_validation_witness :
  validateFile Fixtures.platform attachmentConfig Fixtures.zip 0 <> None
  /\ validateFile Fixtures.platform attachmentConfig Fixtures.huge 0 <> None
  /\ additions
       (addLoop Fixtures.platform attachmentConfig 0
          ([Fixtures.png; Fixtures.zip; Fixtures.png] ++ [Fixtures.png; Fixtures.png])
          {| additions := []; errors := []; runningCount := 3 |})
     = [createAttachment Fixtures.platform 0 Fixtures.png;
        createAttachment Fixtures.platform 1 Fixtures.png].
Proof.
  destruct (C7_attachment_validation Fixtures.platform attachmentConfig)
    as (Htype & Hsize & Hfull & _ & _).
  split; [apply Htype; reflexivity|].
  split; [apply Hsize; reflexivity|].
  destruct (Hfull 0%nat
              (repeat (createAttachment Fixtures.platform 9 Fixtures.png) 3)
              [Fixtures.png; Fixtures.zip; Fixtures.png]
              [Fixtures.png; Fixtures.png]) as [Hadd _].
  - vm_compute. discriminate.
  - exact Hadd.
Defined.

(** ** Upload and reference *)

Lemma includes_In l x : includes l x = true <-> In x l.
Proof.
  unfold includes. rewrite existsb_exists. split.
  - intros (y & Hy & E). apply String.eqb_eq in E. subst. exact Hy.
  - intros H. exists x. split; [exact H | apply String.eqb_refl].
Qed.

Lemma set_add_In x set : In x (set_add x set).
Proof.
  unfold set_add. destruct (includes set x) eqn:E.
  - apply includes_In. exact E.
  - apply in_or_app. right. left. reflexivity.
Qed.

Lemma set_add_incl x set : incl set (set_add x set).
Proof.
  unfold set_add. destruct (includes set x); [apply incl_refl | apply incl_appl, incl_refl].
Qed.

Lemma set_add_NoDup x set : NoDup set -> NoDup (set_add x set).
Proof.
  intros H. unfold set_add. destruct (includes set x) eqn:E; [exact H|].
  apply NoDup_app; [exact H | constructor; [intros [] | constructor] |].
  intros y Hy [<-|[]]. apply includes_In in Hy. congruence.
Qed.

Lemma uploadLoop_spec P fsys files : forall uploaded s result s',
  uploadLoop P fsys files uploaded s = (Ok result, s') ->
  exists news,
    result = (uploaded ++ news)%list
    /\ Forall2 (uploaded_from fsys) (filter has_file files) news
    /\ incl (sessionFilesRef s) (sessionFilesRef s')
    /\ incl (map puterPath_of news) (sessionFilesRef s').
Proof.
  induction files as [|a files IH]; intros uploaded s result s' H; simpl in H.
  - inversion H; subst. exists []. rewrite app_nil_r.
    repeat split; [constructor | apply incl_refl | intros x []].
  - simpl filter. unfold has_file at 1.
    destruct (att_file a) as [file|] eqn:F.
    + revert H. unfold generateTempFilename, draw, bind, ret, observe, modify, lift. simpl.
      match goal with
      | |- context [fs_write fsys ?n file] =>
          set (tempName := n); destruct (fs_write fsys tempName file) as [path|e] eqn:W
      end; [|discriminate].
      intros H. apply IH in H. destruct H as (news & -> & HF & Hmono & Hincl).
      simpl in Hmono.
      exists (uploadedAttachment a path :: news).
      rewrite <- app_assoc. split; [reflexivity|]. split; [|split].
      * constructor; [|exact HF]. exists file, tempName, path. auto.
      * eapply incl_tran; [apply (set_add_incl path)|exact Hmono].
      * intros x [<-|Hx]; [|apply Hincl; exact Hx].
        apply Hmono. simpl. apply set_add_In.
    + apply IH in H. exact H.
Qed.

Lemma file_parts_paths l :
  flat_map (fun p => match p with FilePart path => [path] | TextPart _ => [] end)
    (map (fun a => FilePart (puterPath_of a)) (filter has_puterPath l))
  = filter nonempty (map puterPath_of l).
Proof.
  induction l as [|a l IH]; [reflexivity|].
  simpl. unfold has_puterPath, puterPath_of at 2 3.
  destruct (att_puterPath a) as [p|] eqn:E; simpl.
  - destruct (nonempty p); simpl; [|exact IH].
    f_equal; [unfold puterPath_of; rewrite E; reflexivity | exact IH].
  - exact IH.
Qed.

Lemma buildUserMessageContent_paths text uploaded :
  file_paths (buildUserMessageContent text uploaded)
  = filter nonempty (map puterPath_of uploaded).
Proof.
  destruct uploaded as [|a l]; [reflexivity|].
  unfold buildUserMessageContent, file_paths.
  destruct (nonempty text); [rewrite flat_map_app; simpl; rewrite app_nil_r|];
    exact (file_parts_paths (a :: l)).
Qed.

Lemma buildUserMessageContent_shape text uploaded :
  buildUserMessageContent text uploaded
  = match uploaded with
    | [] => Text text
    | _ => Parts (map FilePart (filter nonempty (map puterPath_of uploaded))
                  ++ (if nonempty text then [TextPart text] else []))%list
    end.
Proof.
  destruct uploaded as [|a l]; [reflexivity|].
  unfold buildUserMessageContent.
  assert (G : forall l, map (fun a => FilePart (puterPath_of a)) (filter has_puterPath l)
                        = map FilePart (filter nonempty (map puterPath_of l))).
  { clear. induction l as [|a l IH]; [reflexivity|].
    simpl. unfold has_puterPath, puterPath_of at 2 3.
    destruct (att_puterPath a) as [p|] eqn:E; simpl.
    - destruct (nonempty p); simpl; [|exact IH].
      f_equal; [unfold puterPath_of; rewrite E; reflexivity | exact IH].
    - exact IH. }
  rewrite (G (a :: l)). destruct (nonempty text); [reflexivity|]. rewrite app_nil_r. reflexivity.
Qed.

(** C8 (amended): upload then reference.  When the upload of a list
    of attachments succeeds, the result holds, in the order of the
    original list, one entry for each attachment that had a local file,
    carrying the path the storage returned for it (which is also
    recorded in the session file set); the file-reference parts of the
    API content built from it are the non-empty ones among these paths,
    in that order (the filter of line 404 drops an attachment whose path
    is empty), followed by one text part exactly when the text is
    non-empty; with nothing uploaded the content is the plain text. *)
Theorem C8_uploaded_paths_referenced P puter files s uploaded s' text :
  uploadAttachments P puter files s = (Ok uploaded, s') ->
  exists fsys,
    puter_fs puter = Some fsys
    /\ Forall2 (uploaded_from fsys) (filter has_file files) uploaded
    /\ incl (map puterPath_of uploaded) (sessionFilesRef s')
    /\ file_paths (buildUserMessageContent text uploaded)
       = filter nonempty (map puterPath_of uploaded)
    /\ buildUserMessageContent text uploaded
       = match uploaded with
         | [] => Text text
         | _ => Parts (map FilePart (filter nonempty (map puterPath_of uploaded))
                       ++ (if nonempty text then [TextPart text] else []))%list
         end.
Proof.
  unfold uploadAttachments. destruct (puter_fs puter) as [fsys|]; [|discriminate].
  intros H. apply uploadLoop_spec in H. destruct H as (news & -> & HF & _ & Hincl).
  exists fsys. simpl. repeat split; auto.
  - apply buildUserMessageContent_paths.
  - apply buildUserMessageContent_shape.
Qed.

Lemma C8_uploaded_paths_referenced_witness :
  let att := createAttachment Fixtures.platform 0 Fixtures.png in
  let sdk := Fixtures.sdk (Ok Fixtures.hello) in
  fst (uploadAttachments Fixtures.platform (Some sdk) [att] initialState)
  = Ok [uploadedAttachment att "/tmp/claude_upload_1700000000000_r0.png"]
  /\ file_paths (buildUserMessageContent "hi"
                   [uploadedAttachment att "/tmp/claude_upload_1700000000000_r0.png"])
     = ["/tmp/claude_upload_1700000000000_r0.png"].
Proof.
  intros att sdk. split; [reflexivity|].
  destruct (C8_uploaded_paths_referenced Fixtures.platform (Some sdk) [att] initialState
              _ _ "hi" eq_refl)
    as (fsys & _ & _ & _ & Hpaths & _).
  exact Hpaths.
Defined.

(** C8 as stated fails: if the storage answers a write with an empty
    path, the attachment is uploaded but its path is not among the
    file-reference parts. *)
Lemma C8_empty_path_is_not_referenced :
  let att := createAttachment Fixtures.platform 0 Fixtures.png in
  let sdk := Fixtures.sdk_with Fixtures.pathless_storage (Ok Fixtures.hello) in
  exists uploaded s',
    uploadAttachments Fixtures.platform (Some sdk) [att] initialState = (Ok uploaded, s')
    /\ map puterPath_of uploaded = [""]
    /\ file_paths (buildUserMessageContent "hi" uploaded) = []
    /\ file_paths (buildUserMessageContent "hi" uploaded) <> map puterPath_of uploaded.
Proof.
  simpl. eexists. eexists. split; [reflexivity|].
  split; [reflexivity|]. split; [reflexivity|]. discriminate.
Qed.

(** ** Cleanup *)

Lemma deletions_app a b : deletions (a ++ b) = (deletions a ++ deletions b)%list.
Proof. apply flat_map_app. Qed.

Lemma deleteOne_run fsys path s :
  exists s',
    deleteOne fsys path s = (Ok tt, s')
    /\ deletions (trace s') = (deletions (trace s) ++ [path])%list
    /\ calls (trace s') = calls (trace s)
    /\ sessionFilesRef s' = sessionFilesRef s.
Proof.
  unfold deleteOne, bind, observe, modify, ret. simpl.
  destruct (fs_delete fsys path) as [[]|e]; simpl; eexists; (split; [reflexivity|]);
    cbn [trace sessionFilesRef with_trace]; unfold calls;
    rewrite ?deletions_app, ?filter_app; simpl; rewrite ?app_nil_r; auto.
Qed.

Lemma deleteAll_run fsys paths : forall s,
  exists s',
    forEachM (deleteOne fsys) paths s = (Ok tt, s')
    /\ deletions (trace s') = (deletions (trace s) ++ paths)%list
    /\ calls (trace s') = calls (trace s)
    /\ sessionFilesRef s' = sessionFilesRef s.
Proof.
  induction paths as [|p paths IH]; intros s; simpl.
  - exists s. rewrite app_nil_r. auto.
  - destruct (deleteOne_run fsys p s) as (s1 & H1 & D1 & C1 & F1).
    destruct (IH s1) as (s2 & H2 & D2 & C2 & F2).
    exists s2. unfold bind. rewrite H1, H2. rewrite D2, D1, <- app_assoc.
    repeat split; congruence.
Qed.

(** C9: [cleanupSessionFiles] is idempotent and isolates failures.  In
    a state where paths are recorded only if the storage capability is
    there (uploads are the only source of paths and need it), the call
    returns without error whatever the individual deletions do, it
    attempts the deletion of every recorded path exactly once, the set
    is empty afterwards, and a second call returns without error and
    attempts no deletion. *)
Theorem C9_cleanup_idempotent (puter : option PuterSDK) (s : State) :
  (puter_fs puter = None -> sessionFilesRef s = []) ->
  let first := cleanupSessionFiles puter s in
  let second := cleanupSessionFiles puter (snd first) in
  fst first = Ok tt
  /\ fst second = Ok tt
  /\ sessionFilesRef (snd first) = []
  /\ deletions (trace (snd first)) = (deletions (trace s) ++ sessionFilesRef s)%list
  /\ deletions (trace (snd second)) = deletions (trace (snd first)).
Proof.
  intros Hinv. unfold cleanupSessionFiles.
  destruct (puter_fs puter) as [fsys|].
  - unfold bind at 1 2, gets at 1. 
    destruct (deleteAll_run fsys (sessionFilesRef s) s) as (s1 & H1 & D1 & _ & F1).
    cbv zeta. unfold bind, gets. simpl. rewrite H1. simpl.
    repeat split; auto.
  - simpl. rewrite (Hinv eq_refl), app_nil_r. auto.
Qed.

Lemma C9_cleanup_idempotent_witness :
  let puter := Some (Fixtures.sdk_with Fixtures.stubborn_storage (Ok Fixtures.hello)) in
  let s := with_sessionFilesRef ["/tmp/a.png"; "/tmp/b.pdf"] initialState in
  fst (cleanupSessionFiles puter s) = Ok tt
  /\ deletions (trace (snd (cleanupSessionFiles puter s))) = ["/tmp/a.png"; "/tmp/b.pdf"]
  /\ deletions (trace (snd (cleanupSessionFiles puter (snd (cleanupSessionFiles puter s)))))
     = ["/tmp/a.png"; "/tmp/b.pdf"].
Proof.
  intros puter s.
  assert (Hinv : puter_fs puter = None -> sessionFilesRef s = []) by discriminate.
  destruct (C9_cleanup_idempotent puter s Hinv) as (H1 & _ & _ & H4 & H5).
  split; [exact H1|]. split; [exact H4|].
  rewrite H5. exact H4.
Defined.

(** ** The store and the logs *)

Lemma length_write st : forall r m, length (write st r m) = length st.
Proof. induction st as [|x st IH]; intros [|r] m; simpl; auto. Qed.

Lemma deref_write_same st : forall r m, (r < length st)%nat -> deref (write st r m) r = m.
Proof.
  unfold deref. induction st as [|x st IH]; intros [|r] m H; simpl in *; try lia; auto.
  apply IH. lia.
Qed.

Lemma deref_write_other st : forall r r' m, r <> r' -> deref (write st r m) r' = deref st r'.
Proof.
  unfold deref. induction st as [|x st IH]; intros [|r] [|r'] m H; simpl; auto; try congruence.
Qed.

Lemma write_write st : forall r m m', write (write st r m) r m' = write st r m'.
Proof. induction st as [|x st IH]; intros [|r] m m'; simpl; auto. f_equal. apply IH. Qed.

Lemma deref_alloc_old st extra r : (r < length st)%nat -> deref (st ++ extra) r = deref st r.
Proof. intros H. unfold deref. apply app_nth1. exact H. Qed.

Lemma deref_alloc_new st m : deref (st ++ [m]) (length st) = m.
Proof. unfold deref. rewrite app_nth2, Nat.sub_diag; [reflexivity | lia]. Qed.

Lemma resolve_app st a b : resolve st (a ++ b) = (resolve st a ++ resolve st b)%list.
Proof. apply map_app. Qed.

Lemma resolve_alloc st extra refs : valid st refs -> resolve (st ++ extra) refs = resolve st refs.
Proof.
  intros H. unfold resolve. apply map_ext_in. intros r Hr.
  apply deref_alloc_old. unfold valid in H. rewrite Forall_forall in H. auto.
Qed.

Lemma resolve_write st refs r m :
  ~ In r refs -> resolve (write st r m) refs = resolve st refs.
Proof.
  intros H. unfold resolve. apply map_ext_in. intros r' Hr'.
  apply deref_write_other. congruence.
Qed.

Lemma valid_fresh st refs : valid st refs -> ~ In (length st) refs.
Proof.
  unfold valid. rewrite Forall_forall. intros H Hin. apply H in Hin. lia.
Qed.

Lemma valid_alloc st extra refs : valid st refs -> valid (st ++ extra) refs.
Proof.
  unfold valid. apply Forall_impl. intros r H. rewrite length_app. lia.
Qed.

Lemma valid_snoc st m refs : valid st refs -> valid (st ++ [m]) (refs ++ [length st]).
Proof.
  intros H. apply Forall_app. split; [apply valid_alloc; exact H|].
  constructor; [|constructor]. rewrite length_app. simpl. lia.
Qed.

Lemma valid_write st r m refs : valid st refs -> valid (write st r m) refs.
Proof. unfold valid. rewrite length_write. auto. Qed.

Lemma lastContent_snoc log m : lastContent (log ++ [m]) = Some (content m).
Proof. unfold lastContent. rewrite rev_app_distr. reflexivity. Qed.

Lemma shown_app a b : shown (a ++ b) = (shown a ++ shown b)%list.
Proof. apply flat_map_app. Qed.

Lemma statuses_app a b : statuses (a ++ b) = (statuses a ++ statuses b)%list.
Proof. apply flat_map_app. Qed.

Lemma calls_app a b : calls (a ++ b) = (calls a ++ calls b)%list.
Proof. apply filter_app. Qed.

Lemma set_last_snoc {A} (l : list A) x y : set_last (l ++ [x]) y = (l ++ [y])%list.
Proof.
  unfold set_last. destruct (l ++ [x])%list eqn:E.
  - destruct l; discriminate.
  - rewrite <- E, removelast_last. reflexivity.
Qed.

Lemma wf_initial : wf initialState.
Proof. split; constructor. Qed.

(** ** The streaming loop *)

Lemma append_assoc (a b c : string) : (a ++ b) ++ c = a ++ (b ++ c).
Proof. induction a; simpl; congruence. Qed.

Lemma append_empty_r (a : string) : a ++ "" = a.
Proof. induction a; simpl; congruence. Qed.

Lemma concat_empty_cons (x : string) (l : list string) :
  String.concat "" (x :: l) = x ++ String.concat "" l.
Proof. destruct l; simpl; [rewrite append_empty_r|]; reflexivity. Qed.

Lemma texts_cons part chunks : texts (part :: chunks) = toString (chunkText part) ++ texts chunks.
Proof. unfold texts. simpl map. apply concat_empty_cons. Qed.

Lemma texts_nil : texts [] = "".
Proof. reflexivity. Qed.

Lemma texts_snoc chunks part : texts (chunks ++ [part]) = texts chunks ++ toString (chunkText part).
Proof.
  induction chunks as [|c chunks IH].
  - simpl. rewrite texts_cons, texts_nil, append_empty_r. reflexivity.
  - simpl app. rewrite !texts_cons, IH, append_assoc. reflexivity.
Qed.

(** What one shown chunk does to a state whose display log ends with an
    assistant message. *)
Lemma showStreamed_run full s ms r :
  messages s = (ms ++ [r])%list ->
  (r < length (store s))%nat ->
  is_assistant (deref (store s) r) = true ->
  let st' := write (store s) r (with_content (Text full) (deref (store s) r)) in
  showStreamed full s
  = (Ok tt, with_trace (trace s ++ [ObsMessages (resolve st' (messages s))]) (with_store st' s)).
Proof.
  intros Hm Hr Ha. unfold showStreamed, bind, gets, modify, setMessages, observe, ret. simpl.
  rewrite Hm, rev_app_distr. simpl. rewrite Ha. simpl.
  unfold displayLog. simpl. unfold with_trace, with_messages, with_store. simpl.
  rewrite <- Hm. destruct s; reflexivity.
Qed.

Lemma with_content_twice c c' m : with_content c' (with_content c m) = with_content c' m.
Proof. reflexivity. Qed.

Lemma is_assistant_with_content c m : is_assistant (with_content c m) = is_assistant m.
Proof. reflexivity. Qed.

Lemma streamLoop_run chunks failure : forall full first s ms r,
  streaming s ms r ->
  exists s1,
    streamLoop chunks failure full first s
    = (match failure with
       | None => Ok (full ++ texts chunks)
       | Some e => Throw e
       end, s1)
    /\ stream_post s s1 r full chunks first.
Proof.
  induction chunks as [|part rest IH]; intros full first s ms r (Hm & Hr & Ha).
  - exists s. split.
    + simpl. rewrite texts_nil, append_empty_r. destruct failure; reflexivity.
    + constructor; simpl; rewrite ?app_nil_r; reflexivity.
  - set (sa := if first
               then with_trace (trace s ++ [ObsStatus ready]) (with_status ready s)
               else s).
    assert (Hsa : streaming sa ms r) by (subst sa; destruct first; repeat split; assumption).
    assert (Ea : (if first return ST State unit then setStatus ready else ret tt) s
                 = (Ok tt, sa))
      by (subst sa; destruct first; reflexivity).
    set (full' := full ++ toString (chunkText part)).
    destruct Hsa as (Hma & Hra & Haa).
    pose proof (showStreamed_run full' sa ms r Hma Hra Haa) as Eb. cbv zeta in Eb.
    set (st' := write (store sa) r (with_content (Text full') (deref (store sa) r))) in *.
    set (sb := with_trace _ _) in Eb.
    assert (Hsb : streaming sb ms r).
    { subst sb. repeat split; simpl; [exact Hma | subst st'; rewrite length_write; exact Hra |].
      subst st'. rewrite deref_write_same by exact Hra. exact Haa. }
    destruct (IH full' false sb ms r Hsb) as (s1 & E1 & Post).
    exists s1. split.
    + simpl streamLoop. unfold bind at 1. rewrite Ea. unfold bind at 1.
      fold full'. rewrite Eb. rewrite E1.
      subst full'. rewrite texts_cons, append_assoc. reflexivity.
    + destruct Post.
      assert (Sa : store sa = store s) by (subst sa; destruct first; reflexivity).
      assert (Ta : trace sa = (trace s ++ if first then [ObsStatus ready] else [])%list)
        by (subst sa; destruct first; simpl; rewrite ?app_nil_r; reflexivity).
      constructor.
      * rewrite sp_messages0. subst sb sa. destruct first; reflexivity.
      * rewrite sp_conversation0. subst sb sa. destruct first; reflexivity.
      * rewrite sp_timers0. subst sb sa. destruct first; reflexivity.
      * rewrite sp_input0. subst sb sa. destruct first; reflexivity.
      * rewrite sp_attachments0. subst sb sa. destruct first; reflexivity.
      * rewrite sp_session0. subst sb sa. destruct first; reflexivity.
      * rewrite sp_store0. replace (store sb) with st' by reflexivity.
        subst st'. rewrite Sa.
        rewrite texts_cons, <- append_assoc. fold full'.
        destruct rest.
        -- rewrite texts_nil, append_empty_r. reflexivity.
        -- rewrite deref_write_same by (rewrite <- Sa; exact Hra).
           rewrite write_write. reflexivity.
      * rewrite sp_status0.
        replace (status sb) with (status sa) by reflexivity.
        subst sa. destruct first, rest; reflexivity.
      * rewrite sp_shown0.
        replace (trace sb) with (trace sa ++ [ObsMessages (resolve st' (messages sa))])%list
          by reflexivity.
        rewrite Ta, !shown_app, !map_app.
        replace (shown (if first then [ObsStatus ready] else [])) with (@nil (list Message))
          by (destruct first; reflexivity).
        simpl shown.
        change (map lastContent (@nil (list Message))) with (@nil (option MessageContent)).
        change (map lastContent [resolve st' (messages sa)])
          with [lastContent (resolve st' (messages sa))].
        rewrite app_nil_r, Hma, resolve_app.
        change (resolve st' [r]) with [deref st' r].
        rewrite lastContent_snoc.
        subst st'. rewrite deref_write_same by exact Hra.
        change (content (with_content (Text full') (deref (store sa) r))) with (Text full').
        rewrite <- app_assoc. f_equal.
        change (length (part :: rest)) with (S (length rest)).
        change (seq 1 (S (length rest))) with (1%nat :: seq 2 (length rest)).
        rewrite map_cons.
        change (firstn 1 (part :: rest)) with [part].
        rewrite texts_cons, texts_nil, append_empty_r. fold full'.
        simpl app. f_equal.
        rewrite <- (seq_shift (length rest) 1), map_map. apply map_ext. intros k.
        change (firstn (S k) (part :: rest)) with (part :: firstn k rest).
        rewrite texts_cons, <- append_assoc. reflexivity.
      * rewrite sp_statuses0.
        replace (trace sb) with (trace sa ++ [ObsMessages (resolve st' (messages sa))])%list
          by reflexivity.
        rewrite Ta, !statuses_app. simpl. rewrite !app_nil_r.
        destruct first, rest; simpl; rewrite ?app_nil_r; reflexivity.
      * rewrite sp_calls0.
        replace (trace sb) with (trace sa ++ [ObsMessages (resolve st' (messages sa))])%list
          by reflexivity.
        rewrite Ta, !calls_app. destruct first; simpl; rewrite !app_nil_r; reflexivity.
Qed.

(** ** The upload leaves the conversation alone *)

Lemma upload_frame_refl s : upload_frame s s.
Proof. constructor; try reflexivity. exists []. rewrite app_nil_r. auto. Qed.

Lemma upload_frame_trans s s1 s2 :
  upload_frame s s1 -> upload_frame s1 s2 -> upload_frame s s2.
Proof.
  intros [] []. constructor; try congruence.
  destruct up_trace0 as (ws & E & F), up_trace1 as (ws' & E' & F').
  exists (ws ++ ws')%list. rewrite E', E, app_assoc. split; [reflexivity|].
  apply Forall_app; auto.
Qed.

Lemma uploadLoop_frame P fsys files : forall uploaded s,
  upload_frame s (snd (uploadLoop P fsys files uploaded s)).
Proof.
  induction files as [|a files IH]; intros uploaded s; simpl.
  - apply upload_frame_refl.
  - destruct (att_file a) as [file|]; [|apply IH].
    unfold generateTempFilename, draw, bind, ret, observe, modify, lift. simpl.
    match goal with
    | |- context [fs_write fsys ?n file] =>
        set (tempName := n); destruct (fs_write fsys tempName file) as [path|e]
    end.
    + eapply upload_frame_trans; [|apply IH].
      constructor; try reflexivity. simpl.
      exists [ObsWrite tempName file]. split; [reflexivity|]. repeat constructor.
    + simpl. constructor; try reflexivity. simpl.
      exists [ObsWrite tempName file]. split; [reflexivity|]. repeat constructor.
Qed.

Lemma uploadTurn_frame P puter atts s :
  upload_frame s (snd (uploadTurn P puter atts s)).
Proof.
  unfold uploadTurn. destruct atts; [apply upload_frame_refl|].
  unfold uploadAttachments. destruct (puter_fs puter); [apply uploadLoop_frame|].
  apply upload_frame_refl.
Qed.

Lemma uploadTurn_frame_of P puter atts s r s1 :
  uploadTurn P puter atts s = (r, s1) -> upload_frame s s1.
Proof. intros H. pose proof (uploadTurn_frame P puter atts s) as F. rewrite H in F. exact F. Qed.

Lemma writes_shown ws : Forall is_write ws -> shown ws = [].
Proof. induction 1 as [|[] ws H _ IH]; simpl in *; try contradiction; auto. Qed.

Lemma writes_statuses ws : Forall is_write ws -> statuses ws = [].
Proof. induction 1 as [|[] ws H _ IH]; simpl in *; try contradiction; auto. Qed.

Lemma upload_frame_shown s s1 : upload_frame s s1 -> shown (trace s1) = shown (trace s).
Proof.
  intros [_ _ _ _ _ _ _ (ws & -> & F)]. rewrite shown_app, (writes_shown ws F), app_nil_r.
  reflexivity.
Qed.

Lemma upload_frame_statuses s s1 :
  upload_frame s s1 -> statuses (trace s1) = statuses (trace s).
Proof.
  intros [_ _ _ _ _ _ _ (ws & -> & F)]. rewrite statuses_app, (writes_statuses ws F), app_nil_r.
  reflexivity.
Qed.

Lemma upload_frame_wf s s1 : upload_frame s s1 -> wf s -> wf s1.
Proof. intros [] [? ?]. split; congruence. Qed.

Lemma upload_frame_displayLog s s1 : upload_frame s s1 -> displayLog s1 = displayLog s.
Proof. intros []. unfold displayLog. congruence. Qed.

Lemma upload_frame_apiLog s s1 : upload_frame s s1 -> apiLog s1 = apiLog s.
Proof. intros []. unfold apiLog. congruence. Qed.



Lemma uploadTurn_without_storage P puter atts s :
  puter_fs puter = None -> snd (uploadTurn P puter atts s) = s.
Proof.
  intros H. unfold uploadTurn, uploadAttachments. rewrite H. destruct atts; reflexivity.
Qed.

(** The facts of a [stream_post] and of an [upload_frame], under the
    names of their fields. *)
Ltac destruct_post H :=
  destruct H as [sp_messages sp_conversation sp_timers sp_input sp_attachments
                 sp_session sp_store sp_status sp_shown sp_statuses sp_calls].

Ltac destruct_frame H :=
  destruct H as [up_messages up_input up_status up_conversation up_attachments
                 up_store up_timers up_trace].

(** ** The straight-line parts of a turn *)

Lemma sendMessage_begin_run text atts s :
  sendMessage_begin text atts s = (Ok tt, began text atts s).
Proof. reflexivity. Qed.

Lemma askModel_run model_id sdk text uploaded s :
  let s1 := asked model_id (buildUserMessageContent text uploaded) s in
  askModel model_id sdk text uploaded s
  = (ai_chat sdk (apiLog s1) (chatOptions model_id), s1).
Proof. reflexivity. Qed.

Lemma showPlaceholder_run s : showPlaceholder s = (Ok tt, placed s).
Proof. reflexivity. Qed.

Lemma settle_run full s : settle full s = (Ok tt, settled full s).
Proof. reflexivity. Qed.

Lemma sendMessage_catch_run P err s : sendMessage_catch P err s = (Ok tt, failed P err s).
Proof. reflexivity. Qed.

Lemma sendVideo_run sdk text atts s :
  let prompt := videoPrompt text atts in
  let options := videoOptions atts in
  let s1 := with_trace (trace s ++ [ObsTxt2vid prompt options]) s in
  sendVideo sdk text atts s
  = match ai_txt2vid sdk prompt options with
    | Ok videoUrl => (Ok tt, videoed videoUrl s1)
    | Throw e => (Throw e, s1)
    end.
Proof.
  simpl. unfold sendVideo, bind, observe, modify, lift. simpl.
  destruct (ai_txt2vid sdk (videoPrompt text atts) (videoOptions atts)); reflexivity.
Qed.

Lemma placed_streaming s : streaming (placed s) (messages s) (length (store s)).
Proof.
  repeat split; simpl.
  - rewrite length_app. simpl. lia.
  - rewrite deref_alloc_new. reflexivity.
Qed.

Lemma consume_payload_run v s :
  consume (Payload v) s
  = match extractContent v with
    | Ok answer =>
        (Ok answer, with_trace (trace s ++ [ObsStatus ready]) (with_status ready s))
    | Throw e => (Throw e, s)
    end.
Proof.
  unfold consume, bind, lift. destruct (extractContent v); reflexivity.
Qed.

Section TurnOutcome.

Variable P : Platform.
Variable puter : option PuterSDK.
Variable model_id : string.
Variable textToSend : string.
Variable attachmentsToSend : list Attachment.

(** Every run of the [try] block ends in one of the ways of [outcome]. *)
Lemma sendMessage_try_outcome s0 r s' :
  sendMessage_try P puter model_id textToSend attachmentsToSend s0 = (r, s') ->
  outcome P puter model_id textToSend attachmentsToSend s0 r s'.
Proof.
  unfold sendMessage_try. intros H.
  destruct puter as [sdk|];
    [|inversion H; subst; apply NoSdk; reflexivity].
  destruct (String.eqb model_id "video-generation") eqn:Ev.
  - rewrite sendVideo_run in H. cbv zeta in H.
    destruct (ai_txt2vid sdk _ _) as [videoUrl|e] eqn:Et; inversion H; subst.
    + eapply VideoMade; eauto.
    + eapply VideoFailed; eauto.
  - unfold sendChat in H. unfold bind at 1 in H.
    destruct (uploadTurn P (Some sdk) attachmentsToSend s0) as [[uploaded|e] s1] eqn:Eu;
      [|inversion H; subst; eapply UploadFailed; eauto].
    unfold bind at 1 in H. rewrite askModel_run in H. cbv zeta in H.
    set (s2 := asked model_id (buildUserMessageContent textToSend uploaded) s1) in *.
    destruct (ai_chat sdk (apiLog s2) (chatOptions model_id)) as [response|e] eqn:Ec;
      [|inversion H; subst; eapply ChatFailed; eauto].
    unfold bind at 1 in H. rewrite showPlaceholder_run in H.
    unfold bind at 1 in H. destruct response as [chunks failure|v].
    + unfold consume, bind at 1 in H.
      destruct (streamLoop_run chunks failure "" true (placed s2) _ _
                  (placed_streaming s2)) as (s4 & E4 & _).
      rewrite E4 in H. destruct failure as [e|].
      * inversion H; subst. eapply StreamFailed; eauto.
      * unfold ret in H. rewrite settle_run in H. inversion H; subst.
        eapply Streamed; eauto.
    + rewrite consume_payload_run in H.
      destruct (extractContent v) as [answer|e] eqn:Ex.
      * rewrite settle_run in H. injection H as <- <-. eapply Answered; eauto.
      * injection H as <- <-. eapply FallbackFailed; eauto.
Qed.

End TurnOutcome.

Lemma sendMessage_run P puter model s :
  refused s = false ->
  sendMessage P puter model s
  = match sendMessage_try P puter model (trim (input s)) (attachments s)
            (began (trim (input s)) (attachments s) s) with
    | (Ok a, s1) => (Ok a, s1)
    | (Throw e, s1) => (Ok tt, failed P e s1)
    end.
Proof.
  intros H. unfold sendMessage. rewrite H. unfold bind at 1.
  rewrite sendMessage_begin_run. unfold try_catch.
  destruct (sendMessage_try _ _ _ _ _ _) as [[[]|e] s1]; reflexivity.
Qed.

(** ** The logs after each part of a turn *)

Lemma began_wf text atts s : wf s -> wf (began text atts s).
Proof.
  intros [Hm Hc]. split; simpl; [apply valid_snoc; exact Hm | apply valid_alloc; exact Hc].
Qed.

Lemma began_displayLog text atts s :
  wf s ->
  displayLog (began text atts s)
  = (displayLog s ++ [userMessageDisplay text (sanitizeAttachments atts)])%list.
Proof.
  intros [Hm _]. unfold displayLog. simpl.
  rewrite resolve_app, (resolve_alloc _ _ _ Hm). simpl. rewrite deref_alloc_new. reflexivity.
Qed.

Lemma began_apiLog text atts s : wf s -> apiLog (began text atts s) = apiLog s.
Proof. intros [_ Hc]. unfold apiLog. simpl. apply resolve_alloc. exact Hc. Qed.

Lemma asked_wf model c s : wf s -> wf (asked model c s).
Proof.
  intros [Hm Hc]. split; simpl; [apply valid_alloc; exact Hm | apply valid_snoc; exact Hc].
Qed.

Lemma asked_displayLog model c s : wf s -> displayLog (asked model c s) = displayLog s.
Proof. intros [Hm _]. unfold displayLog. simpl. apply resolve_alloc. exact Hm. Qed.

Lemma asked_apiLog model c s :
  wf s -> apiLog (asked model c s) = (apiLog s ++ [userMessageForApi c])%list.
Proof.
  intros [_ Hc]. unfold apiLog. simpl.
  rewrite resolve_app, (resolve_alloc _ _ _ Hc). simpl. rewrite deref_alloc_new. reflexivity.
Qed.

Lemma placed_wf s : wf s -> wf (placed s).
Proof. intros [Hm Hc]. split; simpl; apply valid_snoc; assumption. Qed.

Lemma placed_displayLog s : wf s -> displayLog (placed s) = (displayLog s ++ [placeholder])%list.
Proof.
  intros [Hm _]. unfold displayLog. simpl.
  rewrite resolve_app, (resolve_alloc _ _ _ Hm). simpl. rewrite deref_alloc_new. reflexivity.
Qed.

Lemma placed_apiLog s : wf s -> apiLog (placed s) = (apiLog s ++ [placeholder])%list.
Proof.
  intros [_ Hc]. unfold apiLog. simpl.
  rewrite resolve_app, (resolve_alloc _ _ _ Hc). simpl. rewrite deref_alloc_new. reflexivity.
Qed.

Lemma failed_wf P e s : wf s -> wf (failed P e s).
Proof.
  intros [Hm Hc]. split; simpl; [apply valid_snoc; exact Hm | apply valid_alloc; exact Hc].
Qed.

Lemma failed_displayLog P e s :
  wf s -> displayLog (failed P e s) = (displayLog s ++ [errorMessage P e])%list.
Proof.
  intros [Hm _]. unfold displayLog. simpl.
  rewrite resolve_app, (resolve_alloc _ _ _ Hm). simpl. rewrite deref_alloc_new. reflexivity.
Qed.

Lemma failed_apiLog P e s : wf s -> apiLog (failed P e s) = apiLog s.
Proof. intros [_ Hc]. unfold apiLog. simpl. apply resolve_alloc. exact Hc. Qed.

Lemma failed_lastContent P e s :
  lastContent (displayLog (failed P e s))
  = Some (Text ("Error: " ++ toString (errorText P e))).
Proof.
  change (displayLog (failed P e s))
    with (resolve (store s ++ [errorMessage P e]) (messages s ++ [length (store s)])).
  rewrite resolve_app.
  change (resolve (store s ++ [errorMessage P e]) [length (store s)])
    with [deref (store s ++ [errorMessage P e]) (length (store s))].
  rewrite lastContent_snoc, deref_alloc_new. reflexivity.
Qed.

(** The logs of a state in which the placeholder was streamed into. *)
Lemma streamed_logs s2 s4 full chunks first :
  wf s2 ->
  stream_post (placed s2) s4 (length (store s2)) full chunks first ->
  wf s4
  /\ displayLog s4
     = (displayLog s2 ++ [match chunks with
                          | [] => placeholder
                          | _ => with_content (Text (full ++ texts chunks)) placeholder
                          end])%list
  /\ apiLog s4
     = (apiLog s2 ++ [match chunks with
                      | [] => placeholder
                      | _ => with_content (Text (full ++ texts chunks)) placeholder
                      end])%list.
Proof.
  intros Hwf Post. pose proof (placed_wf s2 Hwf) as [Hm Hc].
  destruct Hwf as [Hm2 Hc2]. destruct_post Post.
  assert (Hst : store s4
                = match chunks with
                  | [] => store (placed s2)
                  | _ => write (store (placed s2)) (length (store s2))
                           (with_content (Text (full ++ texts chunks)) placeholder)
                  end).
  { rewrite sp_store. destruct chunks; [reflexivity|].
    simpl store. rewrite deref_alloc_new. reflexivity. }
  split; [|split].
  - split; rewrite ?sp_messages, ?sp_conversation, Hst;
      destruct chunks; try apply valid_write; assumption.
  - unfold displayLog. rewrite sp_messages, Hst. simpl messages. rewrite resolve_app.
    destruct chunks.
    + simpl store. rewrite (resolve_alloc _ _ _ Hm2). simpl. rewrite deref_alloc_new.
      reflexivity.
    + simpl store. rewrite resolve_write by (apply valid_fresh; exact Hm2).
      rewrite (resolve_alloc _ _ _ Hm2). simpl.
      rewrite deref_write_same by (rewrite length_app; simpl; lia). reflexivity.
  - unfold apiLog. rewrite sp_conversation, Hst. simpl conversationRef. rewrite resolve_app.
    destruct chunks.
    + simpl store. rewrite (resolve_alloc _ _ _ Hc2). simpl. rewrite deref_alloc_new.
      reflexivity.
    + simpl store. rewrite resolve_write by (apply valid_fresh; exact Hc2).
      rewrite (resolve_alloc _ _ _ Hc2). simpl.
      rewrite deref_write_same by (rewrite length_app; simpl; lia). reflexivity.
Qed.

Lemma settled_lastContent full s ms r :
  messages s = (ms ++ [r])%list ->
  lastContent (displayLog (settled full s)) = Some (content (finalMessage full)).
Proof.
  intros Hm.
  change (displayLog (settled full s))
    with (resolve (store s ++ [finalMessage full]) (set_last (messages s) (length (store s)))).
  rewrite Hm, set_last_snoc, resolve_app.
  change (resolve (store s ++ [finalMessage full]) [length (store s)])
    with [deref (store s ++ [finalMessage full]) (length (store s))].
  rewrite lastContent_snoc, deref_alloc_new. reflexivity.
Qed.

Lemma settled_lastContent_api full s cs r :
  conversationRef s = (cs ++ [r])%list ->
  lastContent (apiLog (settled full s)) = Some (content (finalMessage full)).
Proof.
  intros Hm.
  change (apiLog (settled full s))
    with (resolve (store s ++ [finalMessage full])
            (set_last (conversationRef s) (length (store s)))).
  rewrite Hm, set_last_snoc, resolve_app.
  change (resolve (store s ++ [finalMessage full]) [length (store s)])
    with [deref (store s ++ [finalMessage full]) (length (store s))].
  rewrite lastContent_snoc, deref_alloc_new. reflexivity.
Qed.

Lemma resolve_settled st refs final log x :
  valid st refs ->
  resolve st refs = (log ++ [x])%list ->
  resolve (st ++ [final]) (set_last refs (length st)) = (log ++ [final])%list
  /\ valid (st ++ [final]) (set_last refs (length st)).
Proof.
  intros Hv Hr.
  destruct (exists_last (l := refs)) as (ms & r & ->).
  { intros ->. destruct log; discriminate. }
  rewrite resolve_app in Hr. apply app_inj_tail in Hr. destruct Hr as [Hr _].
  apply Forall_app in Hv. destruct Hv as [Hv _].
  rewrite set_last_snoc. split.
  - rewrite resolve_app, (resolve_alloc _ _ _ Hv), Hr. simpl. rewrite deref_alloc_new.
    reflexivity.
  - apply valid_snoc. exact Hv.
Qed.

Lemma settled_logs full s log x log' y :
  wf s ->
  displayLog s = (log ++ [x])%list ->
  apiLog s = (log' ++ [y])%list ->
  wf (settled full s)
  /\ displayLog (settled full s) = (log ++ [finalMessage full])%list
  /\ apiLog (settled full s) = (log' ++ [finalMessage full])%list.
Proof.
  intros [Hm Hc] Hd Ha.
  destruct (resolve_settled _ _ (finalMessage full) _ _ Hm Hd) as [Ed Vd].
  destruct (resolve_settled _ _ (finalMessage full) _ _ Hc Ha) as [Ea Va].
  split; [split; assumption|]. split; assumption.
Qed.

(** ** Streamed turns *)

(** The text of a chunk: the chunk if it is a string, its [text] field
    if that is a string, nothing if the chunk has no [text] field. *)
Lemma chunkText_cases :
  (forall text, toString (chunkText (VStr text)) = text)
  /\ (forall isError fields text,
        lookup_field "text" fields = Some (VStr text) ->
        toString (chunkText (VObj isError fields)) = text)
  /\ (forall isError fields,
        lookup_field "text" fields = None ->
        toString (chunkText (VObj isError fields)) = "")
  /\ toString (chunkText VNull) = ""
  /\ toString (chunkText VUndefined) = "".
Proof.
  repeat split; try reflexivity.
  - intros isError fields text H. unfold chunkText, or_else, getOpt. simpl. rewrite H.
    simpl. destruct (String.eqb_spec text ""); simpl; congruence.
  - intros isError fields H. unfold chunkText, or_else, getOpt. simpl. rewrite H.
    destruct isError; reflexivity.
Qed.

(** ** Failed turns *)

Lemma fireTimer_run t rest s :
  timers s = t :: rest ->
  exec fireTimer s
  = with_trace (trace s ++ [ObsStatus (sets_status t)])
      (with_status (sets_status t) (with_timers rest s)).
Proof.
  intros Ht. unfold exec, fireTimer, bind, gets. simpl. rewrite Ht. reflexivity.
Qed.

Lemma failed_turn_logs P puter model s e s1 :
  wf s ->
  outcome P puter model (trim (input s)) (attachments s)
    (began (trim (input s)) (attachments s) s) (Throw e) s1 ->
  wf s1
  /\ stopped s s1 (userMessageDisplay (trim (input s)) (sanitizeAttachments (attachments s))).
Proof.
  intros Hwf H.
  set (text := trim (input s)) in *. set (atts := attachments s) in *.
  pose proof (began_wf text atts s Hwf) as Hwf0.
  pose proof (began_displayLog text atts s Hwf) as Hd0.
  pose proof (began_apiLog text atts s Hwf) as Ha0.
  set (s0 := began text atts s) in *.
  remember (Throw e) as r eqn:Er.
  destruct H as [Hp | sdk' e' Hp Hm | sdk' url Hp Hm | sdk' e' s1 Hp Hm Hu
                  | sdk' up s1 e' Hp Hm Hu s2 Hc | sdk' up s1 ch e' s4 Hp Hm Hu s2 Hc Hl
                  | sdk' up s1 v e' Hp Hm Hu s2 Hc He | sdk' up s1 ch full s4 Hp Hm Hu s2 Hc Hl
                  | sdk' up s1 v a Hp Hm Hu s2 Hc He];
    try discriminate; try (injection Er as ->).
  - split; [exact Hwf0|]. apply BeforeAsking; assumption.
  - split; [exact Hwf0|]. apply BeforeAsking; assumption.
  - pose proof (uploadTurn_frame_of _ _ _ _ _ _ Hu) as F.
    split; [exact (upload_frame_wf _ _ F Hwf0)|].
    apply BeforeAsking;
      [rewrite (upload_frame_apiLog _ _ F) | rewrite (upload_frame_displayLog _ _ F)];
      assumption.
  - pose proof (uploadTurn_frame_of _ _ _ _ _ _ Hu) as F.
    pose proof (upload_frame_wf _ _ F Hwf0) as Hwf1.
    split; [apply asked_wf; exact Hwf1|].
    apply WhileAsking with (apiContent := buildUserMessageContent text up).
    + subst s2. rewrite (asked_apiLog _ _ _ Hwf1), (upload_frame_apiLog _ _ F), Ha0.
      reflexivity.
    + subst s2. rewrite (asked_displayLog _ _ _ Hwf1), (upload_frame_displayLog _ _ F).
      exact Hd0.
  - pose proof (uploadTurn_frame_of _ _ _ _ _ _ Hu) as F.
    pose proof (upload_frame_wf _ _ F Hwf0) as Hwf1.
    pose proof (asked_wf model (buildUserMessageContent text up) s1 Hwf1) as Hwf2.
    fold s2 in Hwf2.
    destruct (streamLoop_run ch (Some e) "" true (placed s2) _ _ (placed_streaming s2))
      as (s4' & E4 & Post).
    rewrite Hl in E4. injection E4 as <-.
    destruct (streamed_logs s2 s4 "" ch true Hwf2 Post) as (Hwf4 & Hd4 & Ha4).
    split; [exact Hwf4|].
    apply WhileAnswering with (apiContent := buildUserMessageContent text up)
                              (partial := texts ch).
    + rewrite Ha4. subst s2.
      rewrite (asked_apiLog _ _ _ Hwf1), (upload_frame_apiLog _ _ F), Ha0, <- app_assoc.
      destruct ch; reflexivity.
    + rewrite Hd4. subst s2.
      rewrite (asked_displayLog _ _ _ Hwf1), (upload_frame_displayLog _ _ F), Hd0,
        <- app_assoc.
      destruct ch; reflexivity.
  - pose proof (uploadTurn_frame_of _ _ _ _ _ _ Hu) as F.
    pose proof (upload_frame_wf _ _ F Hwf0) as Hwf1.
    pose proof (asked_wf model (buildUserMessageContent text up) s1 Hwf1) as Hwf2.
    fold s2 in Hwf2.
    split; [apply placed_wf; exact Hwf2|].
    apply WhileAnswering with (apiContent := buildUserMessageContent text up)
                              (partial := "").
    + rewrite (placed_apiLog _ Hwf2). subst s2.
      rewrite (asked_apiLog _ _ _ Hwf1), (upload_frame_apiLog _ _ F), Ha0, <- app_assoc.
      reflexivity.
    + rewrite (placed_displayLog _ Hwf2). subst s2.
      rewrite (asked_displayLog _ _ _ Hwf1), (upload_frame_displayLog _ _ F), Hd0,
        <- app_assoc.
      reflexivity.
Qed.

(** ** Completed turns *)

Lemma completed_turn_logs P puter model s s' :
  wf s ->
  outcome P puter model (trim (input s)) (attachments s)
    (began (trim (input s)) (attachments s) s) (Ok tt) s' ->
  wf s'
  /\ completed model s s'
       (userMessageDisplay (trim (input s)) (sanitizeAttachments (attachments s))).
Proof.
  intros Hwf H.
  set (text := trim (input s)) in *. set (atts := attachments s) in *.
  pose proof (began_wf text atts s Hwf) as Hwf0.
  pose proof (began_displayLog text atts s Hwf) as Hd0.
  pose proof (began_apiLog text atts s Hwf) as Ha0.
  set (s0 := began text atts s) in *.
  remember (Ok tt) as r eqn:Er.
  destruct H as [Hp | sdk' e' Hp Hm | sdk' url Hp Hm Ht | sdk' e' s1 Hp Hm Hu
                  | sdk' up s1 e' Hp Hm Hu s2 Hc | sdk' up s1 ch e' s4 Hp Hm Hu s2 Hc Hl
                  | sdk' up s1 v e' Hp Hm Hu s2 Hc He | sdk' up s1 ch full s4 Hp Hm Hu s2 Hc Hl
                  | sdk' up s1 v a Hp Hm Hu s2 Hc He];
    try discriminate.
  - destruct Hwf0 as [Hm0 Hc0]. split; [split; simpl; apply valid_snoc; assumption|].
    apply VideoTurn with (videoUrl := url); [exact Hm| |].
    + unfold displayLog in *. simpl in *.
      rewrite resolve_app, (resolve_alloc _ _ _ Hm0), Hd0. simpl. rewrite deref_alloc_new.
      rewrite <- app_assoc. reflexivity.
    + unfold apiLog in *. simpl in *.
      rewrite resolve_app, (resolve_alloc _ _ _ Hc0), Ha0. simpl. rewrite deref_alloc_new.
      reflexivity.
  - pose proof (uploadTurn_frame_of _ _ _ _ _ _ Hu) as F.
    pose proof (upload_frame_wf _ _ F Hwf0) as Hwf1.
    pose proof (asked_wf model (buildUserMessageContent text up) s1 Hwf1) as Hwf2.
    fold s2 in Hwf2.
    destruct (streamLoop_run ch None "" true (placed s2) _ _ (placed_streaming s2))
      as (s4' & E4 & Post).
    rewrite Hl in E4. injection E4 as -> <-.
    destruct (streamed_logs s2 s4 "" ch true Hwf2 Post) as (Hwf4 & Hd4 & Ha4).
    destruct (settled_logs (VStr (texts ch)) s4 _ _ _ _ Hwf4 Hd4 Ha4) as (Hwf5 & Hd5 & Ha5).
    split; [exact Hwf5|].
    apply ChatTurn with (apiContent := buildUserMessageContent text up)
                        (fullContent := VStr (texts ch)); [exact Hm| |].
    + rewrite Hd5. subst s2.
      rewrite (asked_displayLog _ _ _ Hwf1), (upload_frame_displayLog _ _ F), Hd0,
        <- app_assoc. reflexivity.
    + rewrite Ha5. subst s2.
      rewrite (asked_apiLog _ _ _ Hwf1), (upload_frame_apiLog _ _ F), Ha0, <- app_assoc.
      reflexivity.
  - pose proof (uploadTurn_frame_of _ _ _ _ _ _ Hu) as F.
    pose proof (upload_frame_wf _ _ F Hwf0) as Hwf1.
    pose proof (asked_wf model (buildUserMessageContent text up) s1 Hwf1) as Hwf2.
    fold s2 in Hwf2.
    pose proof (placed_wf s2 Hwf2) as Hwf3.
    destruct (settled_logs a (with_trace (trace (placed s2) ++ [ObsStatus ready])
                                (with_status ready (placed s2)))
                _ _ _ _ Hwf3 (placed_displayLog s2 Hwf2) (placed_apiLog s2 Hwf2))
      as (Hwf5 & Hd5 & Ha5).
    split; [exact Hwf5|].
    apply ChatTurn with (apiContent := buildUserMessageContent text up) (fullContent := a);
      [exact Hm| |].
    + rewrite Hd5. subst s2.
      rewrite (asked_displayLog _ _ _ Hwf1), (upload_frame_displayLog _ _ F), Hd0,
        <- app_assoc. reflexivity.
    + rewrite Ha5. subst s2.
      rewrite (asked_apiLog _ _ _ Hwf1), (upload_frame_apiLog _ _ F), Ha0, <- app_assoc.
      reflexivity.
Qed.

(** A turn of a chat model that completes leaves its user message and
    its assistant message, in this order, at the end of both logs. *)
Lemma chat_turn_synchronized P puter model s :
  wf s ->
  refused s = false ->
  String.eqb model "video-generation" = false ->
  fst (sendMessage_try P puter model (trim (input s)) (attachments s)
         (exec (sendMessage_begin (trim (input s)) (attachments s)) s)) = Ok tt ->
  let s' := exec (sendMessage P puter model) s in
  exists apiContent fullContent,
    displayLog s'
    = (displayLog s ++ [userMessageDisplay (trim (input s))
                          (sanitizeAttachments (attachments s));
                        finalMessage fullContent])%list
    /\ apiLog s'
       = (apiLog s ++ [userMessageForApi apiContent; finalMessage fullContent])%list.
Proof.
  intros Hwf Hr Hmodel Hok s'. subst s'. unfold exec.
  rewrite (sendMessage_run P puter model s Hr).
  change (exec (sendMessage_begin (trim (input s)) (attachments s)) s)
    with (began (trim (input s)) (attachments s) s) in Hok.
  destruct (sendMessage_try _ _ _ _ _ _) as [r s1] eqn:E. simpl in Hok. subst r.
  pose proof (sendMessage_try_outcome _ _ _ _ _ _ _ _ E) as Hout.
  destruct (completed_turn_logs P puter model s s1 Hwf Hout)
    as (_ & [url Hv Hd Ha | c full _ Hd Ha]); [congruence|].
  exists c, full. simpl. auto.
Qed.

(** C4 (code bug): a turn that completes is to leave its user message
    and its assistant message in both logs.  On the video path the
    assistant message joins both logs, the user message the display log
    only: the return of line 561 comes before the only place where a
    user message joins the API log (line 582). *)
Theorem C4_video_turn_leaves_user_out_of_api_log :
  let puter := Some (Fixtures.sdk (Ok Fixtures.hello)) in
  let s' := exec (sendMessage Fixtures.platform puter "video-generation")
              (Fixtures.typed "a cat") in
  fst (sendMessage Fixtures.platform puter "video-generation" (Fixtures.typed "a cat")) = Ok tt
  /\ status s' = ready
  /\ displayLog s' = [userMessageDisplay "a cat" []; videoMessage "blob:video"]
  /\ apiLog s' = [videoMessage "blob:video"].
Proof. vm_compute. repeat split; reflexivity. Qed.

(** ** Sessions *)

Lemma deleteOne_frame fsys path s :
  exists s', deleteOne fsys path s = (Ok tt, s') /\ same_but_trace s s'.
Proof.
  unfold deleteOne, bind, observe, modify, ret. simpl.
  destruct (fs_delete fsys path) as [[]|e]; eexists; (split; [reflexivity|]);
    destruct s; reflexivity.
Qed.

Lemma deleteAll_frame fsys paths : forall s,
  exists s', forEachM (deleteOne fsys) paths s = (Ok tt, s') /\ same_but_trace s s'.
Proof.
  induction paths as [|p paths IH]; intros s; simpl.
  - exists s. split; [reflexivity|]. destruct s; reflexivity.
  - destruct (deleteOne_frame fsys p s) as (s1 & E1 & F1).
    destruct (IH s1) as (s2 & E2 & F2).
    exists s2. unfold bind. rewrite E1, E2. split; [reflexivity|].
    unfold same_but_trace in *. rewrite <- F1 at 2. rewrite <- F2.
    destruct s2; reflexivity.
Qed.

Lemma handle_quiet P puter model ev s :
  ev <> Submitted -> ev <> TimerFired -> quiet s (exec (handle P puter model ev) s).
Proof.
  intros Hsend Htimer. unfold exec.
  destruct (handle P puter model ev s) as [r s'] eqn:E. simpl.
  destruct ev as [text|files|id| | |]; try congruence; unfold handle in E.
  - inversion E; subst. constructor; auto.
  - unfold addAttachments in E. destruct files as [|f files].
    + inversion E; subst. constructor; auto.
    + unfold bind, gets in E. simpl in E.
      destruct (addLoop P attachmentConfig (nonce s) files _) as [adds errs cnt].
      simpl in E. destruct adds, errs; inversion E; subst; constructor; auto.
  - unfold removeAttachment, bind, gets in E. simpl in E.
    destruct (find _ (attachments s)) as [target|];
      [destruct (att_previewUrl target) as [url|]; [destruct (nonempty url)|]|];
      inversion E; subst; constructor; auto.
  - unfold cleanupSessionFiles in E. destruct (puter_fs puter) as [fsys|].
    + unfold bind, gets in E. simpl in E.
      destruct (deleteAll_frame fsys (sessionFilesRef s) s) as (s1 & E1 & F).
      rewrite E1 in E. inversion E; subst. unfold same_but_trace in F. rewrite <- F.
      constructor; simpl; auto.
    + inversion E; subst. constructor; auto.
Qed.

Lemma handle_keeps_logs P puter model ev s :
  ev <> Submitted ->
  let s' := exec (handle P puter model ev) s in
  messages s' = messages s /\ conversationRef s' = conversationRef s /\ store s' = store s.
Proof.
  intros Hev. destruct ev as [text|files|id| | |];
    try (match goal with
         | |- context [handle _ _ _ ?ev] =>
             destruct (handle_quiet P puter model ev s ltac:(discriminate) ltac:(discriminate))
         end; cbv zeta; auto).
  - destruct (Hev eq_refl).
  - unfold exec, handle, fireTimer, bind, gets. simpl.
    destruct (timers s); repeat split; reflexivity.
Qed.

Lemma sendMessage_wf P puter model s : wf s -> wf (exec (sendMessage P puter model) s).
Proof.
  intros Hwf. destruct (refused s) eqn:Hr.
  - unfold exec, sendMessage. rewrite Hr. exact Hwf.
  - unfold exec. rewrite (sendMessage_run P puter model s Hr).
    destruct (sendMessage_try _ _ _ _ _ _) as [[[]|e] s1] eqn:E;
      apply sendMessage_try_outcome in E.
    + apply (completed_turn_logs P puter model s s1 Hwf E).
    + apply failed_wf. apply (failed_turn_logs P puter model s e s1 Hwf E).
Qed.

Lemma handle_wf P puter model ev s : wf s -> wf (exec (handle P puter model ev) s).
Proof.
  intros Hwf. destruct ev as [text|files|id| | |];
    try (match goal with
         | |- context [handle _ _ _ ?ev] =>
             destruct (handle_keeps_logs P puter model ev s ltac:(discriminate))
               as (Hm & Hc & Hs)
         end;
         destruct Hwf as [Vm Vc]; split; rewrite ?Hm, ?Hc, Hs; assumption).
  apply sendMessage_wf. exact Hwf.
Qed.


Lemma sendMessage_without_storage P puter model s :
  puter_fs puter = None ->
  sessionFilesRef (exec (sendMessage P puter model) s) = sessionFilesRef s.
Proof.
  intros Hfs. destruct (refused s) eqn:Hr.
  - unfold exec, sendMessage. rewrite Hr. reflexivity.
  - unfold exec. rewrite (sendMessage_run P puter model s Hr).
    set (s0 := began (trim (input s)) (attachments s) s).
    assert (H0 : sessionFilesRef s0 = sessionFilesRef s) by reflexivity.
    assert (G : forall r s1,
               outcome P puter model (trim (input s)) (attachments s) s0 r s1 ->
               sessionFilesRef s1 = sessionFilesRef s0).
    { intros r s1 H.
      destruct H as [Hp | sdk' e' Hp Hm | sdk' url Hp Hm Ht | sdk' e' s1 Hp Hm Hu
                  | sdk' up s1 e' Hp Hm Hu s2 Hc | sdk' up s1 ch e' s4 Hp Hm Hu s2 Hc Hl
                  | sdk' up s1 v e' Hp Hm Hu s2 Hc He | sdk' up s1 ch full s4 Hp Hm Hu s2 Hc Hl
                  | sdk' up s1 v a Hp Hm Hu s2 Hc He];
        try reflexivity;
        pose proof (uploadTurn_without_storage P puter (attachments s) s0 Hfs) as Eu;
        rewrite Hu in Eu; simpl in Eu; subst s1; try reflexivity.
      - destruct (streamLoop_run ch (Some e') "" true (placed s2) _ _ (placed_streaming s2))
          as (s4' & E4 & Post).
        rewrite Hl in E4. injection E4 as <-. destruct_post Post. rewrite sp_session. reflexivity.
      - destruct (streamLoop_run ch None "" true (placed s2) _ _ (placed_streaming s2))
          as (s4' & E4 & Post).
        rewrite Hl in E4. injection E4 as -> <-. destruct_post Post. simpl. rewrite sp_session.
        reflexivity. }
    destruct (sendMessage_try _ _ _ _ _ _) as [[[]|e] s1] eqn:E;
      apply sendMessage_try_outcome in E; apply G in E; simpl; congruence.
Qed.

Lemma handle_recorded_with_storage P puter model ev s :
  recorded_with_storage puter s ->
  recorded_with_storage puter (exec (handle P puter model ev) s).
Proof.
  intros Hinv Hfs. specialize (Hinv Hfs).
  destruct ev as [text|files|id| | |];
    try (match goal with
         | |- context [handle _ _ _ ?ev] =>
             destruct (handle_quiet P puter model ev s ltac:(discriminate) ltac:(discriminate))
               as [_ _ _ _ _ [Hq|Hq]]
         end; congruence).
  - change (exec (handle P puter model Submitted) s) with (exec (sendMessage P puter model) s).
    rewrite (sendMessage_without_storage P puter model s Hfs). exact Hinv.
  - unfold exec, handle, fireTimer, bind, gets. simpl. destruct (timers s); exact Hinv.
Qed.

Lemma reachable_recorded_with_storage P puter model evs :
  recorded_with_storage puter (run P puter model evs initialState).
Proof.
  assert (G : forall s, recorded_with_storage puter s ->
                        recorded_with_storage puter (run P puter model evs s)).
  { induction evs as [|ev evs IH]; intros s H; [exact H|].
    apply IH. apply handle_recorded_with_storage. exact H. }
  apply G. intros _. reflexivity.
Qed.

(** * The component on the page *)

(** ** What an update changes *)

Ltac destruct_kept H :=
  destruct H as [k_messages k_conversation k_store k_timers k_session k_calls].

Lemma kept_refl s : kept s s.
Proof. constructor; reflexivity. Qed.

Lemma kept_trans s s1 s2 : kept s s1 -> kept s1 s2 -> kept s s2.
Proof. intros [] []. constructor; congruence. Qed.

Lemma addAttachments_kept P files s :
  exists s', addAttachments P files s = (Ok tt, s') /\ kept s s' /\ status s' = status s.
Proof.
  unfold addAttachments. destruct files as [|f files].
  - exists s. repeat split; reflexivity.
  - unfold bind at 1 2, gets at 1 2. cbv beta iota.
    destruct (addAttachments_update P attachmentConfig (nonce s) (f :: files) (attachments s))
      as [next errs].
    destruct errs; eexists; (split; [reflexivity|]); split;
      try reflexivity; constructor; simpl; rewrite ?calls_app; simpl;
      rewrite ?app_nil_r; reflexivity.
Qed.

Lemma removeAttachment_kept id s :
  exists s', removeAttachment id s = (Ok tt, s') /\ kept s s' /\ status s' = status s.
Proof.
  unfold removeAttachment, bind, gets. simpl.
  destruct (find _ (attachments s)) as [target|];
    [destruct (att_previewUrl target) as [url|]; [destruct (nonempty url)|]|];
    eexists; (split; [reflexivity|]); split; try reflexivity;
    constructor; simpl; rewrite ?calls_app; simpl; rewrite ?app_nil_r; reflexivity.
Qed.

Lemma In_removelast {A} (l : list A) x : In x (removelast l) -> In x l.
Proof.
  induction l as [|y l IH]; [intros []|].
  simpl. destruct l as [|z l]; [intros []|].
  intros [<-|H]; [left; reflexivity | right; apply IH; exact H].
Qed.

Lemma valid_set_last st refs r :
  valid st refs -> (r < length st)%nat -> valid st (set_last refs r).
Proof.
  intros V Hr. unfold set_last. destruct refs as [|x refs]; [constructor|].
  apply Forall_app. split; [|constructor; [exact Hr | constructor]].
  apply Forall_forall. intros y Hy. unfold valid in V. rewrite Forall_forall in V.
  apply V, In_removelast, Hy.
Qed.

Section Updates.

Variable P : Platform.

(** An inert update changes neither the messages nor what is queued
    or in flight. *)
Lemma applyUpdate_inert u p :
  inert u ->
  exists s',
    applyUpdate P u p = (Ok tt, with_component s' p)
    /\ kept (component p) s'
    /\ status s' = match u with SetStatus st => st | _ => status (component p) end.
Proof.
  intros Hu. destruct u as [x|x|files|id|st|refs|r|c|r]; try contradiction; simpl.
  - eexists. split; [reflexivity|]. split; [constructor|]; reflexivity.
  - eexists. split; [reflexivity|]. split; [constructor|]; reflexivity.
  - destruct (addAttachments_kept P files (component p)) as (s' & E & K & St).
    exists s'. unfold inComponent. rewrite E. auto.
  - destruct (removeAttachment_kept id (component p)) as (s' & E & K & St).
    exists s'. unfold inComponent. rewrite E. auto.
  - eexists. split; [reflexivity|]. split; [constructor|]; reflexivity.
Qed.

Lemma streamUpdater_run v s :
  streamUpdater v s
  = (Ok tt,
     match rev (messages s) with
     | [] => s
     | r :: _ =>
         if is_assistant (deref (store s) r)
         then with_store (write (store s) r
                            (with_content (contentOfValue v) (deref (store s) r))) s
         else s
     end).
Proof.
  unfold streamUpdater, bind, gets. simpl.
  destruct (rev (messages s)) as [|r rest]; [reflexivity|].
  destruct (is_assistant (deref (store s) r)); reflexivity.
Qed.

Lemma applyUpdate_inert_run u p :
  inert u ->
  exists s',
    applyUpdate P u p = (Ok tt, with_component s' p)
    /\ status s' = match u with SetStatus st => st | _ => status (component p) end
    /\ conversationRef s' = conversationRef (component p)
    /\ timers s' = timers (component p)
    /\ sessionFilesRef s' = sessionFilesRef (component p)
    /\ calls (trace s') = calls (trace (component p))
    /\ length (store s') = length (store (component p))
    /\ (wf (component p) -> update_ok (length (store (component p))) u -> wf s').
Proof.
  intros Hu. destruct (applyUpdate_inert u p Hu) as (s' & E & K & St).
  destruct_kept K. exists s'. split; [exact E|]. split; [exact St|].
  split; [exact k_conversation|]. split; [exact k_timers|]. split; [exact k_session|].
  split; [exact k_calls|]. split; [rewrite k_store; reflexivity|].
  intros [V1 V2] _. split; [rewrite k_messages, k_store | rewrite k_conversation, k_store];
    assumption.
Qed.

(** One update of any kind: it does not throw, and it leaves the refs,
    the timers, the number of objects and what is queued or in flight
    as they are. *)
Lemma applyUpdate_run u p :
  exists s',
    applyUpdate P u p = (Ok tt, with_component s' p)
    /\ status s' = match u with SetStatus st => st | _ => status (component p) end
    /\ conversationRef s' = conversationRef (component p)
    /\ timers s' = timers (component p)
    /\ sessionFilesRef s' = sessionFilesRef (component p)
    /\ calls (trace s') = calls (trace (component p))
    /\ length (store s') = length (store (component p))
    /\ (wf (component p) -> update_ok (length (store (component p))) u -> wf s').
Proof.
  destruct u as [x|x|files|id|st|refs|r|c|r];
    try (apply applyUpdate_inert_run; exact I).
  - eexists. split; [reflexivity|]. repeat (split; [reflexivity|]).
    intros [V1 V2] Hu. split; [exact Hu | exact V2].
  - eexists. split; [reflexivity|]. repeat (split; [reflexivity|]).
    intros [V1 V2] Hu. split; [|exact V2]. simpl. apply Forall_app. split; [exact V1|].
    constructor; [exact Hu | constructor].
  - simpl. unfold bind, readCell, gets, inComponent. rewrite streamUpdater_run.
    destruct (rev (messages (component p))) as [|r0 rest];
      [exists (component p); repeat (split; [reflexivity|]); auto|].
    destruct (is_assistant (deref (store (component p)) r0));
      [|exists (component p); repeat (split; [reflexivity|]); auto].
    eexists. split; [reflexivity|]. simpl. rewrite length_write.
    repeat (split; [reflexivity|]).
    intros [V1 V2] _. split; simpl; apply valid_write; assumption.
  - eexists. split; [reflexivity|]. repeat (split; [reflexivity|]).
    intros [V1 V2] Hu. split; [|exact V2]. simpl. apply valid_set_last; assumption.
Qed.

Lemma update_ok_mono n n' u : (n <= n')%nat -> update_ok n u -> update_ok n' u.
Proof.
  intros Hn. destruct u; simpl; auto; try lia.
  intros H. eapply Forall_impl; [|exact H]. simpl. intros; lia.
Qed.

(** The updates of a queue, applied one after the other. *)
Lemma applyAll_run q : forall p,
  exists s',
    applyAll P q p = (Ok tt, with_component s' p)
    /\ status s' = last_status q (status (component p))
    /\ conversationRef s' = conversationRef (component p)
    /\ timers s' = timers (component p)
    /\ sessionFilesRef s' = sessionFilesRef (component p)
    /\ calls (trace s') = calls (trace (component p))
    /\ length (store s') = length (store (component p))
    /\ (wf (component p) -> Forall (update_ok (length (store (component p)))) q -> wf s').
Proof.
  induction q as [|u q IH]; intros p.
  - exists (component p). split; [destruct p; reflexivity|].
    repeat (split; [reflexivity|]). auto.
  - destruct (applyUpdate_run u p) as (s1 & E1 & St1 & C1 & T1 & F1 & K1 & L1 & W1).
    destruct (IH (with_component s1 p)) as (s2 & E2 & St2 & C2 & T2 & F2 & K2 & L2 & W2).
    exists s2. simpl applyAll. unfold bind. rewrite E1, E2. simpl in *.
    split; [reflexivity|]. split.
    { rewrite St2, St1. destruct u; reflexivity. }
    repeat (split; [congruence|]).
    intros Hwf Hq. inversion Hq as [|? ? Hu Hq']; subst.
    apply W2; [apply W1; assumption|]. rewrite L1. exact Hq'.
Qed.

Lemma render_run p :
  exists s',
    render P p = (Ok tt, with_component s' (with_queue [] p))
    /\ status s' = last_status (queue p) (status (component p))
    /\ conversationRef s' = conversationRef (component p)
    /\ timers s' = timers (component p)
    /\ sessionFilesRef s' = sessionFilesRef (component p)
    /\ calls (trace s') = calls (trace (component p))
    /\ length (store s') = length (store (component p))
    /\ (page_wf p -> wf s').
Proof.
  destruct (applyAll_run (queue p) (with_queue [] p)) as (s' & E & H).
  exists s'. unfold render, bind, gets, modify. rewrite E. split; [reflexivity|].
  destruct H as (H1 & H2 & H3 & H4 & H5 & H6 & H7). repeat (split; [assumption|]).
  intros [W Q]. apply H7; assumption.
Qed.

End Updates.

(** ** The steps of a send *)

Ltac destruct_upload_step H :=
  destruct H as [us_queue us_cells us_flights us_messages us_conversation us_store
                 us_status us_timers us_input us_attachments].

Ltac run_page :=
  cbv [settle_flight resume catchError finish askChat callUpload start submit park
       timerFires window_puter newCell readCell writeCell enqueue inComponent
       alloc push_conversation observe setTimeout bind try_catch modify gets lift ret throw
       holding finished taken caught screened];
  simpl; rewrite <- ?app_assoc; simpl; try reflexivity.

Ltac page_steps :=
  unfold settle_flight, resume, catchError, finish, askChat, callUpload, start, submit, park,
    timerFires, window_puter, newCell, readCell, writeCell, enqueue, inComponent,
    generateTempFilename, draw, alloc, push_conversation, observe, setTimeout,
    bind, try_catch, modify, gets, lift, ret, throw.

Lemma upload_step_refl p : upload_step p p.
Proof. constructor; reflexivity. Qed.

Lemma upload_step_trans p p1 p2 : upload_step p p1 -> upload_step p1 p2 -> upload_step p p2.
Proof. intros [] []. constructor; congruence. Qed.

Section Steps.

Variable P : Platform.
Variable puter : option PuterSDK.
Variable model : string.

(** The loop of an upload stops at the write of the next file, or at
    the end of [uploadAttachments]; it never throws where it is. *)
Lemma uploadFrom_run text files : forall uploaded p,
  exists f p',
    uploadFrom P puter text files uploaded p = (Ok (Some f), p')
    /\ upload_step p p'
    /\ calls (trace (component p'))
       = (calls (trace (component p))
          ++ match f with
             | AwaitWrite _ a _ _ _ =>
                 match att_file a with
                 | Some file =>
                     [ObsWrite ("claude_upload_" ++ temp_stamp P (nonce (component p))
                                ++ extension (att_name a)) file]
                 | None => []
                 end
             | _ => []
             end)%list
    /\ sessionFilesRef (component p') = sessionFilesRef (component p)
    /\ match f with
       | AwaitWrite text' a settled rest up =>
           text' = text /\ up = uploaded
           /\ filter has_file files = a :: filter has_file rest
           /\ exists fsys file,
                puter_fs puter = Some fsys /\ att_file a = Some file
                /\ settled = fs_write fsys ("claude_upload_"
                                            ++ temp_stamp P (nonce (component p))
                                            ++ extension (att_name a)) file
       | AwaitUpload text' settled =>
           text' = text
           /\ ((filter has_file files = [] /\ settled = Ok uploaded)
               \/ (puter_fs puter = None /\ exists e, settled = Throw e))
       | _ => False
       end.
Proof.
  induction files as [|a files IH]; intros uploaded p.
  - exists (AwaitUpload text (Ok uploaded)), p. simpl.
    split; [reflexivity|]. split; [apply upload_step_refl|]. rewrite app_nil_r.
    repeat split; auto.
  - simpl uploadFrom. destruct (att_file a) as [file|] eqn:Ef.
    + assert (Hh : has_file a = true) by (unfold has_file; rewrite Ef; reflexivity).
      simpl filter. rewrite Hh.
      page_steps. simpl. destruct (puter_fs puter) as [fsys|] eqn:Efs.
      * eexists _, _. split; [reflexivity|]. simpl.
        split; [constructor; reflexivity|]. rewrite Ef, calls_app. simpl.
        split; [reflexivity|]. split; [reflexivity|].
        repeat split; auto. exists fsys, file. auto.
      * eexists _, _. split; [reflexivity|]. simpl.
        split; [constructor; reflexivity|]. rewrite app_nil_r.
        split; [reflexivity|]. split; [reflexivity|]. split; [reflexivity|].
        right. split; [reflexivity|]. eauto.
    + assert (Hh : has_file a = false) by (unfold has_file; rewrite Ef; reflexivity).
      simpl filter. rewrite Hh. apply IH.
Qed.

(** ** The references of a page stay valid *)

Lemma page_wf_initial : page_wf initialPage.
Proof. split; [apply wf_initial | constructor]. Qed.

Lemma queue_ok_alloc n q : Forall (update_ok n) q -> Forall (update_ok (S n)) q.
Proof. apply Forall_impl. intros u. apply update_ok_mono. lia. Qed.

Lemma upload_step_wf p p' : upload_step p p' -> page_wf p -> page_wf p'.
Proof.
  intros U [[V1 V2] Q]. destruct_upload_step U.
  split; [split|]; rewrite ?us_messages, ?us_conversation, us_store, ?us_queue; assumption.
Qed.

Lemma askChat_run sdk text uploaded p :
  puter = Some sdk ->
  let s1 := asked model (buildUserMessageContent text uploaded) (component p) in
  askChat puter model text uploaded p
  = (Ok (Some (AwaitChat (ai_chat sdk (apiLog s1) (chatOptions model)))),
     with_component s1 p).
Proof. intros ->. reflexivity. Qed.

Lemma askChat_without_sdk text uploaded p :
  puter = None ->
  exists e p', askChat puter model text uploaded p = (Throw e, p')
               /\ (page_wf p -> page_wf p').
Proof.
  intros ->. eexists _, _. split; [reflexivity|].
  intros [[V1 V2] Q]. split; [split|]; simpl.
  - apply valid_alloc. exact V1.
  - apply valid_snoc. exact V2.
  - rewrite length_app. simpl. rewrite Nat.add_1_r. apply queue_ok_alloc. exact Q.
Qed.

Lemma finish_run cell p : finish cell p = (Ok None, finished cell p).
Proof. run_page. Qed.

Lemma catchError_run e p : catchError P e p = (Ok None, caught P e p).
Proof. run_page. Qed.

Lemma resume_video url p :
  resume P puter model (AwaitVideo (Ok url)) p = (Ok None, screened url p).
Proof. run_page. Qed.

Lemma resume_stream chunks failure p :
  resume P puter model (AwaitChat (Ok (Stream chunks failure))) p
  = (Ok (Some (AwaitChunk (length (cells p)) chunks failure true)), holding p).
Proof. run_page. Qed.

Lemma resume_payload v p :
  resume P puter model (AwaitChat (Ok (Payload v))) p
  = match extractContent v with
    | Ok answer =>
        (Ok None,
         finished (length (cells p))
           (with_queue (queue (holding p) ++ [SetStatus ready])
              (with_cells (assign (cells (holding p)) (length (cells p)) answer)
                 (holding p))))
    | Throw e => (Throw e, holding p)
    end.
Proof.
  run_page; destruct (extractContent v); run_page.
Qed.

Lemma resume_chunk cell part rest failure first p :
  resume P puter model (AwaitChunk cell (part :: rest) failure first) p
  = (Ok (Some (AwaitChunk cell rest failure false)), taken cell part first p).
Proof. destruct first; run_page. Qed.

Lemma resume_end cell failure first p :
  resume P puter model (AwaitChunk cell [] failure first) p
  = match failure with
    | Some e => (Throw e, p)
    | None => (Ok None, finished cell p)
    end.
Proof. destruct failure; run_page. Qed.

Lemma resume_upload text uploaded p :
  resume P puter model (AwaitUpload text (Ok uploaded)) p
  = askChat puter model text uploaded p.
Proof.
  unfold resume, lift, bind, ret.
  destruct (askChat puter model text uploaded p) as [[next|e] q]; reflexivity.
Qed.

Lemma resume_write text a path rest uploaded p :
  resume P puter model (AwaitWrite text a (Ok path) rest uploaded) p
  = uploadFrom P puter text rest (uploaded ++ [uploadedAttachment a path])
      (with_component
         (with_sessionFilesRef (set_add path (sessionFilesRef (component p))) (component p))
         p).
Proof. reflexivity. Qed.

Lemma resume_write_rejected text a e rest uploaded p :
  resume P puter model (AwaitWrite text a (Throw e) rest uploaded) p
  = (Ok (Some (AwaitUpload text (Throw e))), p).
Proof. reflexivity. Qed.

Lemma resume_rejected f e p :
  match f with
  | AwaitVideo settled => settled = Throw e
  | AwaitUpload _ settled => settled = Throw e
  | AwaitChat settled => settled = Throw e
  | _ => False
  end ->
  resume P puter model f p = (Throw e, p).
Proof. destruct f; try contradiction; intros ->; reflexivity. Qed.

Ltac queue_ok :=
  rewrite ?length_app; simpl length; rewrite ?Nat.add_1_r;
  repeat (apply Forall_app; split);
  try (apply queue_ok_alloc; assumption); try assumption;
  repeat (constructor; simpl; try lia).

Lemma holding_wf p : page_wf p -> page_wf (holding p).
Proof.
  intros [[V1 V2] Q]. split; [split|]; simpl;
    [apply valid_alloc; exact V1 | apply valid_snoc; exact V2 | queue_ok].
Qed.

Lemma taken_wf cell part first p : page_wf p -> page_wf (taken cell part first p).
Proof.
  intros [[V1 V2] Q]. split; [split|]; simpl; try assumption.
  destruct first; queue_ok.
Qed.

Lemma finished_wf cell p : page_wf p -> page_wf (finished cell p).
Proof.
  intros [[V1 V2] Q]. split; [split|]; simpl.
  - apply valid_alloc. exact V1.
  - apply valid_set_last; [apply valid_alloc; exact V2|]. rewrite length_app. simpl. lia.
  - queue_ok.
Qed.

Lemma caught_wf e p : page_wf p -> page_wf (caught P e p).
Proof.
  intros [[V1 V2] Q]. split; [split|]; simpl;
    [apply valid_alloc; exact V1 | apply valid_alloc; exact V2 | queue_ok].
Qed.

Lemma screened_wf url p : page_wf p -> page_wf (screened url p).
Proof.
  intros [[V1 V2] Q]. split; [split|]; simpl;
    [apply valid_alloc; exact V1 | apply valid_snoc; exact V2 | queue_ok].
Qed.

Lemma asked_page_wf c p : page_wf p -> page_wf (with_component (asked model c (component p)) p).
Proof.
  intros [W Q]. split; [apply asked_wf; exact W|]. simpl. queue_ok.
Qed.

(** Whatever a send does when it is taken up again, the references
    stay valid. *)
Lemma resume_wf f p r p' :
  resume P puter model f p = (r, p') -> page_wf p -> page_wf p'.
Proof.
  intros E W.
  destruct f as [settled|text a settled rest up|text settled|settled|c chunks failure first].
  - destruct settled as [url|e].
    + rewrite resume_video in E. injection E as <- <-. apply screened_wf, W.
    + rewrite (resume_rejected _ e) in E by reflexivity. injection E as <- <-. exact W.
  - destruct settled as [path|e].
    + rewrite resume_write in E.
      match type of E with
      | uploadFrom _ _ _ _ ?u ?q = _ =>
          destruct (uploadFrom_run text rest u q) as (f' & q' & E' & U & _)
      end.
      rewrite E' in E. injection E as <- <-.
      apply (upload_step_wf _ _ U). destruct W as [[V1 V2] Q]. split; [split|]; assumption.
    + rewrite resume_write_rejected in E. injection E as <- <-. exact W.
  - destruct settled as [uploaded|e].
    + rewrite resume_upload in E.
      assert (Ep : (exists sdk, puter = Some sdk) \/ puter = None)
        by (destruct puter; eauto).
      destruct Ep as [[sdk Ep]|Ep].
      * rewrite (askChat_run sdk) in E by exact Ep. injection E as <- <-.
        apply asked_page_wf, W.
      * destruct (askChat_without_sdk text uploaded p Ep) as (e & q & E' & Wq).
        rewrite E' in E. injection E as <- <-. apply Wq, W.
    + rewrite (resume_rejected _ e) in E by reflexivity. injection E as <- <-. exact W.
  - destruct settled as [[chunks failure|v]|e].
    + rewrite resume_stream in E. injection E as <- <-. apply holding_wf, W.
    + rewrite resume_payload in E. destruct (extractContent v) as [answer|e];
        injection E as <- <-; [|apply holding_wf, W].
      apply finished_wf. pose proof (holding_wf p W) as [W1 Q1].
      split; [exact W1|]. simpl in *.
      apply Forall_app; split; [exact Q1 | repeat constructor].
    + rewrite (resume_rejected _ e) in E by reflexivity. injection E as <- <-. exact W.
  - destruct chunks as [|part rest].
    + rewrite resume_end in E. destruct failure as [e|]; injection E as <- <-;
        [exact W | apply finished_wf, W].
    + rewrite resume_chunk in E. injection E as <- <-. apply taken_wf, W.
Qed.

End Steps.

(** ** What a render shows *)

Section Rendering.

Variable P : Platform.

Lemma applyUpdate_exec u p :
  applyUpdate P u p = (Ok tt, with_component (component (exec (applyUpdate P u) p)) p).
Proof.
  destruct (applyUpdate_run P u p) as (s' & E & _). unfold exec. rewrite E. reflexivity.
Qed.

Lemma applyAll_exec q p :
  applyAll P q p = (Ok tt, with_component (component (exec (applyAll P q) p)) p).
Proof.
  destruct (applyAll_run P q p) as (s' & E & _). unfold exec. rewrite E. reflexivity.
Qed.

Lemma applyAll_cons u q p :
  exec (applyAll P (u :: q)) p
  = exec (applyAll P q) (with_component (component (exec (applyUpdate P u) p)) p).
Proof.
  unfold exec at 1. simpl applyAll. unfold bind. rewrite applyUpdate_exec. reflexivity.
Qed.

Lemma applyAll_app a : forall b p,
  exec (applyAll P (a ++ b)) p
  = exec (applyAll P b) (with_component (component (exec (applyAll P a) p)) p).
Proof.
  induction a as [|u a IH]; intros b p.
  - simpl app. replace (with_component (component (exec (applyAll P []) p)) p) with p;
      [reflexivity | destruct p; reflexivity].
  - simpl app. rewrite !applyAll_cons, IH. reflexivity.
Qed.

(** What is queued or in flight has no part in what an update does. *)
Lemma applyAll_queue q : forall p x,
  component (exec (applyAll P q) (with_queue x p))
  = component (exec (applyAll P q) p).
Proof.
  induction q as [|u q IH]; intros p x; [reflexivity|].
  rewrite !applyAll_cons.
  assert (Eu : component (exec (applyUpdate P u) (with_queue x p))
               = component (exec (applyUpdate P u) p)).
  { destruct u; try reflexivity; unfold exec, applyUpdate, inComponent; simpl.
    - destruct (addAttachments P files (component p)); reflexivity.
    - destruct (removeAttachment id (component p)); reflexivity.
    - unfold bind, readCell, gets. simpl. rewrite !streamUpdater_run. reflexivity. }
  rewrite Eu.
  exact (IH (with_component (component (exec (applyUpdate P u) p)) p) x).
Qed.

Lemma render_exec p :
  exec (render P) p
  = with_component (component (exec (applyAll P (queue p)) p)) (with_queue [] p).
Proof.
  unfold exec at 1, render, bind, gets, modify.
  rewrite (applyAll_exec (queue p) (with_queue [] p)). simpl.
  rewrite applyAll_queue. reflexivity.
Qed.

(** The messages and the objects after one update. *)
Lemma applyUpdate_effect u p :
  let s := component p in
  let s' := component (exec (applyUpdate P u) p) in
  messages s' = match u with
                | SetMessages refs => refs
                | AppendMessage r => (messages s ++ [r])%list
                | ReplaceLast r => set_last (messages s) r
                | _ => messages s
                end
  /\ store s' = match u with
                | StreamInto cell =>
                    match rev (messages s) with
                    | [] => store s
                    | r :: _ =>
                        if is_assistant (deref (store s) r)
                        then write (store s) r
                               (with_content (contentOfValue (nth cell (cells p) VUndefined))
                                  (deref (store s) r))
                        else store s
                    end
                | _ => store s
                end.
Proof.
  destruct u as [x|x|files|id|st|refs|r|c|r];
    try (split; reflexivity);
    try (match goal with
         | |- context [applyUpdate P ?u] =>
             destruct (applyUpdate_inert P u p I) as (s1 & E & K & _)
         end;
         unfold exec; rewrite E; destruct_kept K; split; assumption).
  unfold exec, applyUpdate, bind, readCell, gets, inComponent. rewrite streamUpdater_run.
  simpl. destruct (rev (messages (component p))) as [|r0 rest]; [split; reflexivity|].
  destruct (is_assistant (deref (store (component p)) r0)); split; reflexivity.
Qed.

Lemma applyUpdate_cells u p s :
  component (exec (applyUpdate P u) (with_component s p))
  = component (exec (applyUpdate P u)
                 {| component := s; queue := []; cells := cells p; flights := [] |}).
Proof.
  destruct u; try reflexivity; unfold exec, applyUpdate, inComponent; simpl.
  - destruct (addAttachments P files s); reflexivity.
  - destruct (removeAttachment id s); reflexivity.
  - unfold bind, readCell, gets. simpl. rewrite !streamUpdater_run. reflexivity.
Qed.

Lemma last_snoc_rev {A} (ms : list A) r : rev (ms ++ [r]) = r :: rev ms.
Proof. rewrite rev_app_distr. reflexivity. Qed.

Lemma below_set_last n refs r : below n refs -> (r < n)%nat -> below n (set_last refs r).
Proof.
  intros V Hr. unfold set_last. destruct refs as [|x refs]; [constructor|].
  apply Forall_app. split; [|constructor; [exact Hr | constructor]].
  apply Forall_forall. intros y Hy. unfold below in V. rewrite Forall_forall in V.
  apply V, In_removelast, Hy.
Qed.

Lemma below_last n refs r rest : below n refs -> rev refs = r :: rest -> (r < n)%nat.
Proof.
  intros V E. unfold below in V. rewrite Forall_forall in V. apply V.
  assert (H : In r (rev refs)) by (rewrite E; left; reflexivity).
  apply in_rev in H. exact H.
Qed.

(** Updates whose references lie below [n], applied to messages that
    lie below [n], leave the objects from [n] on as they are. *)
Lemma applyUpdate_below n u p :
  update_ok n u -> below n (messages (component p)) ->
  let s' := component (exec (applyUpdate P u) p) in
  below n (messages s')
  /\ length (store s') = length (store (component p))
  /\ forall i, (n <= i)%nat -> deref (store s') i = deref (store (component p)) i.
Proof.
  intros Hu Hm. destruct (applyUpdate_effect u p) as [Em Es]. cbv zeta in *.
  rewrite Em, Es. clear Em Es.
  destruct u as [x|x|files|id|st|refs|r|c|r]; simpl in Hu; auto.
  - split; [|auto]. apply Forall_app. split; [exact Hm | constructor; [exact Hu | constructor]].
  - split; [exact Hm|].
    destruct (rev (messages (component p))) as [|r0 rest] eqn:Er; [auto|].
    destruct (is_assistant (deref (store (component p)) r0)); [|auto].
    pose proof (below_last _ _ _ _ Hm Er) as Hr0.
    split; [apply length_write|]. intros i Hi. apply deref_write_other. lia.
  - split; [|auto]. apply below_set_last; assumption.
Qed.

Lemma applyAll_below n q : forall p,
  Forall (update_ok n) q -> below n (messages (component p)) ->
  let s' := component (exec (applyAll P q) p) in
  below n (messages s')
  /\ length (store s') = length (store (component p))
  /\ forall i, (n <= i)%nat -> deref (store s') i = deref (store (component p)) i.
Proof.
  induction q as [|u q IH]; intros p Hq Hm; [auto|].
  inversion Hq as [|? ? Hu Hq']; subst.
  rewrite applyAll_cons.
  destruct (applyUpdate_below n u p Hu Hm) as (B1 & L1 & D1).
  destruct (IH (with_component (component (exec (applyUpdate P u) p)) p) Hq' B1)
    as (B2 & L2 & D2).
  cbv zeta. split; [exact B2|]. split; [rewrite L2; exact L1|].
  intros i Hi. rewrite (D2 i Hi). apply D1, Hi.
Qed.

(** Inert updates leave the messages and their objects alone. *)
Lemma applyAll_inert q : forall p,
  Forall inert q ->
  let s' := component (exec (applyAll P q) p) in
  messages s' = messages (component p) /\ store s' = store (component p).
Proof.
  induction q as [|u q IH]; intros p Hq; [auto|].
  inversion Hq as [|? ? Hu Hq']; subst.
  rewrite applyAll_cons.
  destruct (IH (with_component (component (exec (applyUpdate P u) p)) p) Hq') as [E1 E2].
  destruct (applyUpdate_effect u p) as [Em Es]. cbv zeta in *.
  rewrite E1, E2. simpl. rewrite Em, Es. destruct u; try contradiction; auto.
Qed.

(** The updates of a stream, applied to a display log that ends with
    the stream's message: the message has the buffer's value if one of
    them is the stream's updater, and nothing else changes. *)
Lemma applyAll_stream c q : forall p ms r,
  Forall (of_stream c) q ->
  messages (component p) = (ms ++ [r])%list ->
  (r < length (store (component p)))%nat ->
  is_assistant (deref (store (component p)) r) = true ->
  let s' := component (exec (applyAll P q) p) in
  messages s' = (ms ++ [r])%list
  /\ length (store s') = length (store (component p))
  /\ is_assistant (deref (store s') r) = true
  /\ (forall r', r' <> r -> deref (store s') r' = deref (store (component p)) r')
  /\ ((In (StreamInto c) q
       /\ content (deref (store s') r) = contentOfValue (nth c (cells p) VUndefined))
      \/ (~ In (StreamInto c) q /\ store s' = store (component p))).
Proof.
  induction q as [|u q IH]; intros p ms r Hq Hm Hr Ha.
  - cbv zeta. simpl. repeat (split; [auto|]). right. auto.
  - inversion Hq as [|? ? Hu Hq']; subst.
    rewrite applyAll_cons.
    destruct (applyUpdate_effect u p) as [Em Es]. cbv zeta in Em, Es.
    set (p1 := with_component (component (exec (applyUpdate P u) p)) p).
    destruct Hu as [->|Hu].
    + rewrite Hm, last_snoc_rev, Ha in Es. rewrite Hm in Em.
      change (component (exec (applyUpdate P (StreamInto c)) p)) with (component p1) in Em, Es.
      assert (Ha1 : is_assistant (deref (store (component p1)) r) = true).
      { rewrite Es, deref_write_same by exact Hr. exact Ha. }
      assert (Hr1 : (r < length (store (component p1)))%nat).
      { rewrite Es, length_write. exact Hr. }
      destruct (IH p1 ms r Hq' Em Hr1 Ha1) as (M2 & L2 & A2 & O2 & C2).
      cbv zeta. split; [exact M2|]. split; [rewrite L2, Es; apply length_write|].
      split; [exact A2|]. split.
      { intros r' Hr'. rewrite (O2 r' Hr'), Es.
        apply deref_write_other. congruence. }
      left. split; [left; reflexivity|]. destruct C2 as [[_ C2]|[_ C2]]; [exact C2|].
      rewrite C2, Es, deref_write_same by exact Hr. reflexivity.
    + assert (E1 : messages (component p1) = (ms ++ [r])%list
                   /\ store (component p1) = store (component p)).
      { change (component p1) with (component (exec (applyUpdate P u) p)).
        rewrite Em, Es. destruct u; try contradiction; auto. }
      destruct E1 as [Em1 Es1].
      assert (Ha1 : is_assistant (deref (store (component p1)) r) = true)
        by (rewrite Es1; exact Ha).
      assert (Hr1 : (r < length (store (component p1)))%nat) by (rewrite Es1; exact Hr).
      destruct (IH p1 ms r Hq' Em1 Hr1 Ha1) as (M2 & L2 & A2 & O2 & C2).
      cbv zeta. split; [exact M2|]. split; [rewrite L2, Es1; reflexivity|].
      split; [exact A2|]. split.
      { intros r' Hr'. rewrite (O2 r' Hr'), Es1. reflexivity. }
      destruct C2 as [[C2 C3]|[C2 C3]].
      * left. split; [right; exact C2 | exact C3].
      * right. split; [|rewrite C3; exact Es1].
        intros [Eu|Hin]; [subst u; destruct Hu | exact (C2 Hin)].
Qed.

End Rendering.

(** ** What an occurrence does *)

Section Occurrences.

Variable P : Platform.
Variable puter : option PuterSDK.
Variable model : string.

Lemma render_ok p : render P p = (Ok tt, exec (render P) p).
Proof.
  destruct (render_run P p) as (s' & E & _). unfold exec. rewrite E. reflexivity.
Qed.

Lemma occur_enqueue u p :
  exec (enqueue u ;;; render P) p = exec (render P) (queued u p).
Proof. unfold exec at 1, bind, enqueue, modify. reflexivity. Qed.

Lemma occur_types text p :
  occur P puter model (Types text) p = exec (render P) (queued (SetInput text) p).
Proof. reflexivity. Qed.

Lemma occur_removes id p :
  occur P puter model (Removes id) p = exec (render P) (queued (RemoveFile id) p).
Proof. reflexivity. Qed.

Lemma occur_selects f files p :
  occur P puter model (Selects (f :: files)) p
  = exec (render P) (queued (AddFiles (f :: files)) p).
Proof. reflexivity. Qed.

Lemma occur_timer p :
  occur P puter model TimerFires p
  = match timers (component p) with
    | [] => p
    | t :: rest =>
        queued (SetStatus (sets_status t))
          (with_component (with_timers rest (component p)) p)
    end.
Proof.
  unfold occur, exec, timerFires, bind, inComponent, gets. simpl.
  destruct (timers (component p)) as [|t rest]; [destruct p; reflexivity|]. reflexivity.
Qed.

Lemma occur_settles i f p :
  nth_error (flights p) i = Some f ->
  occur P puter model (Settles i) p
  = match resume P puter model f (landed i p) with
    | (Ok None, p1) => p1
    | (Ok (Some f'), p1) =>
        with_flights (firstn i (flights p1) ++ f' :: skipn i (flights p1)) p1
    | (Throw e, p1) => caught P e p1
    end.
Proof.
  intros H. unfold occur. rewrite H.
  unfold exec, settle_flight, bind at 1 2, modify at 1, try_catch.
  change (with_flights (firstn i (flights p) ++ skipn (S i) (flights p)) p) with (landed i p).
  destruct (resume P puter model f (landed i p)) as [[[f'|]|e] p1]; try reflexivity.
  rewrite catchError_run. reflexivity.
Qed.

Lemma occur_settles_nothing i p :
  nth_error (flights p) i = None -> occur P puter model (Settles i) p = p.
Proof. intros H. unfold occur. rewrite H. reflexivity. Qed.

Lemma occur_refused p :
  refused (component p) = true -> occur P puter model Submits p = p.
Proof. intros H. unfold occur. rewrite H. reflexivity. Qed.

End Occurrences.

(** ** The message of a stream on the display *)

Section Views.

Variable P : Platform.

(** What the next render shows of a stream. *)
Lemma stream_view_render r c full p :
  stream_view r c full p ->
  nth c (cells p) VUndefined = VStr full ->
  let s' := component (exec (render P) p) in
  (exists ms, messages s' = (ms ++ [r])%list)
  /\ length (store s') = length (store (component p))
  /\ is_assistant (deref (store s') r) = true
  /\ content (deref (store s') r) = Text full
  /\ forall i, (r < i)%nat -> deref (store s') i = deref (store (component p)) i.
Proof.
  intros (Hr & Ha & [(q0 & q2 & Hq & H0 & Hm & H2 & Hc) | (ms & Hm & H2 & Hc)]) Hcell.
  - rewrite render_exec. cbv zeta. simpl component. rewrite Hq, applyAll_app, applyAll_cons.
    destruct (applyAll_below P r q0 p H0 Hm) as (B0 & L0 & D0).
    set (s0 := component (exec (applyAll P q0) p)) in *.
    set (p0 := with_component s0 p).
    destruct (applyUpdate_effect P (AppendMessage r) p0) as [Em Es]. cbv zeta in Em, Es.
    set (s1 := component (exec (applyUpdate P (AppendMessage r)) p0)) in *.
    set (p1 := with_component s1 p0).
    assert (Hr1 : (r < length (store (component p1)))%nat).
    { change (component p1) with s1. rewrite Es. change (component p0) with s0.
      rewrite L0. exact Hr. }
    assert (Ha1 : is_assistant (deref (store (component p1)) r) = true).
    { change (component p1) with s1. rewrite Es. change (component p0) with s0.
      rewrite D0 by lia. exact Ha. }
    destruct (applyAll_stream P c q2 p1 (messages s0) r H2 Em Hr1 Ha1)
      as (M2 & L2 & A2 & O2 & C2).
    split; [eexists; exact M2|].
    split; [rewrite L2; change (component p1) with s1; rewrite Es; exact L0|].
    split; [exact A2|]. split.
    + destruct C2 as [[_ C2]|[Hn C2]].
      * rewrite C2. change (cells p1) with (cells p). rewrite Hcell. reflexivity.
      * rewrite C2. change (component p1) with s1. rewrite Es. change (component p0) with s0.
        rewrite D0 by lia. destruct Hc as [Hc|Hc]; [exact Hc | contradiction].
    + intros i Hi. rewrite O2 by lia. change (component p1) with s1. rewrite Es.
      change (component p0) with s0. apply D0. lia.
  - rewrite render_exec. cbv zeta. simpl component.
    destruct (applyAll_stream P c (queue p) p ms r H2 Hm Hr Ha) as (M2 & L2 & A2 & O2 & C2).
    split; [eexists; exact M2|]. split; [exact L2|]. split; [exact A2|]. split.
    + destruct C2 as [[_ C2]|[Hn C2]].
      * rewrite C2, Hcell. reflexivity.
      * rewrite C2. destruct Hc as [Hc|Hc]; [exact Hc | contradiction].
    + intros i Hi. apply O2. lia.
Qed.

(** More of the stream is queued. *)
Lemma stream_view_more r c full full' extra p p' :
  stream_view r c full p ->
  store (component p') = store (component p) ->
  messages (component p') = messages (component p) ->
  queue p' = (queue p ++ extra)%list ->
  Forall (of_stream c) extra ->
  full' = full \/ In (StreamInto c) extra ->
  stream_view r c full' p'.
Proof.
  intros (Hr & Ha & Hv) Es Em Eq He Hf. unfold stream_view. cbv zeta.
  rewrite Es, Em, Eq. split; [exact Hr|]. split; [exact Ha|].
  destruct Hv as [(q0 & q2 & Hq & H0 & Hm & H2 & Hc) | (ms & Hm & H2 & Hc)].
  - left. exists q0, (q2 ++ extra)%list. rewrite Hq, <- app_assoc.
    split; [reflexivity|]. split; [exact H0|]. split; [exact Hm|].
    split; [apply Forall_app; split; assumption|].
    destruct Hf as [->|Hf]; [|right; apply in_or_app; right; exact Hf].
    destruct Hc as [Hc|Hc]; [left; exact Hc | right; apply in_or_app; left; exact Hc].
  - right. exists ms. split; [exact Hm|]. split; [apply Forall_app; split; assumption|].
    destruct Hf as [->|Hf]; [|right; apply in_or_app; right; exact Hf].
    destruct Hc as [Hc|Hc]; [left; exact Hc | right; apply in_or_app; left; exact Hc].
Qed.

(** The stream after a render. *)
Lemma stream_view_rendered r c full p :
  stream_view r c full p ->
  nth c (cells p) VUndefined = VStr full ->
  stream_view r c full (exec (render P) p).
Proof.
  intros Hv Hcell.
  destruct (stream_view_render r c full p Hv Hcell) as ((ms & M) & L & A & C & _).
  cbv zeta in *. destruct Hv as (Hr & _).
  split; [rewrite L; exact Hr|]. split; [exact A|].
  assert (Q : queue (exec (render P) p) = []) by (rewrite render_exec; reflexivity).
  right. exists ms. split; [exact M|]. rewrite Q.
  split; [constructor | left; exact C].
Qed.

(** New objects leave the view as it is. *)
Lemma stream_view_alloc r c full more p p' :
  stream_view r c full p ->
  store (component p') = (store (component p) ++ more)%list ->
  messages (component p') = messages (component p) ->
  queue p' = queue p ->
  stream_view r c full p'.
Proof.
  intros (Hr & Ha & Hv) Es Em Eq. unfold stream_view. cbv zeta.
  rewrite Es, Em, Eq, deref_alloc_old by exact Hr.
  split; [rewrite length_app; lia|]. split; [exact Ha|]. exact Hv.
Qed.

(** What the next render shows of a send that has returned. *)
Lemma final_view_render rf c full p :
  final_view rf c full p ->
  nth c (cells p) VUndefined = VStr full ->
  let s' := component (exec (render P) p) in
  (exists ms, messages s' = (ms ++ [rf])%list)
  /\ length (store s') = length (store (component p))
  /\ deref (store s') rf = finalMessage (VStr full).
Proof.
  intros (Hr & Hf & [(q0 & q3 & r & Hq & Hv & H0 & Hm & H3) | (ms & Hm & H3)]) Hcell.
  - rewrite render_exec. cbv zeta. simpl component. rewrite Hq, applyAll_app, applyAll_cons.
    destruct (applyAll_below P rf q0 p H0 Hm) as (B0 & L0 & D0).
    destruct (stream_view_render r c full (with_queue q0 p) Hv Hcell)
      as ((ms & M) & _).
    rewrite render_exec in M. simpl in M. rewrite applyAll_queue in M.
    set (s0 := component (exec (applyAll P q0) p)) in *.
    set (p0 := with_component s0 p).
    destruct (applyUpdate_effect P (ReplaceLast rf) p0) as [Em Es]. cbv zeta in Em, Es.
    set (s1 := component (exec (applyUpdate P (ReplaceLast rf)) p0)) in *.
    set (p1 := with_component s1 p0).
    destruct (applyAll_inert P q3 p1 H3) as [M3 S3]. cbv zeta in M3, S3.
    rewrite M3, S3. change (component p1) with s1. rewrite Em, Es.
    change (component p0) with s0. rewrite M, set_last_snoc, L0, D0 by lia.
    split; [eexists; reflexivity|]. split; [reflexivity | exact Hf].
  - rewrite render_exec. cbv zeta. simpl component.
    destruct (applyAll_inert P (queue p) p H3) as [M3 S3]. cbv zeta in M3, S3.
    rewrite M3, S3. split; [eexists; exact Hm|]. split; [reflexivity | exact Hf].
Qed.

Lemma final_view_more rf c full extra p p' :
  final_view rf c full p ->
  store (component p') = store (component p) ->
  messages (component p') = messages (component p) ->
  queue p' = (queue p ++ extra)%list ->
  Forall inert extra ->
  final_view rf c full p'.
Proof.
  intros (Hr & Hf & Hv) Es Em Eq He. unfold final_view. cbv zeta.
  rewrite Es, Em, Eq. split; [exact Hr|]. split; [exact Hf|].
  destruct Hv as [(q0 & q3 & r & Hq & Hv & H0 & Hm & H3) | (ms & Hm & H3)].
  - left. exists q0, (q3 ++ extra)%list, r. rewrite Hq, <- app_assoc.
    split; [reflexivity|]. split.
    { eapply stream_view_more with (extra := []); [exact Hv | exact Es | exact Em
        | simpl; rewrite app_nil_r; reflexivity | constructor | left; reflexivity]. }
    split; [exact H0|]. split; [exact Hm|]. apply Forall_app; split; assumption.
  - right. exists ms. split; [exact Hm|]. apply Forall_app; split; assumption.
Qed.

Lemma final_view_rendered rf c full p :
  final_view rf c full p ->
  nth c (cells p) VUndefined = VStr full ->
  final_view rf c full (exec (render P) p).
Proof.
  intros Hv Hcell.
  destruct (final_view_render rf c full p Hv Hcell) as ((ms & M) & L & F).
  cbv zeta in *. destruct Hv as (Hr & _).
  split; [rewrite L; exact Hr|]. split; [exact F|].
  assert (Q : queue (exec (render P) p) = []) by (rewrite render_exec; reflexivity).
  right. exists ms. split; [exact M|]. rewrite Q. constructor.
Qed.

End Views.

(** ** A send that is alone on the page *)

Section Alone.

Variable P : Platform.
Variable puter : option PuterSDK.
Variable model : string.

Lemma inert_ok n u : inert u -> update_ok n u.
Proof. destruct u; simpl; auto; contradiction. Qed.

Lemma page_wf_queued u p :
  page_wf p -> update_ok (length (store (component p))) u -> page_wf (queued u p).
Proof.
  intros [W Q] Hu. split; [exact W|]. simpl. apply Forall_app. split; [exact Q|].
  constructor; [exact Hu | constructor].
Qed.

Lemma page_wf_render p : page_wf p -> page_wf (exec (render P) p).
Proof.
  intros W. destruct (render_run P p) as (s' & E & _ & _ & _ & _ & _ & _ & W').
  unfold exec. rewrite E. split; [apply W', W | constructor].
Qed.

Lemma page_wf_timers x p :
  page_wf p -> page_wf (with_component (with_timers x (component p)) p).
Proof. intros [W Q]. split; assumption. Qed.

Lemma page_wf_flights x p : page_wf p -> page_wf (with_flights x p).
Proof. intros [W Q]. split; assumption. Qed.

Lemma page_wf_settles i p : page_wf p -> page_wf (occur P puter model (Settles i) p).
Proof.
  intros W. destruct (nth_error (flights p) i) as [f|] eqn:E;
    [|rewrite occur_settles_nothing by exact E; exact W].
  rewrite (occur_settles P puter model i f p E).
  destruct (resume P puter model f (landed i p)) as [[[f'|]|e] p1] eqn:R;
    pose proof (resume_wf P puter model _ _ _ _ R (page_wf_flights _ _ W)) as W1.
  - apply page_wf_flights, W1.
  - exact W1.
  - apply caught_wf, W1.
Qed.

Section Stream.

Variable chunks : list value.
Variable cell : nat.

Lemma phase_wf n p : phase chunks cell n p -> page_wf p.
Proof. intros [W _]. exact W. Qed.

(** An inert update is queued, or a timer is taken off. *)
Lemma phase_more n u p p' :
  phase chunks cell n p ->
  inert u ->
  store (component p') = store (component p) ->
  messages (component p') = messages (component p) ->
  conversationRef (component p') = conversationRef (component p) ->
  queue p' = (queue p ++ [u])%list ->
  cells p' = cells p ->
  flights p' = flights p ->
  phase chunks cell n p'.
Proof.
  intros [[[V1 V2] Q] H] Hu Es Em Ec Eq El Ef. split.
  { split; [split|]; rewrite ?Es, ?Em, ?Ec, ?Eq; try assumption.
    apply Forall_app. split; [exact Q|]. constructor; [apply inert_ok, Hu | constructor]. }
  destruct n as [|j]; [rewrite Ef, El; exact H|].
  rewrite El, Ef, Ec. destruct H as [Hc H]. split; [exact Hc|].
  destruct (j <=? length chunks)%nat.
  - destruct H as (Hf & conv & r & Hconv & Hv). split; [exact Hf|].
    exists conv, r. split; [exact Hconv|].
    apply (stream_view_more r cell _ _ [u] p p' Hv Es Em Eq);
      [constructor; [right; exact Hu | constructor] | left; reflexivity].
  - destruct H as (Hf & conv & rf & Hconv & Hv). split; [exact Hf|].
    exists conv, rf. split; [exact Hconv|].
    apply (final_view_more rf cell _ [u] p p' Hv Es Em Eq). constructor; [exact Hu | constructor].
Qed.

Lemma phase_queued n u p :
  phase chunks cell n p -> inert u -> phase chunks cell n (queued u p).
Proof. intros H Hu. apply (phase_more n u p); auto. Qed.

Lemma render_keeps p :
  conversationRef (component (exec (render P) p)) = conversationRef (component p)
  /\ cells (exec (render P) p) = cells p
  /\ flights (exec (render P) p) = flights p
  /\ timers (component (exec (render P) p)) = timers (component p)
  /\ status (component (exec (render P) p)) = last_status (queue p) (status (component p))
  /\ queue (exec (render P) p) = [].
Proof.
  destruct (render_run P p) as (s' & E & St & C & T & _). unfold exec. rewrite E. simpl.
  repeat split; assumption.
Qed.

Lemma phase_render n p : phase chunks cell n p -> phase chunks cell n (exec (render P) p).
Proof.
  intros [W H]. split; [apply page_wf_render, W|].
  destruct (render_keeps p) as (Ec & El & Ef & _).
  destruct n as [|j]; [rewrite Ef, El; exact H|].
  rewrite El, Ef, Ec. destruct H as [Hc H]. split; [exact Hc|].
  destruct (j <=? length chunks)%nat eqn:Hj.
  - destruct H as (Hf & conv & r & Hconv & Hv). split; [exact Hf|].
    exists conv, r. split; [exact Hconv|]. apply stream_view_rendered; assumption.
  - destruct H as (Hf & conv & rf & Hconv & Hv). split; [exact Hf|].
    exists conv, rf. split; [exact Hconv|]. apply final_view_rendered; [exact Hv|].
    rewrite Hc. f_equal. f_equal. apply firstn_all2. apply Nat.leb_gt in Hj. lia.
Qed.

Lemma skipn_next {A} (l : list A) : forall j x rest,
  skipn j l = x :: rest ->
  skipn (S j) l = rest /\ firstn (S j) l = (firstn j l ++ [x])%list /\ (j < length l)%nat.
Proof.
  induction l as [|y l IH]; intros [|j] x rest H; simpl in *; try discriminate.
  - injection H as <- <-. repeat split. lia.
  - destruct (IH j x rest H) as (H1 & H2 & H3). repeat split; [exact H1 | | lia].
    f_equal. exact H2.
Qed.

Lemma skipn_none {A} (l : list A) j : skipn j l = [] -> (length l <= j)%nat.
Proof.
  intros H. pose proof (length_skipn j l) as L. rewrite H in L. simpl in L. lia.
Qed.

Lemma nth_assign {A} (l : list A) : forall i x d,
  (i < length l)%nat -> nth i (assign l i x) d = x.
Proof.
  induction l as [|y l IH]; intros [|i] x d H; simpl in *; try lia; auto.
  apply IH. lia.
Qed.

Lemma nth_in_range (l : list value) i s : nth i l VUndefined = VStr s -> (i < length l)%nat.
Proof.
  intros H. destruct (Nat.lt_ge_cases i (length l)) as [|Hge]; [assumption|].
  rewrite nth_overflow in H by exact Hge. discriminate.
Qed.

(** The promise the send awaits settles. *)
Lemma phase_settles n p :
  phase chunks cell n p -> phase chunks cell (S n) (occur P puter model (Settles 0) p).
Proof.
  intros [W H]. pose proof (page_wf_settles 0 p W) as W'. split; [exact W'|]. clear W'.
  destruct W as [[V1 V2] Q].
  destruct n as [|j].
  - destruct H as [Hf Hl].
    rewrite (occur_settles P puter model 0 _ p) by (rewrite Hf; reflexivity).
    rewrite resume_stream. unfold landed. rewrite Hf. simpl.
    rewrite Hl. split.
    { rewrite <- Hl, app_nth2, Nat.sub_diag by lia. reflexivity. }
    split; [reflexivity|].
    exists (conversationRef (component p)), (length (store (component p))).
    split; [reflexivity|]. unfold stream_view. simpl.
    rewrite length_app, deref_alloc_new. simpl.
    split; [lia|]. split; [reflexivity|]. left.
    exists (queue p), [SetStatus thinking]. split; [reflexivity|]. split; [exact Q|].
    split; [exact V1|]. split; [constructor; [right; exact I | constructor]|].
    left. reflexivity.
  - destruct H as [Hc H]. destruct (j <=? length chunks)%nat eqn:Hj.
    + destruct H as (Hf & conv & r & Hconv & Hv).
      rewrite (occur_settles P puter model 0 _ p) by (rewrite Hf; reflexivity).
      apply Nat.leb_le in Hj. pose proof (nth_in_range _ _ _ Hc) as Hcell.
      destruct (skipn j chunks) as [|part rest] eqn:Hs.
      * apply skipn_none in Hs. assert (j = length chunks) by lia. subst j.
        rewrite resume_end. unfold landed. rewrite Hf.
        replace (S (length chunks) <=? length chunks)%nat with false
          by (symmetry; apply Nat.leb_gt; lia).
        rewrite firstn_all in Hc, Hv.
        rewrite (firstn_all2 chunks (n := S (length chunks))) by lia.
        simpl firstn. simpl skipn. simpl app.
        change (cells (finished cell (with_flights [] p))) with (cells p).
        split; [exact Hc|].
        split; [reflexivity|].
        exists conv, (length (store (component p))).
        split; [simpl; rewrite Hconv; apply set_last_snoc|].
        unfold final_view. simpl. rewrite length_app, deref_alloc_new, Hc. simpl.
        split; [lia|]. split; [reflexivity|]. left.
        exists (queue p), [], r. split; [reflexivity|].
        split; [apply (stream_view_alloc r cell _
                         [finalMessage (nth cell (cells p) VUndefined)] p);
                  [exact Hv | reflexivity | reflexivity | reflexivity]|].
        split; [exact Q|]. split; [exact V1 | constructor].
      * destruct (skipn_next chunks j part rest Hs) as (Hs' & Hfirst & Hlt).
        rewrite resume_chunk. unfold landed. rewrite Hf.
        replace (S j <=? length chunks)%nat with true by (symmetry; apply Nat.leb_le; lia).
        rewrite Hs', Hfirst, texts_snoc.
        change (firstn 0 [AwaitChunk cell (part :: rest) None (j =? 0)%nat]
                ++ skipn 1 [AwaitChunk cell (part :: rest) None (j =? 0)%nat])%list
          with (@nil Flight).
        split.
        { simpl. rewrite nth_assign by exact Hcell. rewrite Hc. reflexivity. }
        split; [reflexivity|]. exists conv, r. split; [exact Hconv|].
        apply (stream_view_more r cell (texts (firstn j chunks)) _
                 ((if (j =? 0)%nat then [SetStatus ready] else []) ++ [StreamInto cell]) p);
          [exact Hv | reflexivity | reflexivity | simpl; rewrite <- app_assoc; reflexivity
           | | right; apply in_or_app; right; left; reflexivity].
        apply Forall_app. split; [|constructor; [left; reflexivity | constructor]].
        destruct (j =? 0)%nat; [constructor; [right; exact I | constructor] | constructor].
    + destruct H as (Hf & conv & rf & Hconv & Hv).
      rewrite occur_settles_nothing by (rewrite Hf; reflexivity).
      apply Nat.leb_gt in Hj.
      replace (S j <=? length chunks)%nat with false by (symmetry; apply Nat.leb_gt; lia).
      split; [rewrite Hc, !firstn_all2 by lia; reflexivity|].
      split; [exact Hf|]. exists conv, rf. auto.
Qed.

Lemma phase_one_flight n p i :
  phase chunks cell n p -> nth_error (flights p) (S i) = None.
Proof.
  intros [_ H]. destruct n as [|j].
  - destruct H as [-> _]. destruct i; reflexivity.
  - destruct H as [_ H]. destruct (j <=? length chunks)%nat; destruct H as [-> _];
      destruct i; reflexivity.
Qed.

(** One occurrence that is no send, or a send that is refused. *)
Lemma phase_occur o n p :
  phase chunks cell n p ->
  bystander o \/ refused (component p) = true ->
  phase chunks cell (settles [o] + n) (occur P puter model o p).
Proof.
  intros H Ho. destruct o as [text|files|id| | | |i].
  - rewrite occur_types. apply phase_render, phase_queued; [exact H | exact I].
  - destruct files as [|f files]; [exact H|].
    rewrite occur_selects. apply phase_render, phase_queued; [exact H | exact I].
  - rewrite occur_removes. apply phase_render, phase_queued; [exact H | exact I].
  - destruct Ho as [[]|Ho]. rewrite occur_refused by exact Ho. exact H.
  - rewrite occur_timer. destruct (timers (component p)) as [|t rest]; [exact H|].
    apply (phase_more n (SetStatus (sets_status t)) p); auto. exact I.
  - apply phase_render, H.
  - destruct i as [|i]; [apply phase_settles, H|].
    rewrite occur_settles_nothing by (apply (phase_one_flight n), H). exact H.
Qed.

Lemma settles_app a b : settles (a ++ b) = (settles a + settles b)%nat.
Proof.
  induction a as [|o a IH]; [reflexivity|].
  simpl. destruct o as [| | | | | |[|i]]; simpl; rewrite IH; reflexivity.
Qed.

Lemma phase_go occs : forall n p,
  phase chunks cell n p ->
  Forall bystander occs ->
  phase chunks cell (settles occs + n) (go P puter model occs p).
Proof.
  induction occs as [|o occs IH]; intros n p H Hb; [exact H|].
  inversion Hb as [|? ? Ho Hb']; subst.
  change (go P puter model (o :: occs) p)
    with (go P puter model occs (occur P puter model o p)).
  change (o :: occs) with ([o] ++ occs)%list. rewrite settles_app.
  replace (settles [o] + settles occs + n)%nat with (settles occs + (settles [o] + n))%nat
    by lia.
  apply IH; [|exact Hb']. apply phase_occur; [exact H | left; exact Ho].
Qed.

(** What the page holds once the answer has been taken. *)
Lemma phase_buffer j p :
  phase chunks cell (S j) p ->
  nth cell (cells p) VUndefined = VStr (texts (firstn j chunks)).
Proof. intros [_ [H _]]. exact H. Qed.

Lemma lastContent_resolve st ms r :
  lastContent (resolve st (ms ++ [r])) = Some (content (deref st r)).
Proof. rewrite resolve_app. apply lastContent_snoc. Qed.

Lemma phase_display j p :
  phase chunks cell (S j) p ->
  lastContent (displayLog (component (exec (render P) p)))
  = Some (Text (texts (firstn j chunks))).
Proof.
  intros [_ [Hc H]]. destruct (j <=? length chunks)%nat eqn:Hj.
  - destruct H as (_ & conv & r & _ & Hv).
    destruct (stream_view_render P r cell _ p Hv Hc) as ((ms & M) & _ & _ & C & _).
    cbv zeta in M, C. unfold displayLog. rewrite M, lastContent_resolve, C. reflexivity.
  - destruct H as (_ & conv & rf & _ & Hv). apply Nat.leb_gt in Hj.
    rewrite (firstn_all2 chunks (n := j)) in * by lia.
    destruct (final_view_render P rf cell _ p Hv Hc) as ((ms & M) & _ & F).
    cbv zeta in M, F. unfold displayLog. rewrite M, lastContent_resolve, F. reflexivity.
Qed.

Lemma phase_returned j p :
  phase chunks cell (S j) p ->
  (length chunks < j)%nat ->
  flights p = []
  /\ lastContent (apiLog (component p)) = Some (Text (texts chunks)).
Proof.
  intros [_ [_ H]] Hj.
  replace (j <=? length chunks)%nat with false in H by (symmetry; apply Nat.leb_gt; lia).
  destruct H as (Hf & conv & rf & Hconv & (_ & F & _)).
  split; [exact Hf|]. unfold apiLog. rewrite Hconv, lastContent_resolve, F. reflexivity.
Qed.

End Stream.

(** ** An empty stream *)

Lemma calm_last_status q : Forall calm q -> last_status q thinking = thinking.
Proof.
  induction q as [|u q IH]; intros H; [reflexivity|].
  inversion H as [|? ? Hu Hq]; subst. destruct u; simpl in *; auto.
  subst. auto.
Qed.

Lemma stays_thinking_render p :
  stays_thinking p -> stays_thinking (exec (render P) p).
Proof.
  intros (Hs & Ht & Hq). destruct (render_keeps p) as (_ & _ & _ & T & S & Q).
  split; [rewrite S, Hs; apply calm_last_status, Hq|].
  split; [rewrite T; exact Ht | rewrite Q; constructor].
Qed.

Lemma stays_thinking_queued u p :
  stays_thinking p -> calm u -> stays_thinking (queued u p).
Proof.
  intros (Hs & Ht & Hq) Hu. split; [exact Hs|]. split; [exact Ht|].
  simpl. apply Forall_app. split; [exact Hq | constructor; [exact Hu | constructor]].
Qed.

Lemma thinking_refused s : status s = thinking -> refused s = true.
Proof. intros H. unfold refused. rewrite H. reflexivity. Qed.

(** While a send is alone on the page and its stream has no chunk,
    nothing that happens ends the status [thinking]. *)
Lemma thinking_occur cell o n p :
  phase [] cell n p ->
  stays_thinking p ->
  stays_thinking (occur P puter model o p).
Proof.
  intros H K. destruct o as [text|files|id| | | |i].
  - rewrite occur_types. apply stays_thinking_render, stays_thinking_queued; [exact K | exact I].
  - destruct files as [|f files]; [exact K|].
    rewrite occur_selects. apply stays_thinking_render, stays_thinking_queued;
      [exact K | exact I].
  - rewrite occur_removes. apply stays_thinking_render, stays_thinking_queued;
      [exact K | exact I].
  - rewrite occur_refused; [exact K|]. apply thinking_refused. destruct K as [K _]. exact K.
  - rewrite occur_timer. destruct K as (Hs & Ht & Hq). rewrite Ht.
      split; [exact Hs|]. split; assumption.
  - apply stays_thinking_render, K.
  - destruct i as [|i];
      [|rewrite occur_settles_nothing by (apply (phase_one_flight [] cell n), H); exact K].
    destruct K as (Hs & Ht & Hq). destruct H as [_ H]. destruct n as [|j].
    + destruct H as [Hf _].
      rewrite (occur_settles P puter model 0 _ p) by (rewrite Hf; reflexivity).
      rewrite resume_stream. split; [exact Hs|]. split; [exact Ht|]. simpl.
      apply Forall_app. split; [exact Hq|]. repeat constructor.
    + destruct H as [_ H]. destruct j as [|j]; simpl in H.
      * destruct H as [Hf _].
        rewrite (occur_settles P puter model 0 _ p) by (rewrite Hf; reflexivity).
        rewrite resume_end. split; [exact Hs|]. split; [exact Ht|]. simpl.
        apply Forall_app. split; [exact Hq|]. repeat constructor.
      * destruct H as [Hf _].
        rewrite occur_settles_nothing by (rewrite Hf; reflexivity).
        split; [exact Hs|]. split; assumption.
Qed.

Lemma refused_occur cell o n p :
  phase [] cell n p ->
  stays_thinking p ->
  bystander o \/ refused (component p) = true.
Proof.
  intros _ (Hs & _). right. apply thinking_refused, Hs.
Qed.

Lemma thinking_go cell occs : forall n p,
  phase [] cell n p ->
  stays_thinking p ->
  phase [] cell (settles occs + n) (go P puter model occs p)
  /\ stays_thinking (go P puter model occs p).
Proof.
  induction occs as [|o occs IH]; intros n p H K; [split; assumption|].
  change (go P puter model (o :: occs) p)
    with (go P puter model occs (occur P puter model o p)).
  change (o :: occs) with ([o] ++ occs)%list. rewrite settles_app.
  replace (settles [o] + settles occs + n)%nat with (settles occs + (settles [o] + n))%nat
    by lia.
  apply IH; [|apply (thinking_occur cell o n); assumption].
  apply phase_occur; [exact H | apply (refused_occur cell o n); assumption].
Qed.

End Alone.

(** ** New objects and the display *)

Section Frame.

Variable P : Platform.

Lemma write_alloc st more : forall r m,
  (r < length st)%nat -> write (st ++ more) r m = (write st r m ++ more)%list.
Proof.
  induction st as [|x st IH]; intros [|r] m H; simpl in *; try lia; auto.
  f_equal. apply IH. lia.
Qed.

(** Objects added to the store have no part in what the queued updates
    do to the older ones. *)
Lemma applyAll_alloc q : forall p pc more,
  messages (component pc) = messages (component p) ->
  store (component pc) = (store (component p) ++ more)%list ->
  cells pc = cells p ->
  below (length (store (component p))) (messages (component p)) ->
  Forall (update_ok (length (store (component p)))) q ->
  messages (component (exec (applyAll P q) pc))
  = messages (component (exec (applyAll P q) p))
  /\ store (component (exec (applyAll P q) pc))
     = (store (component (exec (applyAll P q) p)) ++ more)%list.
Proof.
  induction q as [|u q IH]; intros p pc more Em Es Ec Hm Hq; [split; assumption|].
  inversion Hq as [|? ? Hu Hq']; subst.
  rewrite !applyAll_cons.
  destruct (applyUpdate_effect P u p) as [Em1 Es1].
  destruct (applyUpdate_effect P u pc) as [Em2 Es2]. cbv zeta in *.
  destruct (applyUpdate_below P _ u p Hu Hm) as (B1 & L1 & _). cbv zeta in *.
  set (p1 := with_component (component (exec (applyUpdate P u) p)) p) in *.
  set (pc1 := with_component (component (exec (applyUpdate P u) pc)) pc) in *.
  apply (IH p1 pc1 more).
  - change (component pc1) with (component (exec (applyUpdate P u) pc)).
    change (component p1) with (component (exec (applyUpdate P u) p)).
    rewrite Em1, Em2, Em. reflexivity.
  - change (component pc1) with (component (exec (applyUpdate P u) pc)).
    change (component p1) with (component (exec (applyUpdate P u) p)).
    rewrite Es1, Es2, Em, Es, Ec. destruct u; try reflexivity.
    destruct (rev (messages (component p))) as [|r0 rest] eqn:Er; [reflexivity|].
    pose proof (below_last _ _ _ _ Hm Er) as Hr0.
    rewrite deref_alloc_old by exact Hr0.
    destruct (is_assistant (deref (store (component p)) r0)); [|reflexivity].
    apply write_alloc, Hr0.
  - exact Ec.
  - change (component p1) with (component (exec (applyUpdate P u) p)).
    rewrite L1. exact B1.
  - change (component p1) with (component (exec (applyUpdate P u) p)).
    rewrite L1. exact Hq'.
Qed.

Lemma last_status_app a : forall b st,
  last_status (a ++ b) st = last_status b (last_status a st).
Proof.
  induction a as [|u a IH]; intros b st; [reflexivity|].
  destruct u; simpl; apply IH.
Qed.

Lemma render_idempotent p : exec (render P) (exec (render P) p) = exec (render P) p.
Proof. rewrite (render_exec P (exec (render P) p)), render_exec. reflexivity. Qed.

(** What React shows after a failure: what it would have shown, and
    the error bubble as the last message. *)
Lemma caught_render e p :
  page_wf p ->
  messages (component (exec (render P) (caught P e p)))
  = (messages (component (exec (render P) p)) ++ [length (store (component p))])%list
  /\ store (component (exec (render P) (caught P e p)))
     = (store (component (exec (render P) p)) ++ [errorMessage P e])%list.
Proof.
  intros [[W1 W2] Q].
  rewrite !render_exec.
  change (component (with_component ?x _)) with x in *.
  change (queue (caught P e p))
    with (queue p ++ AppendMessage (length (store (component p))) :: [SetStatus error])%list.
  rewrite applyAll_app, applyAll_cons.
  destruct (applyAll_alloc (queue p) p (caught P e p) [errorMessage P e]
              eq_refl eq_refl eq_refl W1 Q) as [Em Es].
  set (sc := component (exec (applyAll P (queue p)) (caught P e p))) in *.
  set (pc := with_component sc (caught P e p)).
  destruct (applyUpdate_effect P (AppendMessage (length (store (component p)))) pc)
    as [Em1 Es1]. cbv zeta in Em1, Es1.
  set (s1 := component (exec (applyUpdate P (AppendMessage (length (store (component p)))))
                          pc)) in *.
  destruct (applyAll_inert P [SetStatus error] (with_component s1 pc)) as [Em2 Es2];
    [constructor; [exact I | constructor]|]. cbv zeta in Em2, Es2.
  rewrite Em2, Es2.
  change (component (with_component s1 pc)) with s1. rewrite Em1, Es1.
  change (component pc) with sc. rewrite Em, Es. split; reflexivity.
Qed.

Lemma render_length p :
  length (store (component (exec (render P) p))) = length (store (component p)).
Proof.
  destruct (render_run P p) as (s' & E & _ & _ & _ & _ & _ & L & _).
  unfold exec. rewrite E. exact L.
Qed.

Lemma caught_display e p :
  page_wf p ->
  displayLog (component (exec (render P) (caught P e p)))
  = (displayLog (component (exec (render P) p)) ++ [errorMessage P e])%list.
Proof.
  intros W. pose proof (page_wf_render P p W) as [[V1 _] _].
  destruct (caught_render e p W) as [Em Es].
  unfold displayLog. rewrite Em, Es, resolve_app, resolve_alloc by exact V1.
  f_equal. unfold resolve. simpl map. rewrite <- (render_length p), deref_alloc_new.
  reflexivity.
Qed.

Lemma caught_apiLog_rendered e p :
  page_wf p ->
  apiLog (component (exec (render P) (caught P e p)))
  = apiLog (component (exec (render P) p)).
Proof.
  intros W. pose proof (page_wf_render P p W) as [[_ V2] _].
  destruct (caught_render e p W) as [_ Es].
  destruct (render_keeps P p) as (C & _).
  destruct (render_keeps P (caught P e p)) as (Cc & _).
  unfold apiLog. rewrite Es, Cc. change (conversationRef (component (caught P e p)))
    with (conversationRef (component p)). rewrite <- C. apply resolve_alloc, V2.
Qed.

Lemma caught_status e p : status (component (exec (render P) (caught P e p))) = error.
Proof.
  destruct (render_keeps P (caught P e p)) as (_ & _ & _ & _ & S & _). rewrite S.
  change (queue (caught P e p))
    with (queue p ++ [AppendMessage (length (store (component p))); SetStatus error])%list.
  rewrite last_status_app. reflexivity.
Qed.

Lemma caught_apiLog e p :
  page_wf p -> apiLog (component (caught P e p)) = apiLog (component p).
Proof. intros [[_ V2] _]. unfold apiLog. simpl. apply resolve_alloc, V2. Qed.

Lemma caught_calls e p :
  calls (trace (component (caught P e p))) = calls (trace (component p)).
Proof. simpl. rewrite calls_app. simpl. apply app_nil_r. Qed.

End Frame.

(** ** Pending timers *)

Section Timers.

Variable P : Platform.
Variable puter : option PuterSDK.
Variable model : string.

Lemma go_app a b p :
  go P puter model (a ++ b) p = go P puter model b (go P puter model a p).
Proof. unfold go. apply fold_left_app. Qed.

(** The pending timers fire one after the other: each queues its
    status. *)
Lemma timers_fire ts : forall p,
  timers (component p) = ts ->
  let p' := go P puter model (repeat TimerFires (length ts)) p in
  queue p' = (queue p ++ timer_updates ts)%list
  /\ timers (component p') = []
  /\ status (component p') = status (component p)
  /\ flights p' = flights p
  /\ calls (trace (component p')) = calls (trace (component p))
  /\ displayLog (component p') = displayLog (component p)
  /\ apiLog (component p') = apiLog (component p).
Proof.
  induction ts as [|t ts IH]; intros p Ht.
  - simpl. rewrite app_nil_r. repeat split; auto.
  - change (go P puter model (repeat TimerFires (length (t :: ts))) p)
      with (go P puter model (repeat TimerFires (length ts))
              (occur P puter model TimerFires p)).
    rewrite occur_timer, Ht.
    set (p1 := queued (SetStatus (sets_status t))
                 (with_component (with_timers ts (component p)) p)).
    destruct (IH p1 eq_refl) as (H1 & H2 & H3 & H4 & H5 & H6 & H7). cbv zeta in *.
    rewrite H1, H2, H3, H4, H5, H6, H7. simpl. rewrite <- app_assoc.
    repeat split; reflexivity.
Qed.

(** Once the timers pending after a failure have fired and React has
    rendered, the status is [ready]. *)
Lemma caught_recovers e p :
  let p' := caught P e p in
  status (component (go P puter model
                       (repeat TimerFires (length (timers (component p'))) ++ [Renders]) p'))
  = ready.
Proof.
  intros p'. rewrite go_app.
  destruct (timers_fire (timers (component p')) p' eq_refl) as (Q & _ & S & _).
  cbv zeta in Q, S.
  set (p2 := go P puter model (repeat TimerFires (length (timers (component p')))) p') in *.
  change (go P puter model [Renders] p2) with (exec (render P) p2).
  destruct (render_keeps P p2) as (_ & _ & _ & _ & S2 & _). rewrite S2, Q.
  rewrite last_status_app. unfold p'. simpl timers. unfold timer_updates.
  rewrite map_app, last_status_app. reflexivity.
Qed.

End Timers.

(** ** The start of a send *)

Section Start.

Variable P : Platform.
Variable puter : option PuterSDK.
Variable model : string.

Lemma submit_run p :
  submit P puter model p
  = try_catch (start P puter model (trim (input (component p))) (attachments (component p)))
      (catchError P) (started p).
Proof.
  unfold submit, bind at 1 2 3 4 5 6, gets, enqueue, modify, inComponent, alloc, started.
  simpl. rewrite <- !app_assoc. reflexivity.
Qed.

Lemma occur_submits p :
  refused (component p) = false ->
  occur P puter model Submits p
  = exec (render P)
      match start P puter model (trim (input (component p))) (attachments (component p))
              (started p) with
      | (Ok None, p1) => p1
      | (Ok (Some f), p1) => with_flights (flights p1 ++ [f]) p1
      | (Throw e, p1) => caught P e p1
      end.
Proof.
  intros H. unfold occur. rewrite H. unfold exec at 1, bind at 1. rewrite submit_run.
  unfold try_catch.
  destruct (start P puter model (trim (input (component p))) (attachments (component p))
              (started p)) as [[[f|]|e] p1].
  - unfold bind, park, modify. rewrite render_ok. reflexivity.
  - unfold bind, park, ret. rewrite render_ok. reflexivity.
  - rewrite catchError_run. unfold bind, park, ret. rewrite render_ok. reflexivity.
Qed.

Lemma started_wf p : page_wf p -> page_wf (started p).
Proof.
  intros [[V1 V2] Q]. split; [split|]; simpl.
  - apply valid_alloc, V1.
  - apply valid_alloc, V2.
  - rewrite length_app. simpl. rewrite Nat.add_1_r. apply Forall_app. split.
    + apply queue_ok_alloc, Q.
    + repeat (constructor; [exact I|]). constructor; [|constructor]. simpl.
      apply Forall_app. split.
      * eapply Forall_impl; [|exact V1]. simpl. intros; lia.
      * constructor; [lia | constructor].
Qed.

(** The [try] block throws before its first [await] only if the SDK is
    not loaded. *)
Lemma start_run text atts p :
  match puter with
  | None => start P puter model text atts p = (Throw (Error "Puter SDK not loaded"), p)
  | Some _ =>
      exists f p', start P puter model text atts p = (Ok (Some f), p')
                   /\ (page_wf p -> page_wf p')
                   /\ flights p' = flights p
                   /\ cells p' = cells p
                   /\ queue p' = queue p
  end.
Proof.
  unfold start. destruct puter as [sdk|] eqn:Ep; [|reflexivity].
  destruct (String.eqb model "video-generation").
  - eexists _, _. split; [reflexivity|]. split; [|auto].
    intros [W Q]. split; assumption.
  - destruct atts as [|a atts].
    + rewrite (askChat_run (Some sdk) model sdk) by reflexivity.
      eexists _, _. split; [reflexivity|]. split; [|auto].
      apply asked_page_wf.
    + unfold callUpload. destruct (puter_fs (Some sdk)) as [fsys|] eqn:Ef.
      * destruct (uploadFrom_run P (Some sdk) text (a :: atts) [] p)
          as (f & p' & E & U & _).
        exists f, p'. split; [exact E|]. split; [apply (upload_step_wf _ _ U)|].
        destruct_upload_step U. auto.
      * eexists _, _. split; [reflexivity|]. auto.
Qed.

Lemma page_wf_submits p : page_wf p -> page_wf (occur P puter model Submits p).
Proof.
  intros W. destruct (refused (component p)) eqn:Hr; [rewrite occur_refused; assumption|].
  rewrite occur_submits by exact Hr. apply page_wf_render.
  pose proof (start_run (trim (input (component p))) (attachments (component p)) (started p))
    as H.
  pose proof (started_wf p W) as W0.
  destruct puter as [sdk|].
  - destruct H as (f & p' & -> & W' & _). apply page_wf_flights, W', W0.
  - rewrite H. apply caught_wf, W0.
Qed.

Lemma page_wf_occur o p : page_wf p -> page_wf (occur P puter model o p).
Proof.
  intros W. destruct o as [text|files|id| | | |i].
  - rewrite occur_types. apply page_wf_render, page_wf_queued; [exact W | exact I].
  - destruct files as [|f files]; [exact W|].
    rewrite occur_selects. apply page_wf_render, page_wf_queued; [exact W | exact I].
  - rewrite occur_removes. apply page_wf_render, page_wf_queued; [exact W | exact I].
  - apply page_wf_submits, W.
  - rewrite occur_timer. destruct (timers (component p)) as [|t rest]; [exact W|].
    apply page_wf_queued; [apply page_wf_timers, W | exact I].
  - apply page_wf_render, W.
  - apply page_wf_settles, W.
Qed.

(** Every page that a session reaches has its references in the
    store. *)
Lemma go_wf occs : forall p, page_wf p -> page_wf (go P puter model occs p).
Proof.
  induction occs as [|o occs IH]; intros p W; [exact W|].
  apply (IH (occur P puter model o p)), page_wf_occur, W.
Qed.

(** An accepted send without attachments calls the chat capability at
    once, and React renders the reset input area, the status
    [thinking] and the user's bubble. *)
Lemma submits_reach_chat sdk response p :
  puter = Some sdk ->
  String.eqb model "video-generation" = false ->
  refused (component p) = false ->
  attachments (component p) = [] ->
  (forall conversation, ai_chat sdk conversation (chatOptions model) = Ok response) ->
  let p' := occur P puter model Submits p in
  flights p' = (flights p ++ [AwaitChat (Ok response)])%list
  /\ status (component p') = thinking
  /\ timers (component p') = timers (component p)
  /\ queue p' = []
  /\ cells p' = cells p.
Proof.
  intros Hp Hm Hr Ha Hc p'. unfold p'. rewrite occur_submits by exact Hr.
  unfold start. rewrite Hp, Hm, Ha.
  rewrite (askChat_run (Some sdk) model sdk) by reflexivity. cbv zeta. rewrite Hc.
  match goal with
  | |- context [exec (render P) ?q] =>
      destruct (render_keeps P q) as (_ & C & F & T & S & Q)
  end.
  rewrite C, F, T, S, Q. simpl. rewrite last_status_app. simpl. auto.
Qed.

(** A send fails where it is taken up again. *)
Lemma occur_settles_throw i f e p p1 :
  nth_error (flights p) i = Some f ->
  resume P puter model f (landed i p) = (Throw e, p1) ->
  occur P puter model (Settles i) p = caught P e p1.
Proof. intros H R. rewrite (occur_settles P puter model i f p H), R. reflexivity. Qed.

(** Where a send can fail after an [await], and what it has done by
    then. *)
Lemma resume_throws f e p p1 :
  resume P puter model f p = (Throw e, p1) ->
  match f with
  | AwaitVideo settled => settled = Throw e /\ p1 = p
  | AwaitWrite _ _ _ _ _ => False
  | AwaitUpload text settled =>
      (settled = Throw e /\ p1 = p)
      \/ (exists uploaded e' q, settled = Ok uploaded /\ puter = None
                                /\ askChat puter model text uploaded p = (Throw e', q))
  | AwaitChat settled =>
      (settled = Throw e /\ p1 = p)
      \/ (exists v, settled = Ok (Payload v) /\ extractContent v = Throw e
                    /\ p1 = holding p)
  | AwaitChunk _ chunks failure _ => chunks = [] /\ failure = Some e /\ p1 = p
  end.
Proof.
  intros R. destruct f as [settled|text a settled rest up|text settled|settled|c chunks failure first].
  - destruct settled as [url|e0]; [rewrite resume_video in R; discriminate|].
    rewrite (resume_rejected P puter model _ e0) in R by reflexivity.
    injection R as <- <-. auto.
  - destruct settled as [path|e0].
    + rewrite resume_write in R.
      match type of R with
      | uploadFrom _ _ _ _ ?u ?q = _ =>
          destruct (uploadFrom_run P puter text rest u q) as (f' & q' & E' & _)
      end.
      rewrite E' in R. discriminate.
    + rewrite resume_write_rejected in R. discriminate.
  - destruct settled as [uploaded|e0].
    + rewrite resume_upload in R. right.
      assert (Ep : (exists sdk, puter = Some sdk) \/ puter = None)
        by (destruct puter; eauto).
      destruct Ep as [[sdk Ep]|Ep].
      * rewrite (askChat_run puter model sdk) in R by exact Ep. discriminate.
      * exists uploaded, e, p1. auto.
    + rewrite (resume_rejected P puter model _ e0) in R by reflexivity.
      injection R as <- <-. auto.
  - destruct settled as [[chunks failure|v]|e0].
    + rewrite resume_stream in R. discriminate.
    + rewrite resume_payload in R. right. exists v.
      destruct (extractContent v) as [answer|e0]; [discriminate|].
      injection R as <- <-. auto.
    + rewrite (resume_rejected P puter model _ e0) in R by reflexivity.
      injection R as <- <-. auto.
  - destruct chunks as [|part rest]; [|rewrite resume_chunk in R; discriminate].
    rewrite resume_end in R. destruct failure as [e0|]; [|discriminate].
    injection R as <- <-. auto.
Qed.

End Start.

(** ** The catch block on the page *)

Section Caught.

Variable P : Platform.
Variable puter : option PuterSDK.
Variable model : string.

(** The catch block of a send that failed when it was taken up
    again. *)
Lemma caught_shown e p1 :
  page_wf p1 -> failure_shown P puter model e p1 (caught P e p1).
Proof.
  intros W. unfold failure_shown.
  change (occur P puter model Renders ?x) with (exec (render P) x).
  split; [apply caught_display, W|]. split; [apply caught_status|].
  split; [reflexivity|]. split; [apply caught_apiLog_rendered, W|].
  split; [reflexivity|]. split; [apply caught_calls|]. split; [reflexivity|].
  apply (caught_recovers P puter model e p1).
Qed.

(** The same when React has rendered since. *)
Lemma caught_shown_rendered e p1 :
  page_wf p1 -> failure_shown P puter model e p1 (exec (render P) (caught P e p1)).
Proof.
  intros W. destruct (caught_shown e p1 W) as (H1 & H2 & H3 & H4 & H5 & H6 & H7 & H8).
  change (occur P puter model Renders ?x) with (exec (render P) x) in *.
  destruct (render_run P (caught P e p1)) as (s' & E & _ & C & T & _ & K & _).
  assert (Es : exec (render P) (caught P e p1)
               = with_component s' (with_queue [] (caught P e p1)))
    by (unfold exec; rewrite E; reflexivity).
  unfold failure_shown.
  change (occur P puter model Renders ?x) with (exec (render P) x).
  rewrite render_idempotent.
  split; [exact H1|]. split; [exact H2|].
  split; [rewrite Es; simpl; rewrite C; reflexivity|]. split; [exact H4|].
  split; [rewrite Es; simpl; rewrite T; reflexivity|].
  split; [rewrite Es; simpl component; rewrite K; apply caught_calls|].
  split; [rewrite Es; reflexivity|].
  rewrite go_app.
  destruct (timers_fire P puter model _ (exec (render P) (caught P e p1)) eq_refl)
    as (Q & _ & _). cbv zeta in Q.
  set (p2 := go P puter model _ (exec (render P) (caught P e p1))) in *.
  change (go P puter model [Renders] p2) with (exec (render P) p2).
  destruct (render_keeps P p2) as (_ & _ & _ & _ & S2 & _). rewrite S2, Q.
  rewrite last_status_app. rewrite Es. simpl timers. rewrite T. simpl timers.
  unfold timer_updates. rewrite map_app, last_status_app. reflexivity.
Qed.

Lemma resume_keeps f p r p1 :
  resume P puter model f p = (r, p1) ->
  flights p1 = flights p /\ timers (component p1) = timers (component p).
Proof.
  intros R.
  destruct f as [settled|text a settled rest up|text settled|settled|c chunks failure first].
  - destruct settled as [url|e0].
    + rewrite resume_video in R. injection R as <- <-. auto.
    + rewrite (resume_rejected P puter model _ e0) in R by reflexivity.
      injection R as <- <-. auto.
  - destruct settled as [path|e0].
    + rewrite resume_write in R.
      match type of R with
      | uploadFrom _ _ _ _ ?u ?q = _ =>
          destruct (uploadFrom_run P puter text rest u q) as (f' & q' & E' & U & _)
      end.
      rewrite E' in R. injection R as <- <-. destruct_upload_step U. auto.
    + rewrite resume_write_rejected in R. injection R as <- <-. auto.
  - destruct settled as [uploaded|e0].
    + rewrite resume_upload in R.
      assert (Ep : (exists sdk, puter = Some sdk) \/ puter = None)
        by (destruct puter; eauto).
      destruct Ep as [[sdk Ep]|Ep].
      * rewrite (askChat_run puter model sdk) in R by exact Ep. injection R as <- <-. auto.
      * unfold askChat, window_puter in R. rewrite Ep in R. injection R as <- <-. auto.
    + rewrite (resume_rejected P puter model _ e0) in R by reflexivity.
      injection R as <- <-. auto.
  - destruct settled as [[chunks failure|v]|e0].
    + rewrite resume_stream in R. injection R as <- <-. auto.
    + rewrite resume_payload in R.
      destruct (extractContent v) as [answer|e0]; injection R as <- <-; auto.
    + rewrite (resume_rejected P puter model _ e0) in R by reflexivity.
      injection R as <- <-. auto.
  - destruct chunks as [|part rest].
    + rewrite resume_end in R. destruct failure as [e0|]; injection R as <- <-; auto.
    + rewrite resume_chunk in R. injection R as <- <-. auto.
Qed.

End Caught.

(** ** Where a turn failed *)

(** The API log when the [try] block throws, by where the failure came
    from. *)
Lemma failed_turn_origin P puter model s e s1 :
  wf s ->
  outcome P puter model (trim (input s)) (attachments s)
    (began (trim (input s)) (attachments s) s) (Throw e) s1 ->
  let text := trim (input s) in
  let atts := attachments s in
  let s0 := began text atts s in
  (puter = None -> apiLog s1 = apiLog s)
  /\ (String.eqb model "video-generation" = true -> apiLog s1 = apiLog s)
  /\ (forall e' s1', uploadTurn P puter atts s0 = (Throw e', s1') -> apiLog s1 = apiLog s)
  /\ (forall sdk uploaded s1',
        puter = Some sdk ->
        String.eqb model "video-generation" = false ->
        uploadTurn P puter atts s0 = (Ok uploaded, s1') ->
        let asked :=
          (apiLog s ++ [userMessageForApi (buildUserMessageContent text uploaded)])%list in
        (forall e', ai_chat sdk asked (chatOptions model) = Throw e' -> apiLog s1 = asked)
        /\ (forall response,
              ai_chat sdk asked (chatOptions model) = Ok response ->
              exists rest, apiLog s1 = (asked ++ rest)%list)).
Proof.
  intros Hwf H text atts s0.
  pose proof (began_wf text atts s Hwf) as Hwf0.
  pose proof (began_apiLog text atts s Hwf) as Ha0.
  fold s0 in Hwf0, Ha0. fold text atts s0 in H.
  assert (Hasked : forall up s1', uploadTurn P puter atts s0 = (Ok up, s1') ->
            wf s1'
            /\ apiLog (asked model (buildUserMessageContent text up) s1')
               = (apiLog s ++ [userMessageForApi (buildUserMessageContent text up)])%list).
  { intros up s1' Hu. pose proof (uploadTurn_frame_of _ _ _ _ _ _ Hu) as F.
    pose proof (upload_frame_wf _ _ F Hwf0) as Hwf1. split; [exact Hwf1|].
    rewrite (asked_apiLog _ _ _ Hwf1), (upload_frame_apiLog _ _ F), Ha0. reflexivity. }
  remember (Throw e) as r eqn:Er.
  destruct H as [Hp | sdk' e' Hp Hm | sdk' url Hp Hm | sdk' e' s1 Hp Hm Hu
                  | sdk' up s1 e' Hp Hm Hu s2 Hc | sdk' up s1 ch e' s4 Hp Hm Hu s2 Hc Hl
                  | sdk' up s1 v e' Hp Hm Hu s2 Hc He | sdk' up s1 ch full s4 Hp Hm Hu s2 Hc Hl
                  | sdk' up s1 v a Hp Hm Hu s2 Hc He];
    try discriminate; try (injection Er as ->).
  - repeat split; auto; intros; congruence.
  - repeat split; auto; intros; congruence.
  - pose proof (uploadTurn_frame_of _ _ _ _ _ _ Hu) as F.
    pose proof (upload_frame_apiLog _ _ F) as Ha1. rewrite Ha0 in Ha1.
    repeat split; auto; intros; congruence.
  - destruct (Hasked up s1 Hu) as [Hwf1 Ha2]. fold s2 in Ha2.
    split; [intros; congruence|]. split; [intros; congruence|].
    split; [intros; congruence|].
    intros sdk uploaded s1' Hp' Hm' Hu'. cbv zeta.
    assert (sdk = sdk') by congruence. assert (uploaded = up) by congruence. subst.
    rewrite Ha2 in Hc. split; [intros e'' _; exact Ha2 | intros; congruence].
  - destruct (Hasked up s1 Hu) as [Hwf1 Ha2]. fold s2 in Ha2.
    pose proof (asked_wf model (buildUserMessageContent text up) s1 Hwf1) as Hwf2.
    fold s2 in Hwf2.
    destruct (streamLoop_run ch (Some e) "" true (placed s2) _ _ (placed_streaming s2))
      as (s4' & E4 & Post).
    rewrite Hl in E4. injection E4 as <-.
    destruct (streamed_logs s2 s4 "" ch true Hwf2 Post) as (_ & _ & Ha4).
    split; [intros; congruence|]. split; [intros; congruence|].
    split; [intros; congruence|].
    intros sdk uploaded s1' Hp' Hm' Hu'. cbv zeta.
    assert (sdk = sdk') by congruence. assert (uploaded = up) by congruence. subst.
    rewrite Ha2 in Hc. split; [intros; congruence|].
    intros response _. rewrite Ha4, Ha2. eexists. reflexivity.
  - destruct (Hasked up s1 Hu) as [Hwf1 Ha2]. fold s2 in Ha2.
    pose proof (asked_wf model (buildUserMessageContent text up) s1 Hwf1) as Hwf2.
    fold s2 in Hwf2.
    split; [intros; congruence|]. split; [intros; congruence|].
    split; [intros; congruence|].
    intros sdk uploaded s1' Hp' Hm' Hu'. cbv zeta.
    assert (sdk = sdk') by congruence. assert (uploaded = up) by congruence. subst.
    rewrite Ha2 in Hc. split; [intros; congruence|].
    intros response _. rewrite (placed_apiLog _ Hwf2), Ha2. eexists. reflexivity.
Qed.

(** ** Streaming *)

(** C1 (amended): streaming accumulation.  The text of a chunk is the
    chunk itself if it is a string, else its [text] property if that is
    truthy, else the empty string, and [+=] appends it as a string.
    Take a send that awaits the chat capability (line 597) and is the
    only send in flight, on a page whose references point into the
    store (as on every page a session reaches, [go_wf]), the capability
    answering with a stream of [chunks] that ends normally, and let
    anything happen but another send.  Once the promise the send awaits
    has settled [k + 1] times (once for the answer, once for each chunk
    taken, once more for the end of the stream), the buffer
    [fullContent] (the variable made when the answer is taken) is the
    concatenation of the texts of the first [k] chunks; the display
    follows at the renders of React, not chunk by chunk: whenever React
    renders, the last message of the display log has the buffer's value
    of that moment; and once the stream has ended the send has returned
    and the last message of the API log has the concatenation of all
    the texts.  The same holds, counted from the send itself, of an
    accepted send without attachments to a chat model when no other
    send is in flight and the chat capability answers with such a
    stream. *)
Theorem C1_streaming_accumulation P puter model :
  (forall s, chunkText (VStr s) = VStr s)
  /\ (forall part, is_string part = false -> truthy (getOpt part "text") = true ->
        chunkText part = getOpt part "text")
  /\ (forall part, is_string part = false -> truthy (getOpt part "text") = false ->
        chunkText part = VStr "")
  /\ texts [] = ""
  /\ (forall part rest, texts (part :: rest) = toString (chunkText part) ++ texts rest)
  /\ (forall chunks p occs k,
       page_wf p ->
       flights p = [AwaitChat (Ok (Stream chunks None))] ->
       Forall bystander occs ->
       settles occs = S k ->
       let p' := go P puter model occs p in
       nth (length (cells p)) (cells p') VUndefined = VStr (texts (firstn k chunks))
       /\ lastContent (displayLog (component (occur P puter model Renders p')))
          = Some (Text (texts (firstn k chunks)))
       /\ ((length chunks < k)%nat ->
           flights p' = []
           /\ lastContent (apiLog (component p')) = Some (Text (texts chunks))))
  /\ forall sdk chunks p occs k,
       puter = Some sdk ->
       String.eqb model "video-generation" = false ->
       (forall conversation,
          ai_chat sdk conversation (chatOptions model) = Ok (Stream chunks None)) ->
       page_wf p ->
       flights p = [] ->
       refused (component p) = false ->
       attachments (component p) = [] ->
       Forall bystander occs ->
       settles occs = S k ->
       let p' := go P puter model (Submits :: occs) p in
       nth (length (cells p)) (cells p') VUndefined = VStr (texts (firstn k chunks))
       /\ lastContent (displayLog (component (occur P puter model Renders p')))
          = Some (Text (texts (firstn k chunks)))
       /\ ((length chunks < k)%nat ->
           flights p' = []
           /\ lastContent (apiLog (component p')) = Some (Text (texts chunks))).
Proof.
  split; [reflexivity|].
  split; [intros part H1 H2; unfold chunkText, or_else; rewrite H1, H2; reflexivity|].
  split; [intros part H1 H2; unfold chunkText, or_else; rewrite H1, H2; reflexivity|].
  split; [reflexivity|]. split; [exact texts_cons|].
  assert (Main : forall chunks p occs k,
            page_wf p ->
            flights p = [AwaitChat (Ok (Stream chunks None))] ->
            Forall bystander occs ->
            settles occs = S k ->
            let p' := go P puter model occs p in
            nth (length (cells p)) (cells p') VUndefined = VStr (texts (firstn k chunks))
            /\ lastContent (displayLog (component (occur P puter model Renders p')))
               = Some (Text (texts (firstn k chunks)))
            /\ ((length chunks < k)%nat ->
                flights p' = []
                /\ lastContent (apiLog (component p')) = Some (Text (texts chunks)))).
  { intros chunks p occs k W Hf Hb Hk p'.
    assert (H0 : phase chunks (length (cells p)) 0 p) by (split; [exact W | auto]).
    pose proof (phase_go P puter model chunks _ occs 0 p H0 Hb) as H.
    rewrite Hk, Nat.add_0_r in H. fold p' in H.
    split; [exact (phase_buffer chunks _ k p' H)|].
    split; [exact (phase_display P chunks _ k p' H)|].
    intros Hlt. exact (phase_returned chunks _ k p' H Hlt). }
  split; [exact Main|].
  intros sdk chunks p occs k Hp Hm Hc W Hf Hr Ha Hb Hk p'.
  destruct (submits_reach_chat P puter model sdk (Stream chunks None) p Hp Hm Hr Ha Hc)
    as (F & _ & _ & _ & C).
  rewrite Hf in F. rewrite <- C.
  exact (Main chunks (occur P puter model Submits p) occs k
           (page_wf_submits P puter model p W) F Hb Hk).
Qed.

Lemma C1_streaming_accumulation_witness :
  let puter := Some (Fixtures.sdk (Ok Fixtures.hello)) in
  let p := go Fixtures.platform puter "gpt-4o" [Types "hi"; Submits] initialPage in
  let after occs :=
    lastContent (displayLog (component (go Fixtures.platform puter "gpt-4o"
                                          (occs ++ [Renders]) p))) in
  let mixed := [VStr "Hel"; VObj false [("text", VStr "lo, ")];
                VObj false [("done", VBool false)]; VObj false [("text", VStr "world")]] in
  let puter' := Some (Fixtures.sdk (Ok (Stream mixed None))) in
  let p' := go Fixtures.platform puter' "gpt-4o" [Types "hi"; Submits] initialPage in
  let after' occs :=
    lastContent (displayLog (component (go Fixtures.platform puter' "gpt-4o"
                                          (occs ++ [Renders]) p'))) in
  flights p = [AwaitChat (Ok (Stream [VStr "Hel"; VStr "lo, "; VStr "world"] None))]
  /\ after [Settles 0; Renders; Settles 0] = Some (Text "Hel")
  /\ after [Settles 0; Renders; Settles 0; Renders; Settles 0] = Some (Text "Hello, ")
  /\ after [Settles 0; Renders; Settles 0; Renders; Settles 0; Renders; Settles 0]
     = Some (Text "Hello, world")
  /\ after [Settles 0; Renders; Settles 0; Renders; Settles 0; Renders; Settles 0; Renders;
            Settles 0] = Some (Text "Hello, world")
  /\ lastContent (apiLog (component
       (go Fixtures.platform puter "gpt-4o"
          [Settles 0; Renders; Settles 0; Renders; Settles 0; Renders; Settles 0; Renders;
           Settles 0] p))) = Some (Text "Hello, world")
  /\ after' [Settles 0; Settles 0; Settles 0] = Some (Text "Hello, ")
  /\ after' [Settles 0; Settles 0; Settles 0; Types "more"; Settles 0] = Some (Text "Hello, ")
  /\ after' [Settles 0; Settles 0; Settles 0; Types "more"; Settles 0; TimerFires; Settles 0]
     = Some (Text "Hello, world").
Proof.
  intros puter p after mixed puter' p' after'.
  assert (W : page_wf p) by (apply go_wf, page_wf_initial).
  assert (W' : page_wf p') by (apply go_wf, page_wf_initial).
  assert (Hf : flights p = [AwaitChat (Ok (Stream [VStr "Hel"; VStr "lo, "; VStr "world"] None))])
    by (vm_compute; reflexivity).
  assert (Hf' : flights p' = [AwaitChat (Ok (Stream mixed None))])
    by (vm_compute; reflexivity).
  destruct (C1_streaming_accumulation Fixtures.platform puter "gpt-4o")
    as (_ & _ & _ & _ & _ & H & _).
  destruct (C1_streaming_accumulation Fixtures.platform puter' "gpt-4o")
    as (_ & _ & _ & _ & _ & H' & _).
  split; [exact Hf|].
  pose proof (H _ p [Settles 0; Renders; Settles 0] 1%nat W Hf
                ltac:(repeat constructor) eq_refl) as (_ & H1 & _).
  pose proof (H _ p [Settles 0; Renders; Settles 0; Renders; Settles 0] 2%nat W Hf
                ltac:(repeat constructor) eq_refl) as (_ & H2 & _).
  pose proof (H _ p [Settles 0; Renders; Settles 0; Renders; Settles 0; Renders; Settles 0]
                3%nat W Hf ltac:(repeat constructor) eq_refl) as (_ & H3 & _).
  pose proof (H _ p [Settles 0; Renders; Settles 0; Renders; Settles 0; Renders; Settles 0;
                     Renders; Settles 0]
                4%nat W Hf ltac:(repeat constructor) eq_refl) as (_ & H4 & H5).
  destruct (H5 ltac:(simpl; lia)) as [_ H6].
  pose proof (H' _ p' [Settles 0; Settles 0; Settles 0] 2%nat W' Hf'
                ltac:(repeat constructor) eq_refl) as (_ & M2 & _).
  pose proof (H' _ p' [Settles 0; Settles 0; Settles 0; Types "more"; Settles 0] 3%nat W' Hf'
                ltac:(repeat constructor) eq_refl) as (_ & M3 & _).
  pose proof (H' _ p' [Settles 0; Settles 0; Settles 0; Types "more"; Settles 0; TimerFires;
                       Settles 0] 4%nat W' Hf'
                ltac:(repeat constructor) eq_refl) as (_ & M4 & _).
  unfold after, after'. rewrite !go_app.
  split; [exact H1|]. split; [exact H2|]. split; [exact H3|]. split; [exact H4|].
  split; [exact H6|]. split; [exact M2|]. split; [exact M3 | exact M4].
Defined.

(** C1 as stated fails: the display does not follow chunk by chunk.
    When the three chunks are taken before React renders, the buffer
    goes through "Hel" and "Hello, " but the display log never shows
    them: its last message is the user's, then the empty placeholder,
    then "Hello, world". *)
Lemma C1_display_skips_prefixes :
  let puter := Some (Fixtures.sdk (Ok Fixtures.hello)) in
  let occs := [Types "hi"; Submits; Settles 0; Renders;
               Settles 0; Settles 0; Settles 0; Renders; Settles 0; Renders] in
  let pages := map (fun n => go Fixtures.platform puter "gpt-4o" (firstn n occs) initialPage)
                 (seq 0 (S (length occs))) in
  map (fun p => nth 0 (cells p) VUndefined) pages
  = [VUndefined; VUndefined; VUndefined; VStr ""; VStr "";
     VStr "Hel"; VStr "Hello, "; VStr "Hello, world"; VStr "Hello, world";
     VStr "Hello, world"; VStr "Hello, world"]
  /\ map (fun p => lastContent (displayLog (component p))) pages
     = [None; None; Some (Text "hi"); Some (Text "hi"); Some (Text "");
        Some (Text ""); Some (Text ""); Some (Text ""); Some (Text "Hello, world");
        Some (Text "Hello, world"); Some (Text "Hello, world")].
Proof. vm_compute. split; reflexivity. Qed.

(** ** Failures *)

(** C2 (amended): a failure is shown and the session recovers.  The
    text of the error bubble is looked for in this order (lines
    675-691): the message of a native [Error]; else a truthy
    [error.message] of the thrown value; else its truthy [message];
    else, for an object, its JSON text, or "Unknown error object" when
    [JSON.stringify] throws; else the thrown string itself; else
    "Failed to get response".  The bubble is an assistant message with
    the content "Error: " followed by that text.  Whenever the [try]
    block of a send throws [e], be it when the send is taken up again
    after an [await], whatever else is in flight or queued, or at once
    because the SDK is not loaded, the [catch] block does what
    [failure_shown] says: the bubble is appended to the display log and
    the status becomes [error], whatever it was, at the next render;
    the API log keeps its messages; one timer of 3000 ms that sets
    [ready] is scheduled; no capability is called and the send is over
    (no retry); and when the pending timers have fired the status is
    [ready].  (The page is one whose references point into the store,
    as is every page that a session reaches, [go_wf].) *)
Theorem C2_failure_shown_then_ready P puter model :
  (forall e, instanceofError e = true -> errorText P e = getOpt e "message")
  /\ (forall e,
        instanceofError e = false ->
        truthy (getOpt (getOpt e "error") "message") = true ->
        errorText P e = getOpt (getOpt e "error") "message")
  /\ (forall e,
        instanceofError e = false ->
        truthy (getOpt (getOpt e "error") "message") = false ->
        truthy (getOpt e "message") = true ->
        errorText P e = getOpt e "message")
  /\ (forall e,
        instanceofError e = false ->
        truthy (getOpt (getOpt e "error") "message") = false ->
        truthy (getOpt e "message") = false ->
        typeof_is e TObject = true ->
        errorText P e = match JSON_stringify P e with
                        | Ok json => VStr json
                        | Throw _ => VStr "Unknown error object"
                        end)
  /\ (forall e,
        instanceofError e = false ->
        truthy (getOpt (getOpt e "error") "message") = false ->
        truthy (getOpt e "message") = false ->
        typeof_is e TObject = false ->
        errorText P e = if typeof_is e TString then e else VStr "Failed to get response")
  /\ (forall e,
        errorMessage P e
        = {| role := assistant; content := Text ("Error: " ++ toString (errorText P e));
             attachments_of := None; videoUrl := None; isStreaming := None |})
  /\ (forall p i f e p1,
        page_wf p ->
        nth_error (flights p) i = Some f ->
        resume P puter model f (landed i p) = (Throw e, p1) ->
        let p' := occur P puter model (Settles i) p in
        failure_shown P puter model e p1 p'
        /\ flights p' = (firstn i (flights p) ++ skipn (S i) (flights p))%list
        /\ timers (component p1) = timers (component p))
  /\ (forall p,
        page_wf p ->
        refused (component p) = false ->
        puter = None ->
        failure_shown P puter model (Error "Puter SDK not loaded") (started p)
          (occur P puter model Submits p)).
Proof.
  split; [intros e H; unfold errorText; rewrite H; reflexivity|].
  split; [intros e H1 H2; unfold errorText; rewrite H1, H2; reflexivity|].
  split; [intros e H1 H2 H3; unfold errorText; rewrite H1, H2, H3; reflexivity|].
  split; [intros e H1 H2 H3 H4; unfold errorText; rewrite H1, H2, H3, H4; reflexivity|].
  split; [intros e H1 H2 H3 H4; unfold errorText; rewrite H1, H2, H3, H4; reflexivity|].
  split; [reflexivity|]. split.
  - intros p i f e p1 W Hf R p'.
    pose proof (resume_wf P puter model _ _ _ _ R (page_wf_flights _ _ W)) as W1.
    destruct (resume_keeps P puter model _ _ _ _ R) as [F T].
    unfold p'. rewrite (occur_settles_throw P puter model i f e p p1 Hf R).
    split; [apply caught_shown, W1|]. split; [exact F | exact T].
  - intros p W Hr Hp. rewrite occur_submits by exact Hr.
    pose proof (start_run P puter model (trim (input (component p)))
                  (attachments (component p)) (started p)) as H.
    rewrite Hp in H. rewrite Hp at 2. rewrite H.
    apply caught_shown_rendered, started_wf, W.
Qed.

Lemma C2_failure_shown_then_ready_witness :
  let puter := Some (Fixtures.sdk (Throw (Error "rate limited"))) in
  let p := go Fixtures.platform puter "gpt-4o" [Types "hi"; Submits] initialPage in
  let p' := go Fixtures.platform puter "gpt-4o" [Settles 0; Renders] p in
  flights p = [AwaitChat (Throw (Error "rate limited"))]
  /\ status (component p) = thinking
  /\ displayLog (component p')
     = [userMessageDisplay "hi" [];
        {| role := assistant; content := Text "Error: rate limited";
           attachments_of := None; videoUrl := None; isStreaming := None |}]
  /\ status (component p') = error
  /\ flights p' = []
  /\ status (component (go Fixtures.platform puter "gpt-4o" [TimerFires; Renders] p')) = ready.
Proof.
  intros puter p p'.
  assert (W : page_wf p) by (apply go_wf, page_wf_initial).
  destruct (C2_failure_shown_then_ready Fixtures.platform puter "gpt-4o")
    as (_ & _ & _ & _ & _ & _ & H & _).
  destruct (H p 0%nat (AwaitChat (Throw (Error "rate limited"))) (Error "rate limited")
              (landed 0 p) W eq_refl eq_refl)
    as ((H1 & H2 & _ & _ & _ & _ & H3 & _) & _).
  vm_compute in H1, H2, H3. vm_compute.
  split; [reflexivity|]. split; [reflexivity|]. split; [exact H1|]. split; [exact H2|].
  split; [exact H3 | reflexivity].
Defined.

(** C2 as stated fails: when the stream breaks after its first chunk,
    the status that [error] replaces is [ready], not [thinking]. *)
Lemma C2_error_can_follow_ready :
  let broken := Stream [VStr "Hel"] (Some (Error "connection lost")) in
  let s' := exec (sendMessage Fixtures.platform (Some (Fixtures.sdk (Ok broken))) "gpt-4o")
              (Fixtures.typed "hi") in
  statuses (trace s') = [thinking; thinking; ready; error]
  /\ lastContent (displayLog s') = Some (Text "Error: connection lost").
Proof. vm_compute. split; reflexivity. Qed.

(** C3 (amended): what a failed send leaves in the logs.  The [catch]
    block appends the error bubble to the display log only and leaves
    the API log as it stood when the failure was thrown; nothing the
    send had logged before is taken back.
    On the page, whatever else is in flight or queued: when the [try]
    block throws as the send is taken up again after an [await], the
    API log after the [catch] block is the API log at the throw, and
    the display log at the next render is what it would have been,
    followed by the error bubble; and the API log is the one before the
    promise settled unless the failure is that of the fallback
    extraction.  (The page is one whose references point into the
    store, as is every page that a session reaches, [go_wf].)
    In a send during which nothing else happens ([sendMessage]): the
    API log after the [catch] block is the one at the throw and the
    display log is the one at the throw followed by the error bubble;
    the API log at the throw is the log before the send if the SDK is
    not loaded, if the model is the video model or if the upload
    failed; it is that log followed by the turn's user message if the
    chat capability rejected the call; and it begins with these if the
    chat capability had answered. *)
Theorem C3_failure_keeps_what_was_logged P puter model :
  (forall p i f e p1,
     page_wf p ->
     nth_error (flights p) i = Some f ->
     resume P puter model f (landed i p) = (Throw e, p1) ->
     let p' := occur P puter model (Settles i) p in
     apiLog (component p') = apiLog (component p1)
     /\ displayLog (component (occur P puter model Renders p'))
        = (displayLog (component (occur P puter model Renders p1))
           ++ [errorMessage P e])%list
     /\ (puter <> None ->
         (forall v, f <> AwaitChat (Ok (Payload v))) ->
         apiLog (component p') = apiLog (component p)))
  /\ (forall s e s1,
        wf s ->
        refused s = false ->
        let text := trim (input s) in
        let atts := attachments s in
        let s0 := exec (sendMessage_begin text atts) s in
        sendMessage_try P puter model text atts s0 = (Throw e, s1) ->
        let s' := exec (sendMessage P puter model) s in
        apiLog s' = apiLog s1
        /\ displayLog s' = (displayLog s1 ++ [errorMessage P e])%list
        /\ (puter = None -> apiLog s1 = apiLog s)
        /\ (String.eqb model "video-generation" = true -> apiLog s1 = apiLog s)
        /\ (forall e' s1',
              uploadTurn P puter atts s0 = (Throw e', s1') -> apiLog s1 = apiLog s)
        /\ (forall sdk uploaded s1',
              puter = Some sdk ->
              String.eqb model "video-generation" = false ->
              uploadTurn P puter atts s0 = (Ok uploaded, s1') ->
              let asked :=
                (apiLog s
                 ++ [userMessageForApi (buildUserMessageContent text uploaded)])%list in
              (forall e', ai_chat sdk asked (chatOptions model) = Throw e' ->
                          apiLog s1 = asked)
              /\ (forall response,
                    ai_chat sdk asked (chatOptions model) = Ok response ->
                    exists rest, apiLog s1 = (asked ++ rest)%list))).
Proof.
  split.
  - intros p i f e p1 W Hf R p'.
    pose proof (resume_wf P puter model _ _ _ _ R (page_wf_flights _ _ W)) as W1.
    unfold p'. rewrite (occur_settles_throw P puter model i f e p p1 Hf R).
    split; [apply caught_apiLog, W1|]. split; [apply caught_display, W1|].
    intros Hp Hv. rewrite (caught_apiLog P e p1 W1).
    pose proof (resume_throws P puter model f e _ p1 R) as H.
    destruct f as [settled|text a settled rest up|text settled|settled|c chunks failure first].
    + destruct H as [_ ->]. reflexivity.
    + destruct H.
    + destruct H as [[_ ->]|(up & e' & q & _ & Hn & _)]; [reflexivity | contradiction].
    + destruct H as [[_ ->]|(v & -> & _)]; [reflexivity|]. destruct (Hv v eq_refl).
    + destruct H as (_ & _ & ->). reflexivity.
  - intros s e s1 Hwf Hacc text atts s0 Htry s'.
    change s0 with (began text atts s) in *.
    assert (Es' : s' = failed P e s1).
    { subst s'. unfold exec. rewrite (sendMessage_run P puter model s Hacc).
      fold text atts. rewrite Htry. reflexivity. }
    pose proof (sendMessage_try_outcome _ _ _ _ _ _ _ _ Htry) as Hout.
    destruct (failed_turn_logs P puter model s e s1 Hwf Hout) as (Hwf1 & _).
    rewrite Es'. split; [apply failed_apiLog; exact Hwf1|].
    split; [apply failed_displayLog; exact Hwf1|].
    exact (failed_turn_origin P puter model s e s1 Hwf Hout).
Qed.

Lemma C3_failure_keeps_what_was_logged_witness :
  let sdk := Fixtures.sdk (Throw (Error "rate limited")) in
  let s := Fixtures.typed "hi" in
  let s' := exec (sendMessage Fixtures.platform (Some sdk) "gpt-4o") s in
  let p := go Fixtures.platform (Some sdk) "gpt-4o" [Types "hi"; Submits] initialPage in
  let p' := go Fixtures.platform (Some sdk) "gpt-4o" [Settles 0] p in
  apiLog s' = [userMessageForApi (Text "hi")]
  /\ displayLog s'
     = [userMessageDisplay "hi" [];
        errorMessage Fixtures.platform (Error "rate limited")]
  /\ apiLog (component p) = [userMessageForApi (Text "hi")]
  /\ apiLog (component p') = [userMessageForApi (Text "hi")]
  /\ displayLog (component (go Fixtures.platform (Some sdk) "gpt-4o" [Renders] p'))
     = [userMessageDisplay "hi" [];
        errorMessage Fixtures.platform (Error "rate limited")].
Proof.
  intros sdk s s' p p'.
  destruct (C3_failure_keeps_what_was_logged Fixtures.platform (Some sdk) "gpt-4o")
    as (H1 & H2).
  set (begun := exec (sendMessage_begin (trim (input s)) (attachments s)) s).
  set (attempt := sendMessage_try Fixtures.platform (Some sdk) "gpt-4o" (trim (input s))
                    (attachments s) begun).
  assert (Htry : attempt = (Throw (Error "rate limited"), snd attempt))
    by (vm_compute; reflexivity).
  assert (Hwf : wf s) by (split; constructor).
  destruct (H2 s (Error "rate limited") (snd attempt) Hwf eq_refl Htry)
    as (Ha & Hd & _ & _ & _ & Hc).
  destruct (Hc sdk [] begun eq_refl eq_refl eq_refl) as [Hr _].
  pose proof (Hr (Error "rate limited") eq_refl) as Hlog.
  assert (W : page_wf p) by (apply go_wf, page_wf_initial).
  destruct (H1 p 0%nat (AwaitChat (Throw (Error "rate limited"))) (Error "rate limited")
              (landed 0 p) W eq_refl eq_refl) as (_ & Hd' & Hsame).
  pose proof (Hsame ltac:(discriminate) ltac:(discriminate)) as Hp.
  fold s' in Ha, Hd. rewrite Hlog in Ha.
  split; [exact Ha|]. split; [vm_compute in Hd; vm_compute; exact Hd|].
  split; [vm_compute; reflexivity|].
  split; [vm_compute in Hp; vm_compute; exact Hp|].
  vm_compute in Hd'. vm_compute. exact Hd'.
Defined.

(** C3 as stated fails: a rejected chat call leaves the turn's user
    message in the API log, and a stream that breaks before its first
    chunk leaves the empty placeholder in both logs, in the display log
    right before the error bubble. *)
Lemma C3_failed_send_changes_api_log :
  let rejected := Some (Fixtures.sdk (Throw (Error "rate limited"))) in
  let broken := Some (Fixtures.sdk (Ok (Stream [] (Some (Error "connection lost"))))) in
  let s := Fixtures.typed "hi" in
  let s1 := exec (sendMessage Fixtures.platform rejected "gpt-4o") s in
  let s2 := exec (sendMessage Fixtures.platform broken "gpt-4o") s in
  apiLog s = []
  /\ apiLog s1 = [userMessageForApi (Text "hi")]
  /\ apiLog s1 <> apiLog s
  /\ apiLog s2 = [userMessageForApi (Text "hi"); placeholder]
  /\ displayLog s2 = [userMessageDisplay "hi" []; placeholder;
                      errorMessage Fixtures.platform (Error "connection lost")].
Proof. vm_compute. repeat split; try reflexivity. discriminate. Qed.

(** ** The empty stream *)

(** C10 (amended): an empty stream leaves the status [thinking].  A
    send that takes a stream without chunks from the chat capability
    puts the placeholder into the logs and sets the status [thinking]
    ([holding]), then leaves the loop without throwing and settles the
    message with the empty content ([finished]); it sets no other
    status.  Let such a send
    await the chat capability (line 597) as the only send in flight,
    on a page whose references point into the store (as on every page
    a session reaches, [go_wf]), with the status [thinking], no timer
    pending and nothing queued that sets another status.  Then
    whatever happens afterwards, in any order (typing, selecting,
    sending, timers, renders, promises settling), the status is
    [thinking], no timer is pending and a send is refused; and once the
    promise has settled twice (for the answer and for the end of the
    stream) the send has returned, the last message of the API log has
    the empty content and so has the last message of the display log
    when React has rendered.  The same holds, counted from the send
    itself, of an accepted send without attachments to a chat model
    when no other send is in flight, no timer is pending and the chat
    capability answers with such a stream. *)
Theorem C10_empty_stream_leaves_thinking P puter model :
  (forall q, resume P puter model (AwaitChat (Ok (Stream [] None))) q
             = (Ok (Some (AwaitChunk (length (cells q)) [] None true)), holding q))
  /\ (forall cell first q,
        resume P puter model (AwaitChunk cell [] None first) q
        = (Ok None, finished cell q))
  /\ (forall p occs,
       page_wf p ->
       flights p = [AwaitChat (Ok (Stream [] None))] ->
       status (component p) = thinking ->
       timers (component p) = [] ->
       Forall calm (queue p) ->
       let p' := go P puter model occs p in
       status (component p') = thinking
       /\ timers (component p') = []
       /\ refused (component p') = true
       /\ occur P puter model Submits p' = p'
       /\ ((2 <= settles occs)%nat ->
           flights p' = []
           /\ lastContent (apiLog (component p')) = Some (Text "")
           /\ lastContent (displayLog (component (occur P puter model Renders p')))
              = Some (Text "")))
  /\ forall sdk p occs,
       puter = Some sdk ->
       String.eqb model "video-generation" = false ->
       (forall conversation,
          ai_chat sdk conversation (chatOptions model) = Ok (Stream [] None)) ->
       page_wf p ->
       flights p = [] ->
       timers (component p) = [] ->
       refused (component p) = false ->
       attachments (component p) = [] ->
       let p' := go P puter model (Submits :: occs) p in
       status (component p') = thinking
       /\ timers (component p') = []
       /\ refused (component p') = true
       /\ occur P puter model Submits p' = p'
       /\ ((2 <= settles occs)%nat ->
           flights p' = []
           /\ lastContent (apiLog (component p')) = Some (Text "")
           /\ lastContent (displayLog (component (occur P puter model Renders p')))
              = Some (Text "")).
Proof.
  split; [intros q; apply resume_stream|].
  split; [intros cell first q; apply resume_end|].
  assert (Main : forall p occs,
            page_wf p ->
            flights p = [AwaitChat (Ok (Stream [] None))] ->
            status (component p) = thinking ->
            timers (component p) = [] ->
            Forall calm (queue p) ->
            let p' := go P puter model occs p in
            status (component p') = thinking
            /\ timers (component p') = []
            /\ refused (component p') = true
            /\ occur P puter model Submits p' = p'
            /\ ((2 <= settles occs)%nat ->
                flights p' = []
                /\ lastContent (apiLog (component p')) = Some (Text "")
                /\ lastContent (displayLog (component (occur P puter model Renders p')))
                   = Some (Text ""))).
  { intros p occs W Hf Hs Ht Hq p'.
    assert (H0 : phase [] (length (cells p)) 0 p) by (split; [exact W | auto]).
    assert (K0 : stays_thinking p) by (split; [exact Hs | split; assumption]).
    destruct (thinking_go P puter model _ occs 0 p H0 K0) as [H K]. fold p' in H, K.
    destruct K as (Ks & Kt & _).
    pose proof (thinking_refused _ Ks) as Hr.
    split; [exact Ks|]. split; [exact Kt|]. split; [exact Hr|].
    split; [apply occur_refused, Hr|].
    intros Hn. rewrite Nat.add_0_r in H.
    destruct (settles occs) as [|[|j]]; try lia.
    destruct (phase_returned [] _ (S j) p' H ltac:(simpl; lia)) as [F A].
    split; [exact F|]. split; [exact A|].
    pose proof (phase_display P [] _ (S j) p' H) as D. exact D. }
  split; [exact Main|].
  intros sdk p occs Hp Hm Hc W Hf Ht Hr Ha p'.
  destruct (submits_reach_chat P puter model sdk (Stream [] None) p Hp Hm Hr Ha Hc)
    as (F & S & T & Q & _).
  rewrite Hf in F. rewrite Ht in T.
  apply (Main (occur P puter model Submits p) occs
           (page_wf_submits P puter model p W) F S T).
  rewrite Q. constructor.
Qed.

Lemma C10_empty_stream_leaves_thinking_witness :
  let puter := Some (Fixtures.sdk (Ok (Stream [] None))) in
  let p := go Fixtures.platform puter "gpt-4o" [Types "hi"; Submits] initialPage in
  let p' := go Fixtures.platform puter "gpt-4o"
              [Settles 0; Renders; Settles 0; Types "again"; Submits; TimerFires; Renders] p in
  flights p = [AwaitChat (Ok (Stream [] None))]
  /\ status (component p') = thinking
  /\ occur Fixtures.platform puter "gpt-4o" Submits p' = p'
  /\ flights p' = []
  /\ lastContent (apiLog (component p')) = Some (Text "")
  /\ lastContent (displayLog (component p')) = Some (Text "").
Proof.
  intros puter p p'.
  assert (W : page_wf p) by (apply go_wf, page_wf_initial).
  assert (Hf : flights p = [AwaitChat (Ok (Stream [] None))]) by (vm_compute; reflexivity).
  destruct (C10_empty_stream_leaves_thinking Fixtures.platform puter "gpt-4o")
    as (_ & _ & H & _).
  destruct (H p [Settles 0; Renders; Settles 0; Types "again"; Submits; TimerFires; Renders]
              W Hf eq_refl eq_refl ltac:(vm_compute; constructor))
    as (H1 & _ & _ & H2 & H3).
  destruct (H3 ltac:(simpl; lia)) as (H4 & H5 & H6).
  fold p' in H1, H2, H4, H5, H6.
  split; [exact Hf|]. split; [exact H1|]. split; [exact H2|]. split; [exact H4|].
  split; [exact H5|]. vm_compute in H6. vm_compute. exact H6.
Defined.

(** C10 as stated fails: if an earlier failed send has left its timer
    pending, that timer ends the [thinking] of the empty stream, and the
    next send is accepted. *)
Lemma C10_pending_timer_ends_thinking :
  let rejected := Some (Fixtures.sdk (Throw (Error "rate limited"))) in
  let silent := Some (Fixtures.sdk (Ok (Stream [] None))) in
  let s1 := exec (sendMessage Fixtures.platform rejected "gpt-4o") (Fixtures.typed "hi") in
  let s2 := exec (sendMessage Fixtures.platform silent "gpt-4o") (with_input "again" s1) in
  let s3 := run Fixtures.platform silent "gpt-4o" [TimerFired; Typed "more"] s2 in
  let s4 := exec (sendMessage Fixtures.platform silent "gpt-4o") s3 in
  status s1 = error
  /\ refused (with_input "again" s1) = false
  /\ status s2 = thinking
  /\ lastContent (displayLog s2) = Some (Text "")
  /\ status s3 = ready
  /\ refused s3 = false
  /\ length (displayLog s3) = 4%nat
  /\ length (displayLog s4) = 6%nat.
Proof. vm_compute. repeat split; reflexivity. Qed.

(** * Further properties *)

(** ** More on the Response Normalizer *)

Lemma extractItemText_itemText item : extractItemText item = Ok (VStr (itemText item)).
Proof.
  unfold extractItemText, itemText.
  destruct item as [| |b|n|s|items|isErr fields]; try reflexivity.
  - destruct b; reflexivity.
  - simpl. destruct (number_falsy n); reflexivity.
  - simpl. destruct (String.eqb_spec s ""); simpl; congruence.
  - simpl. unfold getOpt. simpl.
    destruct (lookup_field "text" fields) as [t|]; simpl.
    + destruct t; reflexivity.
    + destruct isErr; reflexivity.
Qed.

Lemma mapM_extractItemText items :
  mapM_result extractItemText items = Ok (map (fun item => VStr (itemText item)) items).
Proof.
  induction items as [|x xs IH]; [reflexivity|].
  simpl. rewrite extractItemText_itemText. simpl. rewrite IH. reflexivity.
Qed.

Lemma join_values_strings (l : list string) :
  join_values "" (map VStr l) = String.concat "" l.
Proof. unfold join_values, join. rewrite map_map. simpl. rewrite map_id. reflexivity. Qed.

(** X1: the Response Normalizer on an array content.  When the payload is
    an object without a string [text], and its message (the [message]
    property, or the payload itself when that is nullish) is not a
    string and has an array as [content], the result is the
    concatenation, in order and without separator, of what each item
    gives: the item itself if it is a string, its [text] if that is a
    string, and nothing otherwise (null, numbers, objects without a
    string [text]). *)
Theorem normalizer_joins_every_part payload items :
  truthy payload = true ->
  is_string payload = false ->
  is_string (getOpt payload "text") = false ->
  is_string (messageOf payload) = false ->
  getOpt (messageOf payload) "content" = VArr items ->
  extractResponseText payload = Ok (VStr (String.concat "" (map itemText items))).
Proof.
  intros Ht Hs Htext Hm Hc. unfold extractResponseText.
  rewrite Ht, Hs, Htext. simpl negb. cbv iota.
  rewrite (get_defined _ (truthy_defined _ Ht)). simpl rbind.
  fold (messageOf payload). rewrite Hm.
  assert (D : nullish_value (messageOf payload) = false)
    by (apply nullish_defined, truthy_defined, Ht).
  rewrite Hc. simpl is_string. simpl isArray. cbv iota.
  rewrite (get_defined _ D), Hc. simpl.
  rewrite mapM_extractItemText. simpl.
  rewrite <- (map_map itemText VStr), join_values_strings. reflexivity.
Qed.

Lemma normalizer_joins_every_part_witness :
  extractResponseText
    (VObj false [("message", VObj false [("content",
       VArr [VStr "a"; VObj false [("text", VStr "b")]; VNull; VNum 7;
             VObj false [("text", VNum 3)]; VStr "c"])])])
  = Ok (VStr "abc").
Proof.
  apply (normalizer_joins_every_part
           (VObj false [("message", VObj false [("content",
              VArr [VStr "a"; VObj false [("text", VStr "b")]; VNull; VNum 7;
                    VObj false [("text", VNum 3)]; VStr "c"])])])
           [VStr "a"; VObj false [("text", VStr "b")]; VNull; VNum 7;
            VObj false [("text", VNum 3)]; VStr "c"]); reflexivity.
Defined.

(** X2: the Response Normalizer never throws, and its result is a string
    in every case but one: the content of the message is an object other
    than an array and other than null, it has a [text] property, and
    that property is neither a string nor nullish; the result is then
    that property as it is. *)
Theorem normalizer_result_is_string_or_raw_text payload :
  exists v,
    extractResponseText payload = Ok v
    /\ (is_string v = true
        \/ (let content := getOpt (messageOf payload) "content" in
            typeof_is content TObject = true
            /\ isArray content = false
            /\ v = getOpt content "text"
            /\ is_string v = false
            /\ nullish_value v = false)).
Proof.
  unfold extractResponseText.
  destruct (negb (truthy payload)) eqn:T; [eexists; split; [reflexivity | left; reflexivity]|].
  apply negb_false_iff in T. pose proof (truthy_defined _ T) as D0.
  destruct (is_string payload) eqn:S; [eexists; split; [reflexivity | left; exact S]|].
  rewrite !(get_defined _ D0).
  destruct (is_string (getOpt payload "text")) eqn:S1;
    [eexists; split; [reflexivity | left; exact S1]|].
  simpl rbind. fold (messageOf payload).
  assert (D : nullish_value (messageOf payload) = false) by (apply nullish_defined; exact D0).
  destruct (is_string (messageOf payload)) eqn:S2;
    [eexists; split; [reflexivity | left; exact S2]|].
  rewrite !(get_defined _ D).
  destruct (is_string (getOpt (messageOf payload) "content")) eqn:S3;
    [eexists; split; [reflexivity | left; exact S3]|].
  destruct (isArray (getOpt (messageOf payload) "content")) eqn:A.
  - simpl rbind. rewrite mapM_extractItemText. simpl.
    eexists; split; [reflexivity | left; reflexivity].
  - destruct (typeof_is (getOpt (messageOf payload) "content") TObject) eqn:O; simpl andb;
      [|simpl; eexists; split; [reflexivity | left; reflexivity]].
    destruct (is_null (getOpt (messageOf payload) "content")) eqn:N; simpl;
      [eexists; split; [reflexivity | left; reflexivity]|].
    destruct (has_in_object "text" _ O N) as [b ->]. simpl.
    destruct b; [|eexists; split; [reflexivity | left; reflexivity]].
    assert (Dc : nullish_value (getOpt (messageOf payload) "content") = false).
    { revert O N. destruct (getOpt (messageOf payload) "content"); cbv; congruence. }
    rewrite (get_defined _ Dc). simpl.
    set (t := getOpt (getOpt (messageOf payload) "content") "text").
    destruct (is_string (nullish t (VStr ""))) eqn:St.
    + eexists; split; [reflexivity | left; exact St].
    + eexists; split; [reflexivity|]. right. cbv zeta. fold t.
      destruct t; simpl in St; try discriminate; repeat split; auto.
Qed.

(** ** More on the fallback extraction *)

(** X3: the fallback extraction of [sendMessage] throws exactly when the
    response has a truthy [message] that is an object whose [content]
    is [null] (the [in] test of line 645 is then applied to null); on
    every other response it returns. *)
Theorem fallback_throws_exactly_on_null_content response :
  (exists e, extractContent response = Throw e)
  <-> (let message := getOpt response "message" in
       truthy message = true
       /\ typeof_is message TObject = true
       /\ getOpt message "content" = VNull).
Proof.
  unfold extractContent. cbv zeta.
  set (message := getOpt response "message").
  destruct (truthy message) eqn:T; simpl negb; cbv iota.
  2: { split; [intros [e H]; discriminate | intros (H & _); discriminate]. }
  assert (Dr : nullish_value response = false).
  { destruct response; try reflexivity; subst message; simpl in T; discriminate. }
  rewrite (get_defined _ Dr). fold message. simpl rbind.
  pose proof (truthy_defined _ T) as Dm.
  destruct (is_string message) eqn:S.
  { split; [intros [e H]; discriminate|].
    intros (_ & H & _). destruct message; simpl in S; try discriminate; cbv in H; discriminate. }
  destruct (typeof_is message TObject) eqn:O; simpl andb.
  2: { split; [intros [e H]; destruct (negb (is_null message)); discriminate
              | intros (_ & H & _); discriminate]. }
  assert (N : is_null message = false) by (destruct message; simpl in *; congruence).
  rewrite N. simpl negb. cbv iota.
  rewrite (get_defined _ Dm). simpl rbind.
  set (c := getOpt message "content").
  destruct c as [| |b|n|s|items|isErr fields] eqn:Ec; simpl.
  - split; [intros [e H]; discriminate | intros (_ & _ & H); discriminate].
  - split; [intros _; auto | intros _; eexists; reflexivity].
  - split; [intros [e H]; discriminate | intros (_ & _ & H); discriminate].
  - split; [intros [e H]; discriminate | intros (_ & _ & H); discriminate].
  - split; [intros [e H]; discriminate | intros (_ & _ & H); discriminate].
  - split; [|intros (_ & _ & H); discriminate].
    intros [e H]. destruct (truthy (first_text (VArr items))) eqn:F; [|discriminate].
    unfold first_text in F. simpl in F.
    assert (Dh : nullish_value (hd VUndefined items) = false).
    { destruct (hd VUndefined items); try reflexivity; simpl in F; discriminate. }
    rewrite (get_defined _ Dh) in H. discriminate.
  - split; [|intros (_ & _ & H); discriminate].
    intros [e H]. destruct (lookup_field "text" fields); simpl in H; [|discriminate].
    discriminate.
Qed.
Lemma fallback_throws_exactly_on_null_content_witness :
  exists e,
    extractContent (VObj false [("message", VObj false [("content", VNull)])]) = Throw e.
Proof.
  apply (proj2 (fallback_throws_exactly_on_null_content
                  (VObj false [("message", VObj false [("content", VNull)])]))).
  vm_compute. repeat split; reflexivity.
Defined.

(** ** Trimming *)

Ltac first_bytes s :=
  destruct s as [|? [|? [|? ?]]]; simpl;
  repeat match goal with
         | |- context [if ?x then _ else _] => destruct x; simpl
         end;
  try reflexivity; try lia.

Lemma trimStart_unfold s :
  trimStart s = match spaceLen s with
                | O => s
                | n => trimStart (drop n s)
                end.
Proof.
  first_bytes s.
Qed.

Lemma all_space_unfold s :
  all_space s = match spaceLen s with
                | O => match s with EmptyString => true | _ => false end
                | n => all_space (drop n s)
                end.
Proof.
  first_bytes s.
Qed.

Lemma drop_length n s : (String.length (drop n s) <= String.length s)%nat.
Proof.
  revert s. induction n as [|n IH]; intros [|a s]; simpl; try lia.
  specialize (IH s). lia.
Qed.

Lemma spaceLen_drop s :
  (0 < spaceLen s)%nat -> (String.length (drop (spaceLen s) s) < String.length s)%nat.
Proof.
  first_bytes s.
Qed.

(** A white-space character at the start of a text is one at the start
    of every text that extends it. *)
Lemma spaceLen_app s t : (0 < spaceLen s)%nat -> spaceLen (s ++ t) = spaceLen s.
Proof.
  first_bytes s.
Qed.

Lemma drop_app s t : (0 < spaceLen s)%nat ->
  drop (spaceLen s) (s ++ t) = drop (spaceLen s) s ++ t.
Proof.
  first_bytes s.
Qed.

(** What [trimStart] returns starts with no white space. *)
Lemma trimStart_clean s : spaceLen (trimStart s) = O.
Proof.
  remember (String.length s) as n eqn:Hn. revert s Hn.
  induction n as [n IH] using lt_wf_ind. intros s Hn.
  rewrite trimStart_unfold. destruct (spaceLen s) as [|k] eqn:E; [exact E|].
  apply (IH (String.length (drop (S k) s))); [|reflexivity].
  rewrite <- E, Hn. apply spaceLen_drop. lia.
Qed.

Lemma trimStart_fixed s : spaceLen s = O -> trimStart s = s.
Proof. intros H. rewrite trimStart_unfold, H. reflexivity. Qed.

Lemma all_space_app s : forall t, all_space s = true -> all_space (s ++ t) = all_space t.
Proof.
  remember (String.length s) as n eqn:Hn. revert s Hn.
  induction n as [n IH] using lt_wf_ind. intros s Hn t H.
  rewrite all_space_unfold in H. destruct (spaceLen s) as [|k] eqn:E.
  - destruct s; [reflexivity | discriminate].
  - rewrite (all_space_unfold (s ++ t)), spaceLen_app by lia.
    rewrite E, <- E, drop_app by lia.
    apply (IH (String.length (drop (spaceLen s) s))); [|reflexivity|rewrite E; exact H].
    rewrite Hn. apply spaceLen_drop. lia.
Qed.

(** [trimEnd] cuts white space off the end, and nothing else. *)
Lemma trimEnd_split s : exists t, s = trimEnd s ++ t /\ all_space t = true.
Proof.
  induction s as [|a rest (t & E & H)]; [exists ""; split; reflexivity|].
  cbn [trimEnd]. destruct (all_space (String a rest)) eqn:A.
  - exists (String a rest). split; [reflexivity | exact A].
  - exists t. split; [|exact H]. simpl. rewrite <- E. reflexivity.
Qed.

Lemma trimEnd_idempotent s : trimEnd (trimEnd s) = trimEnd s.
Proof.
  induction s as [|a rest IH]; [reflexivity|].
  cbn [trimEnd]. destruct (all_space (String a rest)) eqn:A; [reflexivity|].
  cbn [trimEnd]. rewrite IH.
  destruct (all_space (String a (trimEnd rest))) eqn:B; [|reflexivity].
  destruct (trimEnd_split rest) as (t & E & H).
  apply (all_space_app _ t) in B.
  change (String a (trimEnd rest) ++ t) with (String a (trimEnd rest ++ t)) in B.
  rewrite <- E, H in B. congruence.
Qed.

Lemma trim_idempotent s : trim (trim s) = trim s.
Proof.
  unfold trim. set (u := trimStart s).
  assert (C : spaceLen (trimEnd u) = O).
  { destruct (spaceLen (trimEnd u)) as [|k] eqn:E; [reflexivity|].
    destruct (trimEnd_split u) as (t & Eu & _).
    pose proof (spaceLen_app (trimEnd u) t ltac:(lia)) as H.
    rewrite <- Eu in H. unfold u in H at 1. rewrite trimStart_clean in H. lia. }
  rewrite (trimStart_fixed _ C). apply trimEnd_idempotent.
Qed.

Lemma nonempty_false s : nonempty s = false -> s = "".
Proof.
  unfold nonempty. intros H. apply negb_false_iff in H. apply String.eqb_eq; exact H.
Qed.

(** ** The text of a content *)

Lemma filter_isTextPart_files (l : list Attachment) :
  filter isTextPart (map (fun a => FilePart (puterPath_of a)) l) = [].
Proof. induction l as [|a l IH]; [reflexivity | exact IH]. Qed.

Lemma built_content_text input uploaded :
  extractTextFromContent (buildUserMessageContent (trim input) uploaded) = Ok (trim input).
Proof.
  unfold buildUserMessageContent. destruct uploaded as [|a rest]; [reflexivity|].
  cbv zeta. unfold extractTextFromContent.
  destruct (nonempty (trim input)) eqn:N.
  - rewrite filter_app, filter_isTextPart_files. simpl.
    rewrite trim_idempotent. reflexivity.
  - rewrite filter_isTextPart_files. simpl. rewrite (nonempty_false _ N). reflexivity.
Qed.

(** X4: round trip of the user's text.  The content built for the API
    from the trimmed input and any list of uploaded attachments gives
    the trimmed input back when its text is extracted, by
    [extractTextFromContent] and by [getMessageText]: the file parts
    contribute nothing, and an empty text gives the empty string. *)
Theorem text_of_built_content input uploaded :
  extractTextFromContent (buildUserMessageContent (trim input) uploaded) = Ok (trim input)
  /\ getMessageText (buildUserMessageContent (trim input) uploaded) = Ok (trim input).
Proof.
  pose proof (built_content_text input uploaded) as H.
  split; [exact H|].
  unfold getMessageText.
  destruct (buildUserMessageContent (trim input) uploaded) eqn:E; try exact H.
Qed.

(** ** Markdown Renderer *)

Lemma replaceAll_app c rep a b :
  replaceAll c rep (a ++ b) = replaceAll c rep a ++ replaceAll c rep b.
Proof.
  induction a as [|x a IH]; [reflexivity|].
  simpl. rewrite IH. destruct (Ascii.eqb x c); [|reflexivity].
  symmetry. apply append_assoc.
Qed.

Lemma escapeHtml_app a b : escapeHtml (a ++ b) = escapeHtml a ++ escapeHtml b.
Proof. unfold escapeHtml. rewrite !replaceAll_app. reflexivity. Qed.

Lemma escapeHtml_char c : escapeHtml (String c "") = escapeChar c.
Proof.
  unfold escapeChar.
  destruct (Ascii.eqb_spec c "&"%char) as [->|N1]; [reflexivity|].
  destruct (Ascii.eqb_spec c "<"%char) as [->|N2]; [reflexivity|].
  destruct (Ascii.eqb_spec c ">"%char) as [->|N3]; [reflexivity|].
  destruct (Ascii.eqb_spec c dquote) as [->|N4]; [reflexivity|].
  destruct (Ascii.eqb_spec c squote) as [->|N5]; [reflexivity|].
  unfold escapeHtml. simpl.
  apply Ascii.eqb_neq in N1, N2, N3, N4, N5.
  rewrite N1. simpl. rewrite N2. simpl. rewrite N3. simpl. rewrite N4. simpl.
  rewrite N5. reflexivity.
Qed.

Lemma occurs_app c a b : occurs c (a ++ b) = occurs c a || occurs c b.
Proof.
  induction a as [|x a IH]; [reflexivity|]. simpl. rewrite IH. apply orb_assoc.
Qed.

Lemma escapeChar_clean c m : is_markup m = true -> occurs m (escapeChar c) = false.
Proof.
  unfold is_markup. intros H.
  assert (M : m = "<"%char \/ m = ">"%char \/ m = dquote \/ m = squote).
  { repeat (apply orb_true_iff in H; destruct H as [H|H]);
      apply Ascii.eqb_eq in H; auto. }
  unfold escapeChar.
  destruct (Ascii.eqb_spec c "&"%char) as [->|N1];
    [destruct M as [->|[->|[->| ->]]]; reflexivity|].
  destruct (Ascii.eqb_spec c "<"%char) as [->|N2];
    [destruct M as [->|[->|[->| ->]]]; reflexivity|].
  destruct (Ascii.eqb_spec c ">"%char) as [->|N3];
    [destruct M as [->|[->|[->| ->]]]; reflexivity|].
  destruct (Ascii.eqb_spec c dquote) as [->|N4];
    [destruct M as [->|[->|[->| ->]]]; reflexivity|].
  destruct (Ascii.eqb_spec c squote) as [->|N5];
    [destruct M as [->|[->|[->| ->]]]; reflexivity|].
  simpl. rewrite orb_false_r. apply Ascii.eqb_neq.
  destruct M as [->|[->|[->| ->]]]; assumption.
Qed.

Lemma escapeHtml_cons c s : escapeHtml (String c s) = escapeChar c ++ escapeHtml s.
Proof.
  change (String c s) with (String c "" ++ s).
  rewrite escapeHtml_app, escapeHtml_char. reflexivity.
Qed.

(** X5: the escaped text of a code block holds none of the characters
    [<], [>], the double quote and the single quote, whatever the code
    was. *)
Theorem escapeHtml_leaves_no_markup unsafe m :
  is_markup m = true -> occurs m (escapeHtml unsafe) = false.
Proof.
  intros H. induction unsafe as [|c s IH]; [reflexivity|].
  rewrite escapeHtml_cons, occurs_app, IH, (escapeChar_clean c m H). reflexivity.
Qed.

Lemma escapeHtml_leaves_no_markup_witness :
  occurs "<"%char (escapeHtml "<script>alert('x & y')</script>") = false.
Proof.
  apply (escapeHtml_leaves_no_markup "<script>alert('x & y')</script>" "<"%char).
  reflexivity.
Defined.

(** X6: the five replacements of [escapeHtml], made one after the other
    on the whole text, amount to replacing each character on its own by
    its entity: the escape of a text is the escape of its first
    character followed by the escape of the rest, and escaping
    distributes over concatenation.  In particular the [&] of an entity
    written by a later replacement is not escaped again. *)
Theorem escapeHtml_character_by_character :
  escapeHtml "" = ""
  /\ (forall c rest, escapeHtml (String c rest) = escapeChar c ++ escapeHtml rest)
  /\ (forall a b, escapeHtml (a ++ b) = escapeHtml a ++ escapeHtml b).
Proof.
  split; [reflexivity|]. split; [exact escapeHtml_cons | exact escapeHtml_app].
Qed.

Lemma replaceAll_absent c rep s : occurs c s = false -> replaceAll c rep s = s.
Proof.
  induction s as [|x s IH]; [reflexivity|].
  simpl. intros H. apply orb_false_iff in H. destruct H as [H1 H2].
  rewrite H1, (IH H2). reflexivity.
Qed.

Lemma replaceAll_removes c rep s : occurs c rep = false -> occurs c (replaceAll c rep s) = false.
Proof.
  intros R. induction s as [|x s IH]; [reflexivity|].
  simpl. destruct (Ascii.eqb x c) eqn:E.
  - rewrite occurs_app, R, IH. reflexivity.
  - simpl. rewrite E, IH. reflexivity.
Qed.

(** X7: when the markdown parser or the sanitizer is missing,
    [renderMarkdown] returns a text without line feed, returns a text
    that had none unchanged, and renders a text made of two parts
    around a line feed as the renderings of the parts around [<br>]. *)
Theorem renderMarkdown_without_libraries marked DOMPurify text :
  marked = None \/ DOMPurify = None ->
  occurs newline (renderMarkdown marked DOMPurify text) = false
  /\ (occurs newline text = false -> renderMarkdown marked DOMPurify text = text)
  /\ (forall a b, text = a ++ String newline b ->
      renderMarkdown marked DOMPurify text
      = renderMarkdown marked DOMPurify a ++ "<br>" ++ renderMarkdown marked DOMPurify b).
Proof.
  intros H.
  assert (E : forall t, renderMarkdown marked DOMPurify t = replaceAll newline "<br>" t).
  { intros t. unfold renderMarkdown. destruct H as [-> | ->]; [reflexivity|].
    destruct marked; reflexivity. }
  rewrite !E. split; [apply replaceAll_removes; reflexivity|].
  split; [apply replaceAll_absent|].
  intros a b ->. rewrite !E, replaceAll_app. reflexivity.
Qed.

Lemma renderMarkdown_without_libraries_witness :
  renderMarkdown None (Some (fun _ html => html)) ("one" ++ String newline "two")
  = "one<br>two".
Proof.
  destruct (renderMarkdown_without_libraries None (Some (fun _ html => html))
              ("one" ++ String newline "two") (or_introl eq_refl)) as (_ & _ & H).
  rewrite (H "one" "two" eq_refl). reflexivity.
Defined.

(** ** Temporary names *)

Lemma all_alnum_no_dot_inside a b :
  all_alnum (a ++ String "."%char b) = false.
Proof.
  induction a as [|x a IH]; [reflexivity|]. simpl. rewrite IH. apply andb_false_r.
Qed.

Lemma extension_after_dot base ext :
  nonempty ext = true -> all_alnum ext = true ->
  extension (base ++ String "."%char ext) = String "."%char ext.
Proof.
  intros N A. induction base as [|c base IH].
  - simpl. rewrite N, A. reflexivity.
  - simpl. rewrite all_alnum_no_dot_inside, andb_false_r. exact IH.
Qed.

(** X8: a name that ends with a dot followed by one or more letters or
    digits gets a temporary name that ends with that same extension,
    after the prefix [claude_upload_] and the time and random part; one
    random value is drawn. *)
Theorem generateTempFilename_keeps_extension P base ext s :
  nonempty ext = true -> all_alnum ext = true ->
  generateTempFilename P (base ++ String "."%char ext) s
  = (Ok ("claude_upload_" ++ temp_stamp P (nonce s) ++ String "."%char ext),
     with_nonce (S (nonce s)) s).
Proof.
  intros N A. unfold generateTempFilename, bind, draw, ret.
  rewrite (extension_after_dot base ext N A). reflexivity.
Qed.

Lemma generateTempFilename_keeps_extension_witness :
  fst (generateTempFilename Fixtures.platform "holiday.photo.JPG" initialState)
  = Ok "claude_upload_1700000000000_r0.JPG".
Proof.
  pose proof (generateTempFilename_keeps_extension Fixtures.platform "holiday.photo" "JPG"
                initialState eq_refl eq_refl) as H.
  simpl append in H. rewrite H. reflexivity.
Defined.

Lemma extension_shape name :
  extension name = ""
  \/ exists ext, extension name = String "."%char ext
                 /\ nonempty ext = true /\ all_alnum ext = true.
Proof.
  induction name as [|c rest IH]; [left; reflexivity|].
  simpl. destruct (Ascii.eqb_spec c "."%char) as [->|N]; simpl; [|exact IH].
  destruct (nonempty rest) eqn:Ne; simpl; [|exact IH].
  destruct (all_alnum rest) eqn:A; [|exact IH].
  right. exists rest. auto.
Qed.

Lemma extension_suffix name : exists stem, name = stem ++ extension name.
Proof.
  induction name as [|c rest [stem IH]]; [exists ""; reflexivity|].
  simpl. destruct (Ascii.eqb c "." && nonempty rest && all_alnum rest).
  - exists "". reflexivity.
  - exists (String c stem). simpl. rewrite <- IH. reflexivity.
Qed.

(** X9: every temporary name is the prefix [claude_upload_], the time and
    random part, and a suffix of the original name that is either empty
    or a dot followed by letters and digits only; so no other part of
    the name a user chose, and no path separator, reaches the storage
    name. *)
Theorem generateTempFilename_shape P originalName s :
  exists suffix,
    fst (generateTempFilename P originalName s)
    = Ok ("claude_upload_" ++ temp_stamp P (nonce s) ++ suffix)
    /\ (exists stem, originalName = stem ++ suffix)
    /\ (suffix = ""
        \/ exists ext, suffix = String "."%char ext
                       /\ nonempty ext = true /\ all_alnum ext = true)
    /\ nonce (snd (generateTempFilename P originalName s)) = S (nonce s).
Proof.
  exists (extension originalName). split; [reflexivity|].
  split; [apply extension_suffix|]. split; [apply extension_shape | reflexivity].
Qed.

(** ** The input area *)

Ltac outcome_cases H :=
  destruct H as [Hp | sdk' e' Hp Hm Ht | sdk' url Hp Hm Ht | sdk' e' s1 Hp Hm Hu
                 | sdk' up s1 e' Hp Hm Hu s2 Hc | sdk' up s1 ch e' s4 Hp Hm Hu s2 Hc Hl
                 | sdk' up s1 v e' Hp Hm Hu s2 Hc He | sdk' up s1 ch full s4 Hp Hm Hu s2 Hc Hl
                 | sdk' up s1 v a Hp Hm Hu s2 Hc He].

Lemma uploadLoop_NoDup P fsys files : forall uploaded s,
  NoDup (sessionFilesRef s) ->
  NoDup (sessionFilesRef (snd (uploadLoop P fsys files uploaded s))).
Proof.
  induction files as [|a files IH]; intros uploaded s H; simpl; [exact H|].
  destruct (att_file a) as [file|]; [|apply IH; exact H].
  unfold generateTempFilename, draw, bind, ret, observe, modify, lift. simpl.
  match goal with
  | |- context [fs_write fsys ?n file] => destruct (fs_write fsys n file) as [path|e]
  end; [|exact H].
  apply IH. simpl. apply set_add_NoDup. exact H.
Qed.

Lemma uploadTurn_NoDup P puter atts s r s1 :
  uploadTurn P puter atts s = (r, s1) ->
  NoDup (sessionFilesRef s) -> NoDup (sessionFilesRef s1).
Proof.
  intros E H. replace s1 with (snd (uploadTurn P puter atts s)) by (rewrite E; reflexivity).
  unfold uploadTurn. destruct atts; [exact H|].
  unfold uploadAttachments. destruct (puter_fs puter); [|exact H].
  apply uploadLoop_NoDup. exact H.
Qed.

Lemma outcome_frame P puter model text atts s0 r s1 :
  outcome P puter model text atts s0 r s1 -> turn_frame s0 s1.
Proof.
  intros H. outcome_cases H;
    try (pose proof (uploadTurn_NoDup _ _ _ _ _ _ Hu) as Hn;
         pose proof (uploadTurn_frame_of _ _ _ _ _ _ Hu) as F; destruct_frame F).
  - constructor; auto.
  - constructor; auto.
  - constructor; auto.
  - constructor; auto.
  - constructor; auto.
  - destruct (streamLoop_run ch (Some e') "" true (placed s2) _ _ (placed_streaming s2))
      as (s4' & E4 & Post).
    rewrite Hl in E4. injection E4 as <-. destruct_post Post.
    constructor; [rewrite sp_input | rewrite sp_attachments | rewrite sp_timers
                 | rewrite sp_session]; auto.
  - constructor; auto.
  - destruct (streamLoop_run ch None "" true (placed s2) _ _ (placed_streaming s2))
      as (s4' & E4 & Post).
    rewrite Hl in E4. injection E4 as -> <-. destruct_post Post.
    constructor; simpl;
      [rewrite sp_input | rewrite sp_attachments | rewrite sp_timers
      | rewrite sp_session]; auto.
  - constructor; auto.
Qed.

(** The state after an accepted send, by the way its [try] block ended. *)
Lemma sendMessage_cases P puter model s :
  refused s = false ->
  exists r s1,
    outcome P puter model (trim (input s)) (attachments s)
      (began (trim (input s)) (attachments s) s) r s1
    /\ exec (sendMessage P puter model) s
       = match r with
         | Ok _ => s1
         | Throw e => failed P e s1
         end.
Proof.
  intros Hr. unfold exec. rewrite (sendMessage_run P puter model s Hr).
  destruct (sendMessage_try _ _ _ _ _ _) as [[[]|e] s1] eqn:E;
    apply sendMessage_try_outcome in E; eauto.
Qed.

Lemma sendMessage_clears P puter model s :
  refused s = false ->
  input (exec (sendMessage P puter model) s) = ""
  /\ attachments (exec (sendMessage P puter model) s) = [].
Proof.
  intros Hr.
  destruct (sendMessage_cases P puter model s Hr) as (r & s1 & H & ->).
  apply outcome_frame in H. destruct H as [Hi Ha _ _].
  destruct r as [[]|e]; simpl; rewrite ?Hi, ?Ha; auto.
Qed.



Lemma sendMessage_attachments P puter model s :
  attachments (exec (sendMessage P puter model) s) = attachments s
  \/ attachments (exec (sendMessage P puter model) s) = [].
Proof.
  destruct (refused s) eqn:Hr.
  - left. unfold exec, sendMessage. rewrite Hr. reflexivity.
  - right. apply (sendMessage_clears P puter model s Hr).
Qed.

Lemma addLoop_bound P cfg nonce files : forall st,
  Z.of_nat (runningCount (addLoop P cfg nonce files st))
  <= Z.max (maxCount cfg) (Z.of_nat (runningCount st)).
Proof.
  unfold addLoop. induction files as [|f files IH]; intros st; simpl; [lia|].
  etransitivity; [apply IH|]. unfold addStep.
  destruct (validateFile P cfg f (runningCount st)) eqn:V; simpl; [lia|].
  apply validateFile_accepts in V. lia.
Qed.

Lemma createAttachment_pending P n f k :
  validateFile P attachmentConfig f k = None -> pending (createAttachment P n f).
Proof.
  intros V. apply validateFile_accepts in V. destruct V as (Vt & Vs & _).
  repeat split; simpl; auto. discriminate.
Qed.

Lemma addAttachments_attachments P files s :
  attachments (exec (addAttachments P files) s)
  = fst (addAttachments_update P attachmentConfig (nonce s) files (attachments s)).
Proof.
  unfold exec, addAttachments. destruct files as [|f files].
  - simpl. unfold addAttachments_update, addLoop. simpl. reflexivity.
  - unfold bind at 1 2, gets at 1 2. cbv beta iota.
    destruct (addAttachments_update P attachmentConfig (nonce s) (f :: files) (attachments s))
      as [next errs].
    destruct errs; reflexivity.
Qed.

Lemma addAttachments_input_area P files s :
  input_area_ok s -> input_area_ok (exec (addAttachments P files) s).
Proof.
  intros [Hn Hall]. unfold input_area_ok. rewrite addAttachments_attachments.
  unfold addAttachments_update. cbv zeta.
  set (st0 := {| additions := []; errors := []; runningCount := length (attachments s) |}).
  pose proof (addLoop_bound P attachmentConfig (nonce s) files st0) as B.
  pose proof (addLoop_count P attachmentConfig (nonce s) files st0 (length (attachments s))) as C.
  pose proof (addLoop_additions P attachmentConfig (nonce s) files st0) as A.
  destruct (additions (addLoop P attachmentConfig (nonce s) files st0)) as [|a adds] eqn:E;
    simpl fst; [split; assumption|].
  split.
  - rewrite length_app. rewrite C in B by (simpl; lia). simpl runningCount in B. lia.
  - apply Forall_app. split; [exact Hall|].
    apply Forall_forall. intros x Hx.
    destruct (A x Hx) as [[] | (f & k & n & _ & V & ->)].
    apply (createAttachment_pending P n f k V).
Qed.

Lemma filter_length_le {A} (f : A -> bool) l : (length (filter f l) <= length l)%nat.
Proof. induction l as [|x l IH]; simpl; [lia|]. destruct (f x); simpl; lia. Qed.

Lemma removeAttachment_attachments id s :
  attachments (exec (removeAttachment id) s)
  = filter (fun a => negb (String.eqb (att_id a) id)) (attachments s).
Proof.
  unfold exec, removeAttachment, bind, gets. simpl.
  destruct (find _ (attachments s)) as [target|]; [|reflexivity].
  destruct (att_previewUrl target) as [url|]; [|reflexivity].
  destruct (nonempty url); reflexivity.
Qed.

Lemma cleanup_attachments puter s :
  attachments (exec (cleanupSessionFiles puter) s) = attachments s.
Proof.
  unfold exec, cleanupSessionFiles. destruct (puter_fs puter) as [fsys|]; [|reflexivity].
  unfold bind, gets. simpl.
  destruct (deleteAll_frame fsys (sessionFilesRef s) s) as (s1 & E & F).
  rewrite E. simpl. unfold same_but_trace in F. rewrite <- F. reflexivity.
Qed.

Lemma handle_input_area P puter model ev s :
  input_area_ok s -> input_area_ok (exec (handle P puter model ev) s).
Proof.
  intros H. destruct ev as [text|files|id| | |]; unfold handle.
  - exact H.
  - apply addAttachments_input_area. exact H.
  - destruct H as [Hn Hall]. unfold input_area_ok. rewrite removeAttachment_attachments.
    split.
    + pose proof (filter_length_le (fun a => negb (String.eqb (att_id a) id)) (attachments s)).
      lia.
    + apply Forall_forall. intros x Hx. apply filter_In in Hx.
      rewrite Forall_forall in Hall. apply Hall, Hx.
  - unfold input_area_ok.
    destruct (sendMessage_attachments P puter model s) as [-> | ->]; [exact H|].
    split; [simpl; unfold attachmentConfig; simpl; lia | constructor].
  - unfold exec, fireTimer, bind, gets. simpl. destruct (timers s); exact H.
  - unfold input_area_ok. rewrite cleanup_attachments. exact H.
Qed.

(** X11: in every state a session reaches from the initial one, at most
    five attachments are pending, and each of them is of an allowed
    type, is no larger than 10 MB, still has its file and has no
    storage path yet. *)
Theorem input_area_within_limits P puter model evs :
  let s := run P puter model evs initialState in
  (length (attachments s) <= 5)%nat
  /\ forall a, In a (attachments s) ->
       includes (allowedTypes attachmentConfig) (att_type a) = true
       /\ att_size a <= 10 * 1024 * 1024
       /\ att_file a <> None
       /\ att_puterPath a = None.
Proof.
  assert (G : forall s, input_area_ok s -> input_area_ok (run P puter model evs s)).
  { induction evs as [|ev evs IH]; intros s H; [exact H|].
    apply IH. apply handle_input_area. exact H. }
  destruct (G initialState) as [Hn Hall].
  { split; [simpl; unfold attachmentConfig; simpl; lia | constructor]. }
  cbv zeta. split.
  - unfold attachmentConfig in Hn. simpl in Hn. lia.
  - rewrite Forall_forall in Hall. exact Hall.
Qed.

Lemma input_area_within_limits_witness :
  let s := run Fixtures.platform None "gpt-4o"
             [Selected [Fixtures.png; Fixtures.zip; Fixtures.huge; Fixtures.png]]
             initialState in
  (length (attachments s) <= 5)%nat
  /\ att_file (createAttachment Fixtures.platform 1 Fixtures.png) <> None.
Proof.
  cbv zeta.
  destruct (input_area_within_limits Fixtures.platform None "gpt-4o"
              [Selected [Fixtures.png; Fixtures.zip; Fixtures.huge; Fixtures.png]])
    as [Hn Hall].
  split; [exact Hn|].
  apply (Hall (createAttachment Fixtures.platform 1 Fixtures.png)).
  vm_compute. right. left. reflexivity.
Defined.

(** ** Removing an attachment *)

Lemma filter_all {A} (f : A -> bool) l : (forall x, In x l -> f x = true) -> filter f l = l.
Proof.
  induction l as [|x l IH]; intros H; [reflexivity|].
  simpl. rewrite (H x (or_introl eq_refl)). f_equal. apply IH. intros y Hy. apply H. right. exact Hy.
Qed.

Lemma find_none_all id (l : list Attachment) :
  find (fun a => String.eqb (att_id a) id) l = None ->
  forall x, In x l -> negb (String.eqb (att_id x) id) = true.
Proof.
  intros H x Hx. apply (find_none _ _ H) in Hx. rewrite Hx. reflexivity.
Qed.

(** X12: removing an attachment by id leaves exactly the attachments with
    another id; it revokes at most the preview address of an attachment
    that had the id; and when no pending attachment has the id, the
    state is unchanged. *)
Theorem removeAttachment_removes_that_one id s :
  let s' := exec (removeAttachment id) s in
  (forall a, In a (attachments s') <-> In a (attachments s) /\ att_id a <> id)
  /\ (exists gone, revocations (trace s') = (revocations (trace s) ++ gone)%list
       /\ forall url, In url gone ->
            exists a, In a (attachments s) /\ att_id a = id /\ att_previewUrl a = Some url)
  /\ ((forall a, In a (attachments s) -> att_id a <> id) -> s' = s).
Proof.
  cbv zeta. split; [|split].
  - intros a. rewrite removeAttachment_attachments, filter_In.
    rewrite negb_true_iff. split; intros [H1 H2]; (split; [exact H1|]).
    + intros E. apply String.eqb_neq in H2. contradiction.
    + apply String.eqb_neq. exact H2.
  - unfold exec, removeAttachment, bind, gets. simpl.
    destruct (find _ (attachments s)) as [target|] eqn:F;
      [|exists []; rewrite app_nil_r; split; [reflexivity | intros ? []]].
    apply find_some in F. destruct F as [Hin Hid]. apply String.eqb_eq in Hid.
    destruct (att_previewUrl target) as [url|] eqn:U;
      [|exists []; rewrite app_nil_r; split; [reflexivity | intros ? []]].
    destruct (nonempty url);
      [|exists []; rewrite app_nil_r; split; [reflexivity | intros ? []]].
    exists [url]. simpl. unfold revocations. rewrite flat_map_app. simpl.
    split; [reflexivity|]. intros u [<-|[]]. exists target. auto.
  - intros H. unfold exec, removeAttachment, bind, gets. simpl.
    destruct (find _ (attachments s)) as [target|] eqn:F.
    + apply find_some in F. destruct F as [Hin Hid]. apply String.eqb_eq in Hid.
      destruct (H target Hin Hid).
    + simpl. rewrite filter_all; [destruct s; reflexivity|].
      apply find_none_all. exact F.
Qed.
Lemma removeAttachment_removes_that_one_witness :
  let s := exec (handle Fixtures.platform None "gpt-4o"
                   (Selected [Fixtures.png; Fixtures.png])) initialState in
  exec (removeAttachment "att-7") s = s.
Proof.
  cbv zeta.
  set (s := exec (handle Fixtures.platform None "gpt-4o"
                    (Selected [Fixtures.png; Fixtures.png])) initialState).
  apply (proj2 (proj2 (removeAttachment_removes_that_one "att-7" s))).
  intros a Ha. vm_compute in Ha. destruct Ha as [<-|[<-|[]]]; vm_compute; discriminate.
Defined.

(** ** Turns that cannot reach the model *)

Lemma began_calls text atts s : calls (trace (began text atts s)) = calls (trace s).
Proof. simpl. rewrite !calls_app. simpl. rewrite !app_nil_r. reflexivity. Qed.

Lemma failed_calls P e s : calls (trace (failed P e s)) = calls (trace s).
Proof. simpl. rewrite !calls_app. simpl. rewrite !app_nil_r. reflexivity. Qed.

(** X13: a send that is accepted while the SDK is missing shows the user's
    message followed by [Error: Puter SDK not loaded], leaves the API
    log and the set of session files as they were, calls no capability,
    sets the status to [error] and schedules the timer that ends
    it. *)
Theorem send_without_sdk P model s :
  wf s ->
  refused s = false ->
  let s' := exec (sendMessage P None model) s in
  displayLog s'
  = (displayLog s
     ++ [userMessageDisplay (trim (input s)) (sanitizeAttachments (attachments s));
         {| role := assistant; content := Text "Error: Puter SDK not loaded";
            attachments_of := None; videoUrl := None; isStreaming := None |}])%list
  /\ apiLog s' = apiLog s
  /\ calls (trace s') = calls (trace s)
  /\ sessionFilesRef s' = sessionFilesRef s
  /\ status s' = error
  /\ timers s' = (timers s ++ [{| delay := 3000; sets_status := ready |}])%list.
Proof.
  intros Hwf Hr. cbv zeta. unfold exec. rewrite (sendMessage_run P None model s Hr).
  unfold sendMessage_try, throw. cbn [snd].
  set (s0 := began (trim (input s)) (attachments s) s).
  pose proof (began_wf (trim (input s)) (attachments s) s Hwf) as Hwf0. fold s0 in Hwf0.
  rewrite (failed_displayLog P _ s0 Hwf0), (failed_apiLog P _ s0 Hwf0), failed_calls.
  unfold s0. rewrite (began_displayLog _ _ s Hwf), (began_apiLog _ _ s Hwf), began_calls.
  rewrite <- app_assoc. repeat split; reflexivity.
Qed.

Lemma wf_typed text : wf (Fixtures.typed text).
Proof. split; constructor. Qed.

Lemma send_without_sdk_witness :
  let s' := exec (sendMessage Fixtures.platform None "gpt-4o") (Fixtures.typed "hi") in
  map content (displayLog s') = [Text "hi"; Text "Error: Puter SDK not loaded"]
  /\ apiLog s' = [].
Proof.
  destruct (send_without_sdk Fixtures.platform "gpt-4o" (Fixtures.typed "hi")
              (wf_typed "hi") eq_refl) as (Hd & Ha & _).
  cbv zeta. rewrite Hd, Ha. split; reflexivity.
Defined.

(** X14: a chat send with attachments, when the SDK has no storage,
    shows the user's message followed by [Error: File uploads are not
    supported in this environment.], leaves the API log as it was and
    calls neither the storage nor the chat capability. *)
Theorem send_files_without_storage P sdk model s :
  wf s ->
  refused s = false ->
  String.eqb model "video-generation" = false ->
  fs sdk = None ->
  attachments s <> [] ->
  let s' := exec (sendMessage P (Some sdk) model) s in
  displayLog s'
  = (displayLog s
     ++ [userMessageDisplay (trim (input s)) (sanitizeAttachments (attachments s));
         {| role := assistant;
            content := Text "Error: File uploads are not supported in this environment.";
            attachments_of := None; videoUrl := None; isStreaming := None |}])%list
  /\ apiLog s' = apiLog s
  /\ calls (trace s') = calls (trace s)
  /\ sessionFilesRef s' = sessionFilesRef s
  /\ status s' = error.
Proof.
  intros Hwf Hr Hm Hfs Hatt. cbv zeta. unfold exec.
  rewrite (sendMessage_run P (Some sdk) model s Hr).
  set (s0 := began (trim (input s)) (attachments s) s).
  pose proof (began_wf (trim (input s)) (attachments s) s Hwf) as Hwf0. fold s0 in Hwf0.
  assert (E : sendMessage_try P (Some sdk) model (trim (input s)) (attachments s) s0
              = (Throw (Error "File uploads are not supported in this environment."), s0)).
  { unfold sendMessage_try. rewrite Hm. unfold sendChat, bind.
    unfold uploadTurn, uploadAttachments, puter_fs. rewrite Hfs.
    destruct (attachments s); [contradiction | reflexivity]. }
  rewrite E. cbn [snd].
  rewrite (failed_displayLog P _ s0 Hwf0), (failed_apiLog P _ s0 Hwf0), failed_calls.
  unfold s0. rewrite (began_displayLog _ _ s Hwf), (began_apiLog _ _ s Hwf), began_calls.
  rewrite <- app_assoc. repeat split; reflexivity.
Qed.

Lemma send_files_without_storage_witness :
  let sdk := {| ai_chat := fun _ _ => Ok Fixtures.hello;
                ai_txt2vid := fun _ _ => Ok "blob:video";
                fs := None |} in
  let s := exec (handle Fixtures.platform (Some sdk) "gpt-4o" (Selected [Fixtures.png]))
             (Fixtures.typed "what is this?") in
  let s' := exec (sendMessage Fixtures.platform (Some sdk) "gpt-4o") s in
  map content (displayLog s')
  = [Text "what is this?";
     Text "Error: File uploads are not supported in this environment."]
  /\ calls (trace s') = [].
Proof.
  cbv zeta.
  set (sdk := {| ai_chat := fun _ _ => Ok Fixtures.hello;
                 ai_txt2vid := fun _ _ => Ok "blob:video";
                 fs := None |}).
  set (s := exec (handle Fixtures.platform (Some sdk) "gpt-4o" (Selected [Fixtures.png]))
              (Fixtures.typed "what is this?")).
  assert (Hwf : wf s) by (split; constructor).
  assert (Hr : refused s = false) by (vm_compute; reflexivity).
  assert (Ha : attachments s <> []) by (vm_compute; discriminate).
  destruct (send_files_without_storage Fixtures.platform sdk "gpt-4o" s Hwf Hr eq_refl eq_refl Ha)
    as (Hd & _ & Hc & _).
  rewrite Hd, Hc. split; vm_compute; reflexivity.
Defined.

(** X15: when the storage refuses the write of the first attachment of a
    chat send, that write is the only call of the turn: the other
    attachments are not written and the chat capability is not called.
    The user's message and the error are shown, the API log and the set
    of session files are unchanged, and the status is [error]. *)
Theorem refused_write_ends_the_turn P sdk fsys model s a rest file e :
  wf s ->
  refused s = false ->
  String.eqb model "video-generation" = false ->
  fs sdk = Some fsys ->
  attachments s = a :: rest ->
  att_file a = Some file ->
  let tempName := "claude_upload_" ++ temp_stamp P (nonce s) ++ extension (att_name a) in
  fs_write fsys tempName file = Throw e ->
  let s' := exec (sendMessage P (Some sdk) model) s in
  calls (trace s') = (calls (trace s) ++ [ObsWrite tempName file])%list
  /\ displayLog s'
     = (displayLog s
        ++ [userMessageDisplay (trim (input s)) (sanitizeAttachments (attachments s));
            errorMessage P e])%list
  /\ apiLog s' = apiLog s
  /\ sessionFilesRef s' = sessionFilesRef s
  /\ status s' = error.
Proof.
  intros Hwf Hr Hm Hfs Ea Hf tempName Hw. cbv zeta. unfold exec.
  rewrite (sendMessage_run P (Some sdk) model s Hr).
  set (s0 := began (trim (input s)) (attachments s) s).
  set (s1 := with_trace (trace s0 ++ [ObsWrite tempName file]) (with_nonce (S (nonce s)) s0)).
  assert (E : sendMessage_try P (Some sdk) model (trim (input s)) (attachments s) s0
              = (Throw e, s1)).
  { unfold sendMessage_try. rewrite Hm. unfold sendChat. unfold bind at 1.
    unfold uploadTurn, uploadAttachments, puter_fs. rewrite Hfs, Ea.
    cbn [uploadLoop]. rewrite Hf.
    unfold generateTempFilename, draw, bind, ret, observe, modify, lift.
    change (nonce s0) with (nonce s). fold tempName. rewrite Hw. reflexivity. }
  rewrite E. cbn [snd].
  assert (Hwf1 : wf s1).
  { destruct (began_wf (trim (input s)) (attachments s) s Hwf) as [V1 V2].
    split; assumption. }
  rewrite (failed_displayLog P e s1 Hwf1), (failed_apiLog P e s1 Hwf1), failed_calls.
  assert (Hd : displayLog s1 = displayLog s0) by reflexivity.
  assert (Hl : apiLog s1 = apiLog s0) by reflexivity.
  unfold s0 in Hd, Hl.
  rewrite Hd, Hl, (began_displayLog _ _ s Hwf), (began_apiLog _ _ s Hwf).
  rewrite <- app_assoc. repeat split; try reflexivity.
  unfold s1. cbn [trace with_trace]. rewrite calls_app. unfold s0. rewrite began_calls.
  reflexivity.
Qed.

Lemma refused_write_ends_the_turn_witness :
  let fsys := {| fs_write := fun _ _ => Throw (Error "quota exceeded");
                 fs_delete := fun _ => Ok tt |} in
  let sdk := Fixtures.sdk_with fsys (Ok Fixtures.hello) in
  let s := exec (handle Fixtures.platform (Some sdk) "gpt-4o"
                   (Selected [Fixtures.png; Fixtures.png]))
             (Fixtures.typed "compare") in
  let s' := exec (sendMessage Fixtures.platform (Some sdk) "gpt-4o") s in
  calls (trace s') = [ObsWrite "claude_upload_1700000000000_r2.png" Fixtures.png]
  /\ map content (displayLog s') = [Text "compare"; Text "Error: quota exceeded"]
  /\ apiLog s' = [].
Proof.
  cbv zeta.
  set (fsys := {| fs_write := fun _ _ => Throw (Error "quota exceeded");
                  fs_delete := fun _ => Ok tt |}).
  set (sdk := Fixtures.sdk_with fsys (Ok Fixtures.hello)).
  set (s := exec (handle Fixtures.platform (Some sdk) "gpt-4o"
                    (Selected [Fixtures.png; Fixtures.png]))
              (Fixtures.typed "compare")).
  assert (Hwf : wf s) by (split; constructor).
  assert (Hr : refused s = false) by (vm_compute; reflexivity).
  assert (Ea : attachments s = hd (createAttachment Fixtures.platform 0 Fixtures.png)
                                 (attachments s) :: tl (attachments s))
    by (vm_compute; reflexivity).
  destruct (refused_write_ends_the_turn Fixtures.platform sdk fsys "gpt-4o" s _ _
              Fixtures.png (Error "quota exceeded") Hwf Hr eq_refl eq_refl Ea eq_refl eq_refl)
    as (Hc & Hd & Ha & _).
  rewrite Hc, Hd, Ha. repeat split; vm_compute; reflexivity.
Defined.

(** ** Video turns *)

(** X16: an accepted send to the video model makes exactly one call, to
    the video capability, with the prompt and the options derived from
    the input and the pending attachments; nothing is written to the
    storage, the chat capability is not called, and the status ends as
    [ready] or [error]. *)
Theorem video_turn_calls_txt2vid_once P sdk s :
  refused s = false ->
  let s' := exec (sendMessage P (Some sdk) "video-generation") s in
  calls (trace s')
  = (calls (trace s)
     ++ [ObsTxt2vid (videoPrompt (trim (input s)) (attachments s))
           (videoOptions (attachments s))])%list
  /\ sessionFilesRef s' = sessionFilesRef s
  /\ (status s' = ready \/ status s' = error).
Proof.
  intros Hr. cbv zeta. unfold exec.
  rewrite (sendMessage_run P (Some sdk) "video-generation" s Hr).
  unfold sendMessage_try. cbn [String.eqb Ascii.eqb Bool.eqb].
  change (("video-generation" =? "video-generation")%string) with true. cbv iota.
  rewrite sendVideo_run. cbv zeta.
  destruct (ai_txt2vid sdk _ _) as [videoUrl|e]; cbn [snd].
  - simpl. rewrite !calls_app. simpl. rewrite !app_nil_r. auto.
  - rewrite failed_calls. simpl. rewrite !calls_app. simpl. rewrite !app_nil_r. auto.
Qed.

Lemma video_turn_calls_txt2vid_once_witness :
  let s := exec (handle Fixtures.platform (Some (Fixtures.sdk (Ok Fixtures.hello)))
                   "video-generation" (Selected [Fixtures.png])) initialState in
  let s' := exec (sendMessage Fixtures.platform (Some (Fixtures.sdk (Ok Fixtures.hello)))
                    "video-generation") s in
  calls (trace s')
  = [ObsTxt2vid "Video based on cat.png"
       {| test_mode := true; input_reference := Some Fixtures.png |}].
Proof.
  cbv zeta.
  set (s := exec (handle Fixtures.platform (Some (Fixtures.sdk (Ok Fixtures.hello)))
                    "video-generation" (Selected [Fixtures.png])) initialState).
  assert (Hr : refused s = false) by (vm_compute; reflexivity).
  destruct (video_turn_calls_txt2vid_once Fixtures.platform (Fixtures.sdk (Ok Fixtures.hello))
              s Hr) as (Hc & _).
  rewrite Hc. vm_compute. reflexivity.
Defined.

(** ** What every state of a session satisfies *)

Lemma run_invariant P puter model (I : State -> Prop) :
  (forall ev s, I s -> I (exec (handle P puter model ev) s)) ->
  forall evs s, I s -> I (run P puter model evs s).
Proof.
  intros Hstep. induction evs as [|ev evs IH]; intros s H; [exact H|].
  apply IH, Hstep, H.
Qed.

Lemma run_app P puter model evs evs' s :
  run P puter model (evs ++ evs') s = run P puter model evs' (run P puter model evs s).
Proof. unfold run. apply fold_left_app. Qed.

Lemma fireTimer_keeps s :
  sessionFilesRef (exec fireTimer s) = sessionFilesRef s
  /\ attachments (exec fireTimer s) = attachments s.
Proof. unfold exec, fireTimer, bind, gets. simpl. destruct (timers s); split; reflexivity. Qed.

Lemma handle_session_NoDup P puter model ev s :
  NoDup (sessionFilesRef s) -> NoDup (sessionFilesRef (exec (handle P puter model ev) s)).
Proof.
  intros H. destruct ev as [text|files|id| | |];
    try (match goal with
         | |- context [handle _ _ _ ?ev] =>
             destruct (handle_quiet P puter model ev s ltac:(discriminate) ltac:(discriminate))
               as [_ _ _ _ _ [Hq|Hq]]
         end; rewrite Hq; [exact H | constructor]).
  - change (handle P puter model Submitted) with (sendMessage P puter model).
    destruct (refused s) eqn:Hr.
    + unfold exec, sendMessage. rewrite Hr. exact H.
    + destruct (sendMessage_cases P puter model s Hr) as (r & s1 & Ho & ->).
      apply outcome_frame in Ho. destruct Ho as [_ _ _ Hs].
      destruct r as [[]|e]; simpl; apply Hs; exact H.
  - change (handle P puter model TimerFired) with fireTimer.
    rewrite (proj1 (fireTimer_keeps s)). exact H.
Qed.

(** X17: in every state a session reaches from the initial one, the set of
    session file paths holds no path twice: each path will be deleted
    at most once by a cleanup. *)
Theorem session_files_recorded_once P puter model evs :
  NoDup (sessionFilesRef (run P puter model evs initialState)).
Proof.
  apply (run_invariant P puter model (fun s => NoDup (sessionFilesRef s))).
  - apply handle_session_NoDup.
  - constructor.
Qed.

(** The logs grow at their end, by messages that hold no file. *)
Lemma handle_logs_grow P puter model ev s :
  wf s ->
  exists moreD moreA,
    displayLog (exec (handle P puter model ev) s) = (displayLog s ++ moreD)%list
    /\ apiLog (exec (handle P puter model ev) s) = (apiLog s ++ moreA)%list
    /\ Forall sanitized moreD
    /\ Forall (fun m => attachments_of m = None) moreA.
Proof.
  intros Hwf.
  assert (Quiet : forall ev', ev' <> Submitted ->
            exists moreD moreA,
              displayLog (exec (handle P puter model ev') s) = (displayLog s ++ moreD)%list
              /\ apiLog (exec (handle P puter model ev') s) = (apiLog s ++ moreA)%list
              /\ Forall sanitized moreD
              /\ Forall (fun m => attachments_of m = None) moreA).
  { intros ev' Hev. destruct (handle_keeps_logs P puter model ev' s Hev) as (Hm & Hc & Hs).
    exists [], []. unfold displayLog, apiLog. rewrite Hm, Hc, Hs, !app_nil_r.
    repeat split; constructor. }
  destruct ev as [text|files|id| | |]; try (apply Quiet; discriminate).
  change (handle P puter model Submitted) with (sendMessage P puter model).
  destruct (refused s) eqn:Hr.
  { unfold exec, sendMessage. rewrite Hr. simpl. exists [], []. rewrite !app_nil_r.
    repeat split; constructor. }
  assert (Su : sanitized (userMessageDisplay (trim (input s))
                            (sanitizeAttachments (attachments s)))).
  { unfold sanitized, userMessageDisplay, sanitizeAttachments. simpl.
    apply Forall_forall. intros a Ha. apply in_map_iff in Ha. destruct Ha as (a0 & <- & _).
    simpl. auto. }
  destruct (sendMessage_cases P puter model s Hr) as (r & s1 & Ho & ->).
  destruct r as [[]|e].
  - destruct (completed_turn_logs P puter model s s1 Hwf Ho) as [_ C].
    destruct C as [videoUrl _ Hd Ha | apiContent fullContent _ Hd Ha]; rewrite Hd, Ha.
    + eexists _, _. repeat split; repeat constructor; exact Su.
    + eexists _, _. repeat split; repeat constructor; exact Su.
  - destruct (failed_turn_logs P puter model s e s1 Hwf Ho) as [Hwf1 St].
    rewrite (failed_displayLog P e s1 Hwf1), (failed_apiLog P e s1 Hwf1).
    destruct St as [Ha Hd | apiContent Ha Hd | apiContent partial Ha Hd]; rewrite Hd, Ha.
    + rewrite <- app_assoc. eexists _, [].
      split; [reflexivity|]. split; [symmetry; apply app_nil_r|].
      split; repeat constructor; exact Su.
    + rewrite <- app_assoc. eexists _, _. repeat split; repeat constructor; exact Su.
    + rewrite <- app_assoc. eexists _, _. repeat split; repeat constructor; exact Su.
Qed.

Lemma run_logs_grow P puter model evs : forall s,
  wf s ->
  exists moreD moreA,
    displayLog (run P puter model evs s) = (displayLog s ++ moreD)%list
    /\ apiLog (run P puter model evs s) = (apiLog s ++ moreA)%list
    /\ Forall sanitized moreD
    /\ Forall (fun m => attachments_of m = None) moreA.
Proof.
  induction evs as [|ev evs IH]; intros s Hwf.
  - exists [], []. rewrite !app_nil_r. repeat split; constructor.
  - destruct (handle_logs_grow P puter model ev s Hwf) as (d1 & a1 & Hd1 & Ha1 & Fd1 & Fa1).
    destruct (IH _ (handle_wf P puter model ev s Hwf)) as (d2 & a2 & Hd2 & Ha2 & Fd2 & Fa2).
    exists (d1 ++ d2)%list, (a1 ++ a2)%list.
    change (run P puter model (ev :: evs) s)
      with (run P puter model evs (exec (handle P puter model ev) s)).
    rewrite Hd2, Ha2, Hd1, Ha1, !app_assoc.
    repeat split; try reflexivity; apply Forall_app; auto.
Qed.

(** ** The entries of the API log *)

Lemma keeps_refl a : keeps_all_but_last a a.
Proof. split; [lia | reflexivity]. Qed.

Lemma keeps_trans a b c :
  keeps_all_but_last a b -> keeps_all_but_last b c -> keeps_all_but_last a c.
Proof.
  intros [L1 F1] [L2 F2]. split; [lia|].
  rewrite <- F1.
  replace (length a - 1)%nat with (Nat.min (length a - 1) (length b - 1)) by lia.
  rewrite <- !firstn_firstn, F2. reflexivity.
Qed.

Lemma keeps_push a r : keeps_all_but_last a (a ++ [r]).
Proof.
  split; [rewrite length_app; lia|]. rewrite firstn_app.
  replace (length a - 1 - length a)%nat with 0%nat by lia. simpl. apply app_nil_r.
Qed.

Lemma keeps_set_last a r : keeps_all_but_last a (set_last a r).
Proof.
  destruct a as [|x a] using rev_ind; [apply keeps_refl|].
  rewrite set_last_snoc. split; [rewrite !length_app; simpl; lia|].
  rewrite length_app. simpl. replace (length a + 1 - 1)%nat with (length a) by lia.
  rewrite !firstn_app, Nat.sub_diag. reflexivity.
Qed.

Section ApiLog.

Variable P : Platform.
Variable puter : option PuterSDK.
Variable model : string.

Lemma askChat_keeps text uploaded p r p1 :
  askChat puter model text uploaded p = (r, p1) ->
  keeps_all_but_last (conversationRef (component p)) (conversationRef (component p1)).
Proof.
  intros E.
  assert (Ep : (exists sdk, puter = Some sdk) \/ puter = None) by (destruct puter; eauto).
  destruct Ep as [[sdk Ep]|Ep].
  - rewrite (askChat_run puter model sdk) in E by exact Ep. injection E as _ <-.
    apply keeps_push.
  - unfold askChat, window_puter in E. rewrite Ep in E. injection E as _ <-.
    apply keeps_push.
Qed.

(** A send that is taken up again appends to the API log or replaces
    its last entry. *)
Lemma resume_keeps_log f p r p1 :
  resume P puter model f p = (r, p1) ->
  keeps_all_but_last (conversationRef (component p)) (conversationRef (component p1)).
Proof.
  intros R.
  destruct f as [settled|text a settled rest up|text settled|settled|c chunks failure first].
  - destruct settled as [url|e0].
    + rewrite resume_video in R. injection R as _ <-. apply keeps_push.
    + rewrite (resume_rejected P puter model _ e0) in R by reflexivity.
      injection R as _ <-. apply keeps_refl.
  - destruct settled as [path|e0].
    + rewrite resume_write in R.
      match type of R with
      | uploadFrom _ _ _ _ ?u ?q = _ =>
          destruct (uploadFrom_run P puter text rest u q) as (f' & q' & E' & U & _)
      end.
      rewrite E' in R. injection R as _ <-. destruct_upload_step U.
      rewrite us_conversation. apply keeps_refl.
    + rewrite resume_write_rejected in R. injection R as _ <-. apply keeps_refl.
  - destruct settled as [uploaded|e0].
    + rewrite resume_upload in R. exact (askChat_keeps _ _ _ _ _ R).
    + rewrite (resume_rejected P puter model _ e0) in R by reflexivity.
      injection R as _ <-. apply keeps_refl.
  - destruct settled as [[chunks failure|v]|e0].
    + rewrite resume_stream in R. injection R as _ <-. apply keeps_push.
    + rewrite resume_payload in R.
      destruct (extractContent v) as [answer|e0]; injection R as _ <-;
        [|apply keeps_push].
      simpl. rewrite set_last_snoc. apply keeps_push.
    + rewrite (resume_rejected P puter model _ e0) in R by reflexivity.
      injection R as _ <-. apply keeps_refl.
  - destruct chunks as [|part rest].
    + rewrite resume_end in R. destruct failure as [e0|]; injection R as _ <-;
        [apply keeps_refl | apply keeps_set_last].
    + rewrite resume_chunk in R. injection R as _ <-. apply keeps_refl.
Qed.

Lemma start_keeps_log text atts p r p1 :
  start P puter model text atts p = (r, p1) ->
  keeps_all_but_last (conversationRef (component p)) (conversationRef (component p1)).
Proof.
  unfold start. destruct puter as [sdk|] eqn:Ep;
    [|intros E; injection E as _ <-; apply keeps_refl].
  destruct (String.eqb model "video-generation").
  - intros E. injection E as _ <-. apply keeps_refl.
  - destruct atts as [|a atts].
    + intros E. rewrite (askChat_run (Some sdk) model sdk) in E by reflexivity.
      injection E as _ <-. apply keeps_push.
    + unfold callUpload. destruct (puter_fs (Some sdk)) as [fsys|] eqn:Ef.
      * destruct (uploadFrom_run P (Some sdk) text (a :: atts) [] p)
          as (f & p' & E & U & _).
        rewrite E. intros E'. injection E' as _ <-. destruct_upload_step U.
        rewrite us_conversation. apply keeps_refl.
      * intros E. injection E as _ <-. apply keeps_refl.
Qed.

Lemma occur_keeps_log o p :
  keeps_all_but_last (conversationRef (component p))
    (conversationRef (component (occur P puter model o p))).
Proof.
  assert (Rk : forall q, conversationRef (component (exec (render P) q))
                         = conversationRef (component q)).
  { intros q. destruct (render_keeps P q) as (C & _). exact C. }
  destruct o as [text|files|id| | | |i].
  - rewrite occur_types, Rk. apply keeps_refl.
  - destruct files as [|f files]; [apply keeps_refl|].
    rewrite occur_selects, Rk. apply keeps_refl.
  - rewrite occur_removes, Rk. apply keeps_refl.
  - destruct (refused (component p)) eqn:Hr;
      [rewrite occur_refused by exact Hr; apply keeps_refl|].
    rewrite occur_submits by exact Hr. rewrite Rk.
    destruct (start P puter model (trim (input (component p))) (attachments (component p))
                (started p)) as [[[f|]|e] p1] eqn:E;
      exact (start_keeps_log _ _ _ _ _ E).
  - rewrite occur_timer. destruct (timers (component p)); apply keeps_refl.
  - change (occur P puter model Renders p) with (exec (render P) p). rewrite Rk.
    apply keeps_refl.
  - destruct (nth_error (flights p) i) as [f|] eqn:E;
      [|rewrite occur_settles_nothing by exact E; apply keeps_refl].
    rewrite (occur_settles P puter model i f p E).
    destruct (resume P puter model f (landed i p)) as [[[f'|]|e] p1] eqn:R;
      exact (resume_keeps_log _ _ _ _ R).
Qed.

End ApiLog.

(** X18: on the page, whatever happens and however the sends overlap,
    the API log never gets shorter and each of its entries but the last
    stays the message object it is, in its place: the code only appends
    to [conversationRef.current] or replaces its last entry. *)
Theorem api_log_keeps_all_but_its_last_entry P puter model occs p :
  let before := conversationRef (component p) in
  let after := conversationRef (component (go P puter model occs p)) in
  (length before <= length after)%nat
  /\ firstn (length before - 1) after = firstn (length before - 1) before.
Proof.
  revert p. induction occs as [|o occs IH]; intros p; [exact (keeps_refl _)|].
  change (go P puter model (o :: occs) p)
    with (go P puter model occs (occur P puter model o p)).
  exact (keeps_trans _ _ _ (occur_keeps_log P puter model o p)
           (IH (occur P puter model o p))).
Qed.

Lemma api_log_keeps_all_but_its_last_entry_witness :
  let puter := Some (Fixtures.sdk (Ok (Stream [VStr "a"; VStr "b"] None))) in
  let p := go Fixtures.platform puter "gpt-4o"
             [Types "one"; Submits; Settles 0; Settles 0; Renders;
              Types "two"; Submits; Settles 1] initialPage in
  let p' := go Fixtures.platform puter "gpt-4o" [Settles 0; Settles 0] p in
  length (flights p) = 2%nat
  /\ conversationRef (component p) = [1; 2; 4; 5]%nat
  /\ conversationRef (component p') = [1; 2; 4; 6]%nat
  /\ firstn 3 (conversationRef (component p')) = [1; 2; 4]%nat.
Proof.
  intros puter p p'.
  destruct (api_log_keeps_all_but_its_last_entry Fixtures.platform puter "gpt-4o"
              [Settles 0; Settles 0] p) as [_ H].
  fold p' in H.
  assert (E : conversationRef (component p) = [1; 2; 4; 5]%nat) by (vm_compute; reflexivity).
  rewrite E in H. simpl in H.
  split; [vm_compute; reflexivity|]. split; [exact E|].
  split; [vm_compute; reflexivity | exact H].
Defined.

(** X19: in every state a session reaches from the initial one, no
    attachment of a message of the display log holds a file, and no
    message of the API log has attachments. *)
Theorem logs_hold_no_file P puter model evs :
  let s := run P puter model evs initialState in
  (forall m items a,
      In m (displayLog s) -> attachments_of m = Some items -> In a items ->
      att_file a = None)
  /\ (forall m, In m (apiLog s) -> attachments_of m = None).
Proof.
  cbv zeta.
  destruct (run_logs_grow P puter model evs initialState wf_initial)
    as (d & a & Hd & Ha & Fd & Fa).
  rewrite Hd, Ha. simpl. split.
  - intros m items x Hm Hi Hx. rewrite Forall_forall in Fd. specialize (Fd m Hm).
    unfold sanitized in Fd. rewrite Hi in Fd. rewrite Forall_forall in Fd.
    apply (Fd x Hx).
  - intros m Hm. rewrite Forall_forall in Fa. apply Fa, Hm.
Qed.

Lemma logs_hold_no_file_witness :
  let sdk := Fixtures.sdk (Ok Fixtures.hello) in
  let s := run Fixtures.platform (Some sdk) "gpt-4o"
             [Selected [Fixtures.png]; Submitted] initialState in
  length (displayLog s) = 2%nat
  /\ att_file (hd (createAttachment Fixtures.platform 0 Fixtures.png)
                 (sanitizeAttachments [createAttachment Fixtures.platform 0 Fixtures.png]))
     = None.
Proof.
  cbv zeta. split; [vm_compute; reflexivity|].
  destruct (logs_hold_no_file Fixtures.platform (Some (Fixtures.sdk (Ok Fixtures.hello)))
              "gpt-4o" [Selected [Fixtures.png]; Submitted]) as [Hd _].
  apply (Hd (userMessageDisplay ""
               (sanitizeAttachments [createAttachment Fixtures.platform 0 Fixtures.png]))
            (sanitizeAttachments [createAttachment Fixtures.platform 0 Fixtures.png])).
  - vm_compute. left. reflexivity.
  - reflexivity.
  - left. reflexivity.
Defined.

(** ** Recovery from an error *)

Lemma completed_turn_status P puter model text atts s0 s1 :
  outcome P puter model text atts s0 (Ok tt) s1 ->
  status s0 = thinking ->
  status s1 = ready \/ status s1 = thinking.
Proof.
  intros H Hs. remember (Ok tt) as r eqn:Er.
  outcome_cases H; try discriminate.
  - left. reflexivity.
  - destruct (streamLoop_run ch None "" true (placed s2) _ _ (placed_streaming s2))
      as (s4' & E4 & Post).
    rewrite Hl in E4. injection E4 as -> <-. destruct_post Post. simpl.
    rewrite sp_status. destruct ch; [right | left]; reflexivity.
  - left. reflexivity.
Qed.

Lemma handle_recovers P puter model ev s :
  recovers s -> recovers (exec (handle P puter model ev) s).
Proof.
  intros [Hall Herr].
  destruct ev as [text|files|id| | |];
    try (match goal with
         | |- context [handle _ _ _ ?ev] =>
             destruct (handle_quiet P puter model ev s ltac:(discriminate) ltac:(discriminate))
               as [_ _ _ Hq Ht _]
         end; unfold recovers; rewrite Hq, Ht; split; assumption).
  - change (handle P puter model Submitted) with (sendMessage P puter model).
    destruct (refused s) eqn:Hr.
    { unfold exec, sendMessage. rewrite Hr. split; assumption. }
    destruct (sendMessage_cases P puter model s Hr) as (r & s1 & Ho & ->).
    pose proof (outcome_frame _ _ _ _ _ _ _ _ Ho) as [_ _ Ht _].
    destruct r as [[]|e].
    + apply completed_turn_status in Ho; [|reflexivity].
      split; [rewrite Ht; exact Hall|]. intros E. destruct Ho as [Ho|Ho]; congruence.
    + split; simpl.
      * rewrite Ht. apply Forall_app. split; [exact Hall | repeat constructor].
      * intros _. destruct (timers s1); discriminate.
  - change (handle P puter model TimerFired) with fireTimer.
    destruct (timers s) as [|t rest] eqn:Et.
    + assert (E0 : exec fireTimer s = s)
        by (unfold exec, fireTimer, bind, gets; simpl; rewrite Et; reflexivity).
      rewrite E0. unfold recovers. rewrite Et. split; [exact Hall | exact Herr].
    + rewrite (fireTimer_run t rest s Et). inversion Hall as [|? ? Hready Hrest]; subst.
      split; simpl; [exact Hrest|]. rewrite Hready. discriminate.
Qed.

(** X20: whenever a session is in the status [error], a timer is pending,
    and the next timer that fires sets the status to [ready]. *)
Theorem error_status_ends_with_next_timer P puter model evs :
  let s := run P puter model evs initialState in
  status s = error ->
  timers s <> []
  /\ status (exec (handle P puter model TimerFired) s) = ready.
Proof.
  cbv zeta. intros He.
  destruct (run_invariant P puter model recovers (handle_recovers P puter model) evs
              initialState) as [Hall Herr].
  { split; [constructor | discriminate]. }
  split; [apply Herr, He|].
  change (handle P puter model TimerFired) with fireTimer.
  destruct (timers (run P puter model evs initialState)) as [|t rest] eqn:Et;
    [apply Herr in He; congruence|].
  rewrite (fireTimer_run t rest _ Et). simpl.
  inversion Hall; subst. assumption.
Qed.

Lemma error_status_ends_with_next_timer_witness :
  let s := run Fixtures.platform None "gpt-4o" [Typed "hi"; Submitted] initialState in
  status s = error
  /\ timers s <> []
  /\ status (exec (handle Fixtures.platform None "gpt-4o" TimerFired) s) = ready.
Proof.
  cbv zeta. split; [vm_compute; reflexivity|].
  apply (error_status_ends_with_next_timer Fixtures.platform None "gpt-4o"
           [Typed "hi"; Submitted]).
  vm_compute. reflexivity.
Defined.

(** ** What the model is sent *)











(** ** Dragging, dropping, pasting *)

Lemma dragStep_overlay P ds ev :
  0 <= dragCounter (fst ds) /\ isDragging (fst ds) = (0 <? dragCounter (fst ds)) ->
  0 <= dragCounter (fst (dragStep P ds ev))
  /\ isDragging (fst (dragStep P ds ev)) = (0 <? dragCounter (fst (dragStep P ds ev))).
Proof.
  intros [H0 Hd]. destruct ds as [d s]. simpl in *.
  destruct ev as [dt|dt|dt|dt]; simpl.
  - unfold handleDragEnter. destruct (hasFiles dt); simpl; [|auto].
    split; [lia|]. symmetry. apply Z.ltb_lt. lia.
  - unfold handleDragLeave. destruct (hasFiles dt); simpl; [|auto].
    split; [lia|]. destruct (Z.leb_spec (dragCounter d) 1).
    + symmetry. apply Z.ltb_ge. lia.
    + rewrite Hd. transitivity true; [apply Z.ltb_lt; lia | symmetry; apply Z.ltb_lt; lia].
  - auto.
  - unfold handleDrop. destruct (hasFiles dt); simpl; auto. split; [lia | reflexivity].
Qed.

(** X22: after every sequence of drag and drop events on a component that
    renders between two events, the drag counter is not negative and
    the overlay is shown exactly when the counter is positive. *)
Theorem drag_overlay_follows_the_counter P evs s :
  let d := fst (dragRun P evs (initialDrag, s)) in
  0 <= dragCounter d /\ isDragging d = (0 <? dragCounter d).
Proof.
  cbv zeta. unfold dragRun.
  assert (G : forall ds,
            0 <= dragCounter (fst ds) /\ isDragging (fst ds) = (0 <? dragCounter (fst ds)) ->
            0 <= dragCounter (fst (fold_left (dragStep P) evs ds))
            /\ isDragging (fst (fold_left (dragStep P) evs ds))
               = (0 <? dragCounter (fst (fold_left (dragStep P) evs ds)))).
  { induction evs as [|ev evs IH]; intros ds H; [exact H|].
    simpl. apply IH, dragStep_overlay, H. }
  apply G. simpl. split; [lia | reflexivity].
Qed.

(** X23: a non-empty list of files reaches the attachments in the same
    way whether it is pasted, picked in the file dialog or dropped: the
    state is that of the selection event of a session.  A paste with
    files prevents the default; a drop announced with the type [Files]
    also hides the overlay and resets the counter; a drop without that
    type changes nothing. *)
Theorem drop_paste_and_pick_select_alike P puter model dt files d s :
  dt_files dt = Some files ->
  files <> [] ->
  let selected := exec (handle P puter model (Selected files)) s in
  handlePaste P (Some dt) s = (true, selected)
  /\ handleFileSelect P (Some files) s = selected
  /\ (hasFiles (Some dt) = true ->
      handleDrop P (Some dt) d s = (initialDrag, selected))
  /\ (hasFiles (Some dt) = false -> handleDrop P (Some dt) d s = (d, s)).
Proof.
  intros Hf Hne. cbv zeta. unfold handlePaste, handleFileSelect, handleDrop.
  unfold filesFromDataTransfer. rewrite Hf.
  destruct files as [|f rest]; [contradiction|].
  repeat split; intros ->; reflexivity.
Qed.

Lemma drop_paste_and_pick_select_alike_witness :
  let dt := {| dt_types := Some ["text/plain"; "Files"];
               dt_files := Some [Fixtures.png; Fixtures.zip];
               dt_items := None |} in
  map att_name (attachments (snd (handlePaste Fixtures.platform (Some dt) initialState)))
  = ["cat.png"].
Proof.
  cbv zeta.
  destruct (drop_paste_and_pick_select_alike Fixtures.platform None "gpt-4o"
              {| dt_types := Some ["text/plain"; "Files"];
                 dt_files := Some [Fixtures.png; Fixtures.zip];
                 dt_items := None |}
              [Fixtures.png; Fixtures.zip] initialDrag initialState eq_refl
              ltac:(discriminate)) as (Hp & _).
  rewrite Hp. vm_compute. reflexivity.
Defined.

(** ** Expanding a long message *)

Lemma has_added x set j : has (added x set) j = Nat.eqb j x || has set j.
Proof.
  unfold added. destruct (has set x) eqn:E.
  - destruct (Nat.eqb_spec j x) as [->|N]; [rewrite E|]; reflexivity.
  - unfold has. rewrite existsb_app. simpl. rewrite orb_false_r. apply orb_comm.
Qed.

Lemma has_deleted x set j : has (deleted x set) j = negb (Nat.eqb j x) && has set j.
Proof.
  unfold deleted, has. induction set as [|y set IH]; simpl; [symmetry; apply andb_false_r|].
  destruct (Nat.eqb_spec x y) as [->|N]; simpl.
  - rewrite IH. destruct (Nat.eqb_spec j y); reflexivity.
  - rewrite IH. destruct (Nat.eqb_spec j y) as [->|N2]; simpl.
    + destruct (Nat.eqb_spec y x); [congruence | reflexivity].
    + reflexivity.
Qed.

(** X24: toggling a user message marks it as animating at once, leaves
    the expanded set as it is and schedules the flip.  When a pending
    flip of the message fires, whatever the state is by then and
    whatever else is pending, the message is expanded if and only if it
    was not just before, every other message and the animating marks
    are as before, and the end of the animation is scheduled; when that
    fires, the message is no longer animating and nothing else changes.
    So the flips of a message that is toggled again before its timers
    have fired undo each other. *)
Theorem toggle_flips_the_message_only index e :
  (let started := toggleExpandMessage index e in
   (forall j, has (animatingMessages started) j
              = Nat.eqb j index || has (animatingMessages e) j)
   /\ expandedMessages started = expandedMessages e
   /\ expandTimers started = (expandTimers e ++ [(50, FlipExpanded index)])%list)
  /\ (forall i delay,
        nth_error (expandTimers e) i = Some (delay, FlipExpanded index) ->
        let flipped := fireExpandTimer i e in
        (forall j, has (expandedMessages flipped) j
                   = if Nat.eqb j index then negb (has (expandedMessages e) index)
                     else has (expandedMessages e) j)
        /\ animatingMessages flipped = animatingMessages e
        /\ expandTimers flipped
           = ((firstn i (expandTimers e) ++ skipn (S i) (expandTimers e))
              ++ [(400, StopAnimating index)])%list)
  /\ (forall i delay,
        nth_error (expandTimers e) i = Some (delay, StopAnimating index) ->
        let stopped := fireExpandTimer i e in
        expandedMessages stopped = expandedMessages e
        /\ (forall j, has (animatingMessages stopped) j
                      = negb (Nat.eqb j index) && has (animatingMessages e) j)
        /\ expandTimers stopped
           = (firstn i (expandTimers e) ++ skipn (S i) (expandTimers e))%list).
Proof.
  split; [|split].
  - cbv zeta. simpl. split; [intros j; apply has_added|]. split; reflexivity.
  - intros i delay H. cbv zeta. unfold fireExpandTimer. rewrite H. simpl.
    split; [|split; reflexivity].
    intros j. destruct (has (expandedMessages e) index) eqn:E.
    + rewrite has_deleted. destruct (Nat.eqb_spec j index) as [->|N]; [|reflexivity].
      reflexivity.
    + rewrite has_added. destruct (Nat.eqb_spec j index) as [->|N]; [|reflexivity].
      reflexivity.
  - intros i delay H. cbv zeta. unfold fireExpandTimer. rewrite H. simpl.
    split; [reflexivity|]. split; [|reflexivity].
    intros j. apply has_deleted.
Qed.

Lemma toggle_flips_the_message_only_witness :
  let e := {| expandedMessages := [0%nat; 4%nat]; animatingMessages := [];
              expandTimers := [] |} in
  let once := fireExpandTimer 0 (fireExpandTimer 0 (toggleExpandMessage 4 e)) in
  let twice := toggleExpandMessage 4 (toggleExpandMessage 4 e) in
  let flipped := fireExpandTimer 0 twice in
  let back := fireExpandTimer 0 flipped in
  has (expandedMessages once) 4 = false
  /\ has (expandedMessages once) 0 = true
  /\ has (expandedMessages flipped) 4 = false
  /\ has (expandedMessages back) 4 = true
  /\ has (expandedMessages back) 0 = true
  /\ expandTimers back = [(400, StopAnimating 4%nat); (400, StopAnimating 4%nat)].
Proof.
  intros e once twice flipped back.
  destruct (toggle_flips_the_message_only 4 (toggleExpandMessage 4 e)) as (_ & H1 & _).
  destruct (H1 0%nat 50 eq_refl) as (F1 & _).
  destruct (toggle_flips_the_message_only 4 twice) as (_ & H2 & _).
  destruct (H2 0%nat 50 eq_refl) as (F2 & _ & _).
  destruct (toggle_flips_the_message_only 4 flipped) as (_ & H3 & _).
  destruct (H3 0%nat 50 eq_refl) as (F3 & _ & T3).
  split; [vm_compute; reflexivity|]. split; [vm_compute; reflexivity|].
  split; [unfold flipped; rewrite (F2 4%nat); reflexivity|].
  split; [unfold back; rewrite (F3 4%nat); unfold flipped; rewrite (F2 4%nat); reflexivity|].
  split; [unfold back; rewrite (F3 0%nat); unfold flipped; rewrite (F2 0%nat); reflexivity|].
  exact T3.
Defined.

(** ** Choosing a model *)

(** X25: after a model with a non-empty id is selected, opening the page
    again at the address that was pushed shows what was shown: the chat
    with that model if the catalog has it, the grid otherwise.  A chat
    that is shown is with a model of the catalog that has the selected
    id.  After Back the grid is shown, also when the page is opened
    again. *)
Theorem selected_model_survives_reload models modelId a :
  nonempty modelId = true ->
  let chosen := App.handleSelectModel modelId a in
  let reopened (b : App.AppState) :=
    App.openPage models
      {| App.selectedModelId := None; App.location_model := App.location_model b |} in
  App.view models (reopened chosen) = App.view models chosen
  /\ (forall model, App.view models chosen = App.ShowChat model ->
                    In model models /\ App.id model = modelId)
  /\ App.view models (App.handleBack chosen) = App.ShowGrid
  /\ App.view models (reopened (App.handleBack chosen)) = App.ShowGrid.
Proof.
  intros Hne. cbv zeta. unfold App.handleSelectModel, App.handleBack, App.openPage, App.view.
  simpl. rewrite Hne. simpl.
  destruct (App.findModel models modelId) as [m|] eqn:F; simpl; rewrite ?F.
  - split; [reflexivity|]. split; [|split; reflexivity].
    intros model Hv. injection Hv as <-. apply find_some in F. destruct F as [Hin Hid].
    split; [exact Hin | apply String.eqb_eq; exact Hid].
  - split; [reflexivity|]. split; [|split; reflexivity].
    intros model Hv. discriminate.
Qed.

Lemma selected_model_survives_reload_witness :
  let gpt := {| App.id := "gpt-4o"; App.name := "GPT-4o"; App.provider := "OpenAI";
                App.icon := "o"; App.description := "general"; App.category := "chat" |} in
  App.view [gpt]
    (App.openPage [gpt]
       {| App.selectedModelId := None;
          App.location_model := App.location_model
                                  (App.handleSelectModel "gpt-4o"
                                     {| App.selectedModelId := None;
                                        App.location_model := None |}) |})
  = App.ShowChat gpt.
Proof.
  cbv zeta.
  destruct (selected_model_survives_reload
              [{| App.id := "gpt-4o"; App.name := "GPT-4o"; App.provider := "OpenAI";
                  App.icon := "o"; App.description := "general"; App.category := "chat" |}]
              "gpt-4o" {| App.selectedModelId := None; App.location_model := None |} eq_refl)
    as (H & _).
  rewrite H. reflexivity.
Defined.
